(** * oula-transfer: a daily PostgreSQL -> MySQL metrics transfer job

    Shallow embedding of [main.go] (the current program) and of its older
    variant, with the parts of the Go standard library the program calls
    ([fmt.Sscanf], [time], [database/sql], [log], [os.Exit]) modelled by
    their documented behaviour.

    Conventions.
    - Go [int] is 64 bits wide; integers are [Z] and the places where the
      library checks a range are written out.
    - A [time.Time] is an instant (nanoseconds since the Unix epoch) together
      with its location; a location has one fixed offset from UTC, so every
      local day is 24 hours long.
    - A process is a function on the world (clock, databases, open handles,
      event trace) that either returns a value or ends the whole process with
      an exit status; [os.Exit] does not run deferred calls. *)

From Stdlib Require Import ZArith Lia List Bool Ascii String.
From stdpp Require Import base option list strings gmap pretty.

Local Open Scope Z_scope.

(** ** The proleptic Gregorian calendar behind [Time.Date] and [time.Date] *)

Module Calendar.

Record civil := mkCivil { c_year : Z; c_month : Z; c_day : Z }.

Definition daysPerEra : Z := 146097.
Definition epochShift : Z := 719468.

(** Day of the 400-year era, year of the era and day of the (March-based)
    year, from the day number of the era. *)
Definition yearOfEra (doe : Z) : Z :=
  (doe - doe / 1460 + doe / 36524 - doe / 146096) / 365.

Definition dayOfEra (yoe doy : Z) : Z :=
  yoe * 365 + yoe / 4 - yoe / 100 + doy.

Definition dayOfYear (mp d : Z) : Z := (153 * mp + 2) / 5 + d - 1.

(** Civil date of the day [z] days after 1970-01-01. *)
Definition civil_from_days (z : Z) : civil :=
  let z := z + epochShift in
  let era := z / daysPerEra in
  let doe := z - era * daysPerEra in
  let yoe := yearOfEra doe in
  let y := yoe + era * 400 in
  let doy := doe - (365 * yoe + yoe / 4 - yoe / 100) in
  let mp := (5 * doy + 2) / 153 in
  let d := doy - (153 * mp + 2) / 5 + 1 in
  let m := if mp <? 10 then mp + 3 else mp - 9 in
  mkCivil (if m <=? 2 then y + 1 else y) m d.

(** Days from 1970-01-01 to the civil date; [d] may lie outside the month
    ([time.Date] normalises by carrying), [m] is in 1..12. *)
Definition days_from_civil (y m d : Z) : Z :=
  let y := if m <=? 2 then y - 1 else y in
  let era := y / 400 in
  let yoe := y - era * 400 in
  let mp := if 2 <? m then m - 3 else m + 9 in
  let doy := dayOfYear mp d in
  era * daysPerEra + dayOfEra yoe doy - epochShift.

Definition days_of (c : civil) : Z :=
  days_from_civil (c_year c) (c_month c) (c_day c).

End Calendar.

(** ** The [time] package *)

(** A location with one fixed offset, in seconds east of UTC. *)
Record Location := mkLocation { zoneOffset : Z }.

Definition UTC : Location := mkLocation 0.

(** An instant and the location it is presented in. *)
Record Time := mkTime { unixNano : Z; Time_Location : Location }.

(** Durations are counts of nanoseconds that fit 64 bits. *)
Definition time_Nanosecond : Z := 1.
Definition time_Second : Z := 1000000000 * time_Nanosecond.
Definition time_Minute : Z := 60 * time_Second.
Definition time_Hour : Z := 60 * time_Minute.
Definition nsPerDay : Z := 24 * time_Hour.

Definition minDuration : Z := - 2 ^ 63.
Definition maxDuration : Z := 2 ^ 63 - 1.

Definition saturate (d : Z) : Z :=
  if d <? minDuration then minDuration
  else if maxDuration <? d then maxDuration
  else d.

(** Wall-clock reading of [t] in its own location. *)
Definition localNano (t : Time) : Z :=
  unixNano t + zoneOffset (Time_Location t) * time_Second.

Definition localDay (t : Time) : Z := localNano t / nsPerDay.

Definition Time_civil (t : Time) : Calendar.civil :=
  Calendar.civil_from_days (localDay t).

Definition Time_Year (t : Time) : Z := Calendar.c_year (Time_civil t).
Definition Time_Month (t : Time) : Z := Calendar.c_month (Time_civil t).
Definition Time_Day (t : Time) : Z := Calendar.c_day (Time_civil t).
Definition Time_Hour (t : Time) : Z := (localNano t mod nsPerDay) / time_Hour.
Definition Time_Minute (t : Time) : Z :=
  (localNano t mod time_Hour) / time_Minute.
Definition Time_Second (t : Time) : Z :=
  (localNano t mod time_Minute) / time_Second.
Definition Time_Nanosecond (t : Time) : Z := localNano t mod time_Second.

(** [time.Date]: values outside their usual ranges are normalised by
    carrying, which over [Z] is the linear sum below; the month is first
    brought into 1..12 with the year adjusted. *)
Definition time_Date (year month day hour min sec nsec : Z) (loc : Location)
  : Time :=
  let m0 := month - 1 in
  let year := year + m0 / 12 in
  let month := m0 mod 12 + 1 in
  let days := Calendar.days_from_civil year month day in
  mkTime (days * nsPerDay + hour * time_Hour + min * time_Minute
          + sec * time_Second + nsec - zoneOffset loc * time_Second) loc.

Definition Time_After (t u : Time) : bool := unixNano u <? unixNano t.

Definition Time_Add (t : Time) (d : Z) : Time :=
  mkTime (unixNano t + d) (Time_Location t).

(** [t.Sub(u)]: the difference, clamped to what a Duration can hold. *)
Definition Time_Sub (t u : Time) : Z := saturate (unixNano t - unixNano u).

(** [appendInt] of the formatter: sign, then decimal digits padded with
    zeros up to [width]. *)
Definition zeros (n : nat) : string :=
  fold_right (fun _ s => String "0"%char s) EmptyString (seq 0 n).

Definition appendInt (x : Z) (width : nat) : string :=
  let digits := pretty (Z.abs_N x) in
  let body := (zeros (width - String.length digits) ++ digits)%string in
  if x <? 0 then String "-"%char body else body.

(** [t.Format("2006-01-02")] *)
Definition Time_Format_date (t : Time) : string :=
  (appendInt (Time_Year t) 4 ++ "-" ++ appendInt (Time_Month t) 2
   ++ "-" ++ appendInt (Time_Day t) 2)%string.

(** ** Strings as the scanner reads them: UTF-8 bytes decoded to runes *)

Definition rune := Z.
Definition RuneError : rune := 65533.

Definition bytes (s : string) : list Z :=
  map (fun a => Z.of_N (N_of_ascii a)) (list_ascii_of_string s).

Definition isCont (b : Z) : bool := (128 <=? b) && (b <=? 191).

(** [utf8.DecodeRune]: the first rune and its width in bytes; an invalid or
    truncated encoding yields [RuneError] with width 1. *)
Definition DecodeRune (bs : list Z) : rune * nat :=
  match bs with
  | [] => (RuneError, 0%nat)
  | b0 :: rest =>
    if b0 <? 128 then (b0, 1%nat)
    else if (194 <=? b0) && (b0 <=? 223) then
      match rest with
      | b1 :: _ =>
        if isCont b1 then ((b0 - 192) * 64 + (b1 - 128), 2%nat)
        else (RuneError, 1%nat)
      | _ => (RuneError, 1%nat)
      end
    else if (224 <=? b0) && (b0 <=? 239) then
      match rest with
      | b1 :: b2 :: _ =>
        let lo := if b0 =? 224 then 160 else 128 in
        let hi := if b0 =? 237 then 159 else 191 in
        if (lo <=? b1) && (b1 <=? hi) && isCont b2
        then ((b0 - 224) * 4096 + (b1 - 128) * 64 + (b2 - 128), 3%nat)
        else (RuneError, 1%nat)
      | _ => (RuneError, 1%nat)
      end
    else if (240 <=? b0) && (b0 <=? 244) then
      match rest with
      | b1 :: b2 :: b3 :: _ =>
        let lo := if b0 =? 240 then 144 else 128 in
        let hi := if b0 =? 244 then 143 else 191 in
        if (lo <=? b1) && (b1 <=? hi) && isCont b2 && isCont b3
        then ((b0 - 240) * 262144 + (b1 - 128) * 4096
              + (b2 - 128) * 64 + (b3 - 128), 4%nat)
        else (RuneError, 1%nat)
      | _ => (RuneError, 1%nat)
      end
    else (RuneError, 1%nat)
  end.

Fixpoint decodeAll (fuel : nat) (bs : list Z) : list rune :=
  match fuel with
  | O => []
  | S fuel' =>
    match bs with
    | [] => []
    | _ => let '(r, size) := DecodeRune bs in
           r :: decodeAll fuel' (drop size bs)
    end
  end.

Definition runes (s : string) : list rune :=
  let bs := bytes s in decodeAll (length bs) bs.

(** ** [fmt.Sscanf] with the format ["%d:%d"] *)

(** The scanner's table of space characters. *)
Definition spaceRanges : list (Z * Z) :=
  [ (9, 13); (32, 32); (133, 133); (160, 160); (5760, 5760);
    (8192, 8202); (8232, 8233); (8239, 8239); (8287, 8287);
    (12288, 12288) ].

Fixpoint inRanges (rx : Z) (rs : list (Z * Z)) : bool :=
  match rs with
  | [] => false
  | (lo, hi) :: rs' =>
    if rx <? lo then false
    else if rx <=? hi then true
    else inRanges rx rs'
  end.

Definition isSpace (r : rune) : bool :=
  if 65536 <=? r then false else inRanges r spaceRanges.

Inductive ScanError : Type :=
| ErrUnexpectedNewline   (* unexpected newline *)
| ErrEOF                 (* the input ran out *)
| ErrExpectedInteger     (* expected integer *)
| ErrRange               (* strconv.ParseInt: value out of range *)
| ErrNoMatch.            (* input does not match format *)

(** [SkipSpace] when newlines do not count as space (the Sscanf family). *)
Fixpoint SkipSpace (input : list rune) : ScanError + list rune :=
  match input with
  | [] => inr []
  | r :: rest =>
    if r =? 10 then inl ErrUnexpectedNewline
    else if isSpace r then SkipSpace rest
    else inr input
  end.

Definition isDigit (r : rune) : bool := (48 <=? r) && (r <=? 57).

(** The loop [for s.accept(digits) {}]: the digits taken and what is left. *)
Fixpoint acceptDigits (input : list rune) : list rune * list rune :=
  match input with
  | [] => ([], [])
  | r :: rest =>
    if isDigit r
    then let '(tok, rem) := acceptDigits rest in (r :: tok, rem)
    else ([], input)
  end.

Definition digitsValue (tok : list rune) : Z :=
  fold_left (fun acc d => acc * 10 + (d - 48)) tok 0.

Definition minInt64 : Z := - 2 ^ 63.
Definition maxInt64 : Z := 2 ^ 63 - 1.

(** [scanInt] for the verb [d] and a 64-bit destination: skip space, refuse
    an empty input, take an optional sign, require one digit at least, and
    convert with [strconv.ParseInt(tok, 10, 64)]. *)
Definition acceptSign (input : list rune) : bool * list rune :=
  match input with
  | [] => (false, [])
  | r :: rest =>
    if r =? 45 then (true, rest)
    else if r =? 43 then (false, rest)
    else (false, input)
  end.

Definition scanInt (input : list rune) : ScanError + (Z * list rune) :=
  match SkipSpace input with
  | inl e => inl e
  | inr [] => inl ErrEOF
  | inr l =>
    let '(neg, l1) := acceptSign l in
    match l1 with
    | [] => inl ErrEOF
    | _ =>
      let '(tok, l2) := acceptDigits l1 in
      match tok with
      | [] => inl ErrExpectedInteger
      | _ =>
        let v := digitsValue tok in
        let i := if neg : bool then - v else v in
        if (minInt64 <=? i) && (i <=? maxInt64) then inr (i, l2)
        else inl ErrRange
      end
    end
  end.

(** What [fmt.Sscanf(str, "%d:%d", &hour, &minute)] leaves behind: the
    number of items stored, the error, and the two variables. A variable
    whose item fails keeps the value it had. Input after the second number
    is not looked at. *)
Record Scanned := mkScanned {
  sc_n : Z;
  sc_err : option ScanError;
  sc_hour : Z;
  sc_minute : Z
}.

Definition Sscanf_d_colon_d (str : string) (hour minute : Z) : Scanned :=
  match SkipSpace (runes str) with
  | inl e => mkScanned 0 (Some e) hour minute
  | inr l0 =>
    match scanInt l0 with
    | inl e => mkScanned 0 (Some e) hour minute
    | inr (h, l1) =>
      match l1 with
      | [] => mkScanned 1 (Some ErrEOF) h minute
      | r :: l2 =>
        if negb (r =? 58) then mkScanned 1 (Some ErrNoMatch) h minute
        else
          match SkipSpace l2 with
          | inl e => mkScanned 1 (Some e) h minute
          | inr l3 =>
            match scanInt l3 with
            | inl e => mkScanned 1 (Some e) h minute
            | inr (m, _) => mkScanned 2 None h m
            end
          end
      end
    end
  end.

(** ** [parseExecutionTime] (main.go 43-47, the same in the older variant) *)

Definition parseExecutionTime (timeStr : string) : Z * Z :=
  let hour := 0 in
  let minute := 0 in
  let r := Sscanf_d_colon_d timeStr hour minute in
  (sc_hour r, sc_minute r).

(** ** The scheduler's due time (main.go 31-36, inside the loop of [main]) *)

Definition dueTime (now : Time) (executionTime : string) : Time :=
  let '(execHour, execMinute) := parseExecutionTime executionTime in
  let execution :=
    time_Date (Time_Year now) (Time_Month now) (Time_Day now)
              execHour execMinute 0 0 (Time_Location now) in
  if Time_After now execution
  then Time_Add execution (24 * time_Hour)
  else execution.

(** ** The world the process runs in *)

Inductive SqlError : Type :=
| ErrBadDSN          (* sql.Open: unknown driver or unparsable data source *)
| ErrQuery           (* the server or the connection refused the statement *)
| ErrNoRows          (* sql.ErrNoRows: the result set is empty *)
| ErrScanNull        (* converting NULL to int is unsupported *)
| ErrScanType        (* the column does not convert to int *)
| ErrDuplicateKey    (* MySQL 1062: duplicate entry for the primary key *)
| ErrNoSuchTable.    (* MySQL 1146: the table does not exist *)

(** What the source database sends back for one query. *)
Inductive RowResult : Type :=
| QueryFails
| NoRow
| NullValue
| IntValue (n : Z)
| OtherValue.

(** A [*sql.DB] handle. *)
Record DB := mkDB { db_id : nat; db_driver : string; db_dsn : string }.

Inductive LogArg : Type :=
| LStr (s : string)
| LInt (n : Z)
| LErr (e : SqlError).

Inductive Event : Type :=
| EvLog (format : string) (args : list LogArg)
| EvUsage
| EvSleep (d : Z)
| EvOpen (db : DB)
| EvClose (db : DB)
| EvQuery (db : DB) (query : string) (answer : RowResult)
| EvExec (db : DB) (query date : string) (count : Z) (err : option SqlError).

Record World := mkWorld {
  w_clock : nat -> Time;              (* successive readings of the clock *)
  w_ticks : nat;                      (* readings taken so far *)
  w_accepts : string -> string -> bool;  (* does sql.Open take driver, dsn *)
  w_source : nat -> string -> RowResult; (* answer to the k-th source query *)
  w_queries : nat;                    (* source queries made so far *)
  w_dest : gmap string (list (string * Z));
                                      (* destination tables by name: rows
                                         (date, count), date the primary key *)
  w_open : gset nat;                  (* handles opened and not closed *)
  w_next : nat;                       (* next fresh handle *)
  w_trace : list Event                (* what happened, oldest first *)
}.

Definition emit (e : Event) (w : World) : World :=
  mkWorld (w_clock w) (w_ticks w) (w_accepts w) (w_source w) (w_queries w)
          (w_dest w) (w_open w) (w_next w) (w_trace w ++ [e]).

Definition tick (w : World) : World :=
  mkWorld (w_clock w) (S (w_ticks w)) (w_accepts w) (w_source w) (w_queries w)
          (w_dest w) (w_open w) (w_next w) (w_trace w).

Definition asked (w : World) : World :=
  mkWorld (w_clock w) (w_ticks w) (w_accepts w) (w_source w) (S (w_queries w))
          (w_dest w) (w_open w) (w_next w) (w_trace w).

Definition with_dest (d : gmap string (list (string * Z))) (w : World) : World :=
  mkWorld (w_clock w) (w_ticks w) (w_accepts w) (w_source w) (w_queries w)
          d (w_open w) (w_next w) (w_trace w).

Definition with_open (o : gset nat) (n : nat) (w : World) : World :=
  mkWorld (w_clock w) (w_ticks w) (w_accepts w) (w_source w) (w_queries w)
          (w_dest w) o n (w_trace w).

(** ** Processes *)

Inductive Outcome (A : Type) : Type :=
| Returned (a : A)
| Exited (code : Z).
Arguments Returned {A} a.
Arguments Exited {A} code.

Definition Proc (A : Type) : Type := World -> Outcome A * World.

#[global] Instance proc_ret : MRet Proc := fun A a w => (Returned a, w).

#[global] Instance proc_bind : MBind Proc := fun A B f m w =>
  match m w with
  | (Returned a, w') => f a w'
  | (Exited code, w') => (Exited code, w')
  end.

(** [os.Exit]: the process ends here; nothing that was deferred runs. *)
Definition os_Exit {A : Type} (code : Z) : Proc A := fun w => (Exited code, w).

(** [defer d] followed by [body] up to the return of the function: [d] runs
    when [body] returns, and does not run when [body] ends the process. *)
Definition defer {A B : Type} (d : Proc B) (body : Proc A) : Proc A :=
  a ← body; d;; mret a.

Definition log_Printf (format : string) (args : list LogArg) : Proc unit :=
  fun w => (Returned tt, emit (EvLog format args) w).

Definition log_Println (msg : string) : Proc unit := log_Printf msg [].

(** [log.Fatalf] is [log.Printf] followed by [os.Exit(1)]. *)
Definition log_Fatalf {A : Type} (format : string) (args : list LogArg)
  : Proc A :=
  log_Printf format args;; os_Exit 1.

Definition flag_Usage : Proc unit :=
  fun w => (Returned tt, emit EvUsage w).

Definition time_Now : Proc Time :=
  fun w => (Returned (w_clock w (w_ticks w)), tick w).

(** [time.Until(t)] is [t.Sub(time.Now())]. *)
Definition time_Until (t : Time) : Proc Z :=
  now ← time_Now; mret (Time_Sub t now).

(** [time.Sleep]: a duration that is not positive returns at once. *)
Definition time_Sleep (d : Z) : Proc unit :=
  fun w => (Returned tt, emit (EvSleep d) w).

(** [sql.Open] validates its arguments and hands out a handle; it does not
    connect. *)
Definition sql_Open (driver dsn : string) : Proc (SqlError + DB) := fun w =>
  if w_accepts w driver dsn
  then let db := mkDB (w_next w) driver dsn in
       (Returned (inr db),
        emit (EvOpen db) (with_open ({[ w_next w ]} ∪ w_open w)
                                    (S (w_next w)) w))
  else (Returned (inl ErrBadDSN), w).

Definition DB_Close (db : DB) : Proc unit := fun w =>
  (Returned tt, emit (EvClose db) (with_open (w_open w ∖ {[ db_id db ]})
                                             (w_next w) w)).

(** [Row.Scan(&count)] into an [int]: only an integer that fits is stored. *)
Definition Scan_int (r : RowResult) (count : Z) : option SqlError * Z :=
  match r with
  | QueryFails => (Some ErrQuery, count)
  | NoRow => (Some ErrNoRows, count)
  | NullValue => (Some ErrScanNull, count)
  | IntValue n =>
    if (minInt64 <=? n) && (n <=? maxInt64) then (None, n)
    else (Some ErrScanType, count)
  | OtherValue => (Some ErrScanType, count)
  end.

(** [db.QueryRow(query).Scan(&count)] on the source. *)
Definition QueryRow_Scan (db : DB) (query : string) (count : Z)
  : Proc (option SqlError * Z) := fun w =>
  let answer := w_source w (w_queries w) query in
  (Returned (Scan_int answer count), emit (EvQuery db query answer) (asked w)).

(** The statement text that [insertToMySQL] builds with
    [fmt.Sprintf("INSERT INTO %s (date, count) VALUES (?, ?)", tableName)]. *)
Definition insertHead : string := "INSERT INTO ".
Definition insertTail : string := " (date, count) VALUES (?, ?)".

Definition Sprintf_insert (tableName : string) : string :=
  (insertHead ++ tableName ++ insertTail)%string.

Fixpoint stripPrefix (p s : string) : option string :=
  match p, s with
  | EmptyString, _ => Some s
  | String a p', String b s' =>
    if Ascii.eqb a b then stripPrefix p' s' else None
  | String _ _, EmptyString => None
  end.

Fixpoint stripSuffix (suf s : string) : option string :=
  if String.eqb s suf then Some EmptyString
  else match s with
       | EmptyString => None
       | String a s' => String a <$> stripSuffix suf s'
       end.

(** The table an insert statement of that shape names. *)
Definition insertTarget (query : string) : option string :=
  stripPrefix insertHead query ≫= stripSuffix insertTail.

(** The destination executes an insert of [(date, count)]: the statement
    must have the shape above, the table must exist and must hold no row of
    that date yet. *)
Definition insertRow (tbl date : string) (count : Z)
    (d : gmap string (list (string * Z)))
  : SqlError + gmap string (list (string * Z)) :=
  match d !! tbl with
  | None => inl ErrNoSuchTable
  | Some rows =>
    if bool_decide (date ∈ rows.*1) then inl ErrDuplicateKey
    else inr (<[ tbl := rows ++ [(date, count)] ]> d)
  end.

Definition execInsert (query date : string) (count : Z)
    (d : gmap string (list (string * Z)))
  : SqlError + gmap string (list (string * Z)) :=
  match insertTarget query with
  | None => inl ErrQuery
  | Some tbl => insertRow tbl date count d
  end.

(** [db.Exec(query, date, count)] on the destination. *)
Definition DB_Exec (db : DB) (query date : string) (count : Z)
  : Proc (option SqlError) := fun w =>
  match execInsert query date count (w_dest w) with
  | inl e => (Returned (Some e), emit (EvExec db query date count (Some e)) w)
  | inr d => (Returned None,
              emit (EvExec db query date count None) (with_dest d w))
  end.

(** ** The program: main.go *)

Definition dq : string := String (ascii_of_nat 34) EmptyString.
Definition nl : string := String (ascii_of_nat 10) EmptyString.

(** A raw string literal that spans several lines of the source. *)
Definition rawLines (ls : list string) : string := String.concat nl ls.

(** The command-line flags after [flag.Parse]. *)
Record Flags := mkFlags {
  executionTime : string;
  pgDsn : string;
  mysqlDsn : string
}.

Definition defaultFlags : Flags := mkFlags "23:00" "" "".

(** The query texts of [transferData], in the order they are run; the first
    two are the literals at main.go 69 and 73. *)
Definition AleoActiveMachineQuery : string :=
  "SELECT count(*) FROM machine m WHERE to_timestamp(m.last_commit_solution) >= DATE(NOW()) AND project='ALEO'".

Definition QuaiActiveMachineQuery : string :=
  "SELECT count(*) FROM machine m WHERE to_timestamp(m.last_commit_solution) >= DATE(NOW()) AND project='Quai_Garden'".

Definition lostUsersQuery : string :=
  rawLines [
    "WITH machine_activity AS (";
    "		SELECT ma.main_user_id, MAX(m.last_commit_solution) AS max_last_commit_solution";
    "		FROM miner_account ma";
    "		JOIN machine m ON m.miner_account_id = ma.id";
    "		GROUP BY ma.main_user_id";
    "	)";
    ("	SELECT COUNT(distinct u.email) FROM public." ++ dq ++ "user" ++ dq ++ " u");
    "	LEFT JOIN machine_activity ma ON ma.main_user_id = u.id";
    "	WHERE  to_timestamp(ma.max_last_commit_solution) < (DATE_TRUNC('day', NOW()) - INTERVAL '1 days')"
  ]%string.

Definition AleoactiveMachinesChannelQuery : string :=
  rawLines [
    "WITH select_user AS(";
    "		SELECT u.email, ma.id, ma.name";
    "		FROM miner_account ma";
    ("		LEFT JOIN " ++ dq ++ "public" ++ dq ++ "." ++ dq ++ "user" ++ dq ++ " u ON u.id = ma.main_user_id");
    ("		LEFT JOIN invitation_code ic ON ic." ++ dq ++ "id" ++ dq ++ " = u.invitation_code_id");
    "		WHERE ic.tag in (";
    "			SELECT tag";
    "				FROM bonus_obj";
    "				WHERE user_id IS NULL ";
    "					AND project = 'ALEO' ";
    "					AND tag !='default'";
    "				)";
    "	)";
    "	SELECT count(*) FROM machine m ";
    "	JOIN select_user su ON m.miner_account_id = su.id";
    "	WHERE to_timestamp(m.last_commit_solution) >= DATE(NOW())"
  ]%string.

Definition QuaiActiveMachinesChannelQuery : string :=
  rawLines [
    "WITH select_user AS(";
    "		SELECT u.email, ma.id, ma.name";
    "		FROM miner_account ma";
    ("		LEFT JOIN " ++ dq ++ "public" ++ dq ++ "." ++ dq ++ "user" ++ dq ++ " u ON u.id = ma.main_user_id");
    ("		LEFT JOIN invitation_code ic ON ic." ++ dq ++ "id" ++ dq ++ " = u.invitation_code_id");
    "		WHERE ic.tag in (";
    "			SELECT tag";
    "				FROM bonus_obj";
    "				WHERE user_id IS NULL ";
    "					AND project = 'Quai_Garden ";
    "					AND tag !='default'";
    "				)";
    "	)";
    "	SELECT count(*) FROM machine m ";
    "	JOIN select_user su ON m.miner_account_id = su.id";
    "	WHERE to_timestamp(m.last_commit_solution) >= DATE(NOW())"
  ]%string.


(** [queryCount] (main.go 132-140) *)
Definition queryCount (db : DB) (query : string) : Proc Z :=
  let count := 0 in
  '(err, count) ← QueryRow_Scan db query count;
  match err with
  | Some e =>
    log_Printf "Failed to execute query: %s, error: %v" [LStr query; LErr e];;
    os_Exit 1
  | None => mret tt
  end;;
  mret count.

(** [insertToMySQL] (main.go 142-150) *)
Definition insertToMySQL (db : DB) (tableName date : string) (count : Z)
  : Proc unit :=
  let query := Sprintf_insert tableName in
  err ← DB_Exec db query date count;
  match err with
  | Some e =>
    log_Printf "Failed to insert data to MySQL: %s, error: %v"
               [LStr query; LErr e];;
    os_Exit 1
  | None => mret tt
  end;;
  log_Printf "Successfully inserted data into %s: date=%s, count=%d"
             [LStr tableName; LStr date; LInt count].

(** The part of [transferData] that runs with both handles open
    (main.go 66-129). *)
Definition transferBody (pgDb sqlDb : DB) : Proc unit :=
  now ← time_Now;
  let today := Time_Format_date now in
  AleoActiveMachineCount ← queryCount pgDb AleoActiveMachineQuery;
  insertToMySQL sqlDb "active_machines_count_aleo" today
                AleoActiveMachineCount;;
  QuaiActiveMachineCount ← queryCount pgDb QuaiActiveMachineQuery;
  insertToMySQL sqlDb "active_machines_count_quai_garden" today
                QuaiActiveMachineCount;;
  lostUsersCount ← queryCount pgDb lostUsersQuery;
  insertToMySQL sqlDb "lost_users_count" today lostUsersCount;;
  AleoActiveMachinesChannelCount ←
    queryCount pgDb AleoactiveMachinesChannelQuery;
  insertToMySQL sqlDb "active_channel_machines_count_aleo" today
                AleoActiveMachinesChannelCount;;
  QuaiActiveMachinesChannelCount ←
    queryCount pgDb QuaiActiveMachinesChannelQuery;
  insertToMySQL sqlDb "active_channel_machines_count_quai_garden" today
                QuaiActiveMachinesChannelCount;;
  log_Println "Data transfer completed.".

(** [transferData] (main.go 49-130) *)
Definition transferData (pgDsn mysqlDsn : string) : Proc unit :=
  log_Println "Starting data transfer...";;
  r ← sql_Open "postgres" pgDsn;
  match r with
  | inl err => log_Fatalf "Failed to connect to PostgreSQL: %v" [LErr err]
  | inr pgDb =>
    defer (DB_Close pgDb)
      (r ← sql_Open "mysql" mysqlDsn;
       match r with
       | inl err => log_Fatalf "Failed to connect to MySQL: %v" [LErr err]
       | inr sqlDb =>
         defer (DB_Close sqlDb) (transferBody pgDb sqlDb)
       end)
  end.

(** One turn of the [for] loop of [main] (main.go 31-39). *)
Definition loopBody (fl : Flags) : Proc unit :=
  now ← time_Now;
  let execution := dueTime now (executionTime fl) in
  d ← time_Until execution;
  time_Sleep d;;
  transferData (pgDsn fl) (mysqlDsn fl).

(** [n] turns of a loop that has no exit of its own: [Returned tt] says that
    the [n] turns are over and the loop is at its head again. *)
Fixpoint turns (n : nat) (body : Proc unit) : Proc unit :=
  match n with
  | O => mret tt
  | S n' => body;; turns n' body
  end.

(** [main] (main.go 21-41), observed for [n] turns of its loop. *)
Definition main (fl : Flags) (n : nat) : Proc unit :=
  (if String.eqb (pgDsn fl) "" || String.eqb (mysqlDsn fl) ""
   then log_Println "PostgreSQL DSN and MySQL DSN must be provided.";;
        flag_Usage;;
        os_Exit 1
   else mret tt);;
  turns n (loopBody fl).

(** ** The older variant of the program *)

Module Older.

Definition machineCountQuery : string :=
  "SELECT count(*) FROM machine m WHERE to_timestamp(m.last_commit_solution) >= DATE(NOW())".

Definition activeMachineCountQuery : string :=
  "SELECT count(*) FROM machine m WHERE to_timestamp(m.last_commit_solution) >= DATE(NOW())".

Definition lostUsersQuery : string :=
  rawLines [
    "WITH machine_activity AS (";
    "		SELECT ma.main_user_id, MAX(m.last_commit_solution) AS max_last_commit_solution";
    "		FROM miner_account ma";
    "		JOIN machine m ON m.miner_account_id = ma.id";
    "		GROUP BY ma.main_user_id";
    "	)";
    ("	SELECT COUNT(u.email) FROM public." ++ dq ++ "user" ++ dq ++ " u");
    "	LEFT JOIN machine_activity ma ON ma.main_user_id = u.id";
    "	WHERE ma.max_last_commit_solution IS NULL";
    "	OR to_timestamp(ma.max_last_commit_solution) < (DATE_TRUNC('day', NOW()) - INTERVAL '2 days')"
  ]%string.

Definition activeMachinesChannelQuery : string :=
  rawLines [
    "WITH select_user AS(";
    "		SELECT u.email, ma.id, ma.name";
    "		FROM miner_account ma";
    ("		LEFT JOIN " ++ dq ++ "public" ++ dq ++ "." ++ dq ++ "user" ++ dq ++ " u ON u.id = ma.main_user_id");
    ("		LEFT JOIN invitation_code ic ON ic." ++ dq ++ "id" ++ dq ++ " = u.invitation_code_id");
    "		WHERE ic.tag = 'zklion'";
    "	)";
    "	SELECT count(*) FROM machine m ";
    "	JOIN select_user su ON m.miner_account_id = su.id";
    "	WHERE to_timestamp(m.last_commit_solution) >= DATE(NOW())"
  ]%string.


(** [queryCount] (older variant, 96-103) *)
Definition queryCount (db : DB) (query : string) : Proc Z :=
  let count := 0 in
  '(err, count) ← QueryRow_Scan db query count;
  match err with
  | Some e => log_Fatalf "Failed to execute query: %v" [LErr e]
  | None => mret tt
  end;;
  mret count.

(** [insertToMySQL] (older variant, 105-111) *)
Definition insertToMySQL (db : DB) (tableName date : string) (count : Z)
  : Proc unit :=
  let query := Sprintf_insert tableName in
  err ← DB_Exec db query date count;
  match err with
  | Some e => log_Fatalf "Failed to insert data to MySQL: %v" [LErr e]
  | None => mret tt
  end.

Definition transferBody (pgDb sqlDb : DB) : Proc unit :=
  now ← time_Now;
  let today := Time_Format_date now in
  machineCount ← queryCount pgDb machineCountQuery;
  insertToMySQL sqlDb "machines_count" today machineCount;;
  activeMachineCount ← queryCount pgDb activeMachineCountQuery;
  insertToMySQL sqlDb "active_machines_count" today activeMachineCount;;
  lostUsersCount ← queryCount pgDb lostUsersQuery;
  insertToMySQL sqlDb "lost_users_count" today lostUsersCount;;
  activeMachinesChannelCount ← queryCount pgDb activeMachinesChannelQuery;
  insertToMySQL sqlDb "active_channel_machines_count" today
                activeMachinesChannelCount.

(** [transferData] (older variant, 42-94) *)
Definition transferData (pgDsn mysqlDsn : string) : Proc unit :=
  r ← sql_Open "postgres" pgDsn;
  match r with
  | inl err => log_Fatalf "Failed to connect to PostgreSQL: %v" [LErr err]
  | inr pgDb =>
    defer (DB_Close pgDb)
      (r ← sql_Open "mysql" mysqlDsn;
       match r with
       | inl err => log_Fatalf "Failed to connect to MySQL: %v" [LErr err]
       | inr sqlDb =>
         defer (DB_Close sqlDb) (transferBody pgDb sqlDb)
       end)
  end.

Definition loopBody (fl : Flags) : Proc unit :=
  now ← time_Now;
  let execution := dueTime now (executionTime fl) in
  d ← time_Until execution;
  time_Sleep d;;
  transferData (pgDsn fl) (mysqlDsn fl).

(** [main] (older variant, 20-34): no check of the flags. *)
Definition main (fl : Flags) (n : nat) : Proc unit :=
  turns n (loopBody fl).

End Older.

(** ** The run seen as a catalog of metrics *)

(** One metric: its count is read from the source and written to its
    destination table (a [queryCount] followed by an [insertToMySQL]). *)
Definition transferMetric (pgDb sqlDb : DB) (today : string)
    (metric : string * string) : Proc unit :=
  count ← queryCount pgDb metric.2;
  insertToMySQL sqlDb metric.1 today count.

Fixpoint transferAll (pgDb sqlDb : DB) (today : string)
    (metrics : list (string * string)) : Proc unit :=
  match metrics with
  | [] => mret tt
  | metric :: rest =>
    transferMetric pgDb sqlDb today metric;;
    transferAll pgDb sqlDb today rest
  end.

(** Destination table and source query of each metric of [transferData],
    in the order of the source text. *)
Definition catalog : list (string * string) :=
  [ ("active_machines_count_aleo", AleoActiveMachineQuery);
    ("active_machines_count_quai_garden", QuaiActiveMachineQuery);
    ("lost_users_count", lostUsersQuery);
    ("active_channel_machines_count_aleo", AleoactiveMachinesChannelQuery);
    ("active_channel_machines_count_quai_garden",
     QuaiActiveMachinesChannelQuery) ]%string.

(** ** Reading a trace *)

(** The events a process adds to the trace of [w]. *)
Definition newEvents {A : Type} (m : Proc A) (w : World) : list Event :=
  drop (length (w_trace w)) (w_trace (m w).2).

Definition queryFailed (answer : RowResult) : Prop :=
  (Scan_int answer 0).1 <> None.

(** An event that records a failure: a source answer that does not scan, a
    refused statement, or a log line that carries an error. *)
Definition isFailure (e : Event) : bool :=
  match e with
  | EvQuery _ _ answer =>
    match (Scan_int answer 0).1 with Some _ => true | None => false end
  | EvExec _ _ _ _ (Some _) => true
  | EvLog _ args =>
    existsb (fun a => match a with LErr _ => true | _ => false end) args
  | _ => false
  end.

(** The source query [q] was run. *)
Definition evaluated (q : string) (tr : list Event) : Prop :=
  exists db answer, EvQuery db q answer ∈ tr.

Definition evaluatedb (q : string) (tr : list Event) : bool :=
  existsb (fun e => match e with
                    | EvQuery _ q' _ => String.eqb q q'
                    | _ => false
                    end) tr.

(** The handles closed, in the order of their closing. *)
Definition closedHandles (tr : list Event) : list nat :=
  omap (fun e => match e with
                 | EvClose db => Some (db_id db)
                 | _ => None
                 end) tr.

Definition queryFailureLog (query : string) (e : SqlError) : Event :=
  EvLog "Failed to execute query: %s, error: %v" [LStr query; LErr e].

Definition insertFailureLog (tableName : string) (e : SqlError) : Event :=
  EvLog "Failed to insert data to MySQL: %s, error: %v"
        [LStr (Sprintf_insert tableName); LErr e].

Definition insertSuccessLog (tableName date : string) (count : Z) : Event :=
  EvLog "Successfully inserted data into %s: date=%s, count=%d"
        [LStr tableName; LStr date; LInt count].

(** What [transferData] logs first. *)
Definition startLog : Event := EvLog "Starting data transfer..." [].

(** What [main] logs when a data source name is missing. *)
Definition usageLog : Event :=
  EvLog "PostgreSQL DSN and MySQL DSN must be provided." [].

(** What kind of event, for reading traces at a glance. *)
Inductive Kind : Type :=
| KLog | KFailureLog | KUsage | KSleep | KOpen | KClose
| KQuery | KQueryFailed | KInsert | KInsertRefused.

Definition kind (e : Event) : Kind :=
  match e with
  | EvLog _ _ => if isFailure e then KFailureLog else KLog
  | EvUsage => KUsage
  | EvSleep _ => KSleep
  | EvOpen _ => KOpen
  | EvClose _ => KClose
  | EvQuery _ _ _ => if isFailure e then KQueryFailed else KQuery
  | EvExec _ _ _ _ _ => if isFailure e then KInsertRefused else KInsert
  end.

(** ** Reading the destination store *)

(** The primary key of every destination table holds: no date twice. *)
Definition keysUnique (d : gmap string (list (string * Z))) : Prop :=
  forall tbl rows, d !! tbl = Some rows -> NoDup rows.*1.

(** The rows of table [tbl] that carry [date]. *)
Definition rowsOf (d : gmap string (list (string * Z))) (tbl date : string)
  : list (string * Z) :=
  filter (fun r => r.1 = date) (default [] (d !! tbl)).

(** Tables are never dropped and the dates they hold only grow. *)
Definition rowsGrow (d d' : gmap string (list (string * Z))) : Prop :=
  forall t rows, d !! t = Some rows ->
    exists rows', d' !! t = Some rows' /\ rows.*1 ⊆ rows'.*1.

(** ** Specifications of processes *)

Definition exitCode {A : Type} (r : Outcome A) : option Z :=
  match r with
  | Returned _ => None
  | Exited code => Some code
  end.

(** A process satisfies the relation [S] when [S] relates every world it
    starts from to its exit status and the world it leaves. *)
Definition sat {A : Type} (S : World -> option Z -> World -> Prop)
    (m : Proc A) : Prop :=
  forall w, S w (exitCode (m w).1) (m w).2.

(** The trace only grows, and [Q] holds of the exit status and of the events
    added. *)
Definition traced (Q : option Z -> list Event -> Prop)
  : World -> option Z -> World -> Prop :=
  fun w status w' =>
    exists new, w_trace w' = w_trace w ++ new /\ Q status new.

Definition obeys (Q : option Z -> list Event -> Prop) {A : Type}
    (m : Proc A) : Prop :=
  sat (traced Q) m.

(** The relation [R] holds between the world a process starts from and the
    world it leaves, however it ends. *)
Definition preserves (R : World -> World -> Prop) {A : Type} (m : Proc A)
  : Prop :=
  sat (fun w _ w' => R w w') m.

(** *** Fail-fast runs *)

(** The last events of a run that ends the process. *)
Inductive failureTail : list Event -> Prop :=
| tail_query db q answer e count :
    Scan_int answer 0 = (Some e, count) ->
    failureTail [EvQuery db q answer; queryFailureLog q e]
| tail_insert db t date count e :
    failureTail [EvExec db (Sprintf_insert t) date count (Some e);
                 insertFailureLog t e]
| tail_open format e :
    failureTail [EvLog format [LErr e]].

(** Fail-fast runs: a process that returns has recorded no failure; one that
    ends the process does so with status 1, right after the first failure. *)
Definition failFast (status : option Z) (new : list Event) : Prop :=
  match status with
  | None => Forall (fun e => isFailure e = false) new
  | Some code =>
    code = 1 /\
    exists before tail,
      new = before ++ tail /\
      Forall (fun e => isFailure e = false) before /\ failureTail tail
  end.

(** *** The date of a run *)

(** Every statement executed carries the date [d]. *)
Definition datedWith (d : string) (e : Event) : Prop :=
  match e with
  | EvExec _ _ date _ _ => date = d
  | _ => True
  end.

(** The clock is not read, and every statement executed carries [d]. *)
Definition quiet (d : string) : World -> option Z -> World -> Prop :=
  fun w status w' =>
    w_clock w' = w_clock w /\ w_ticks w' = w_ticks w /\
    traced (fun _ new => Forall (datedWith d) new) w status w'.

(** The clock is read once at most, and every statement executed carries
    the date of the first reading the process could take. *)
Definition oneDate : World -> option Z -> World -> Prop :=
  fun w status w' =>
    w_clock w' = w_clock w /\
    (w_ticks w <= w_ticks w' <= S (w_ticks w))%nat /\
    traced (fun _ new =>
              Forall (datedWith (Time_Format_date (w_clock w (w_ticks w))))
                     new) w status w'.

(** *** The rows of the destination *)

(** Rows are only added, and the primary keys stay unique: a table that
    holds one row of a date keeps exactly that one. *)
Definition keysKept (w w' : World) : Prop :=
  keysUnique (w_dest w) ->
  keysUnique (w_dest w') /\
  forall tbl date,
    length (rowsOf (w_dest w) tbl date) = 1%nat ->
    length (rowsOf (w_dest w') tbl date) = 1%nat.

(** A statement refused for a duplicate key names a table of the store
    [d] that holds a row of its date. *)
Definition refusalJustified (d : gmap string (list (string * Z)))
    (e : Event) : Prop :=
  match e with
  | EvExec _ q date _ (Some ErrDuplicateKey) =>
    exists t rows, q = Sprintf_insert t /\ d !! t = Some rows /\ date ∈ rows.*1
  | _ => True
  end.

Definition refusalsJustified : World -> option Z -> World -> Prop :=
  fun w _ w' =>
    rowsGrow (w_dest w) (w_dest w') /\
    exists new,
      w_trace w' = w_trace w ++ new /\
      Forall (refusalJustified (w_dest w')) new.

(** *** The handles of a run *)

(** Every handle is older than the next one to be handed out. *)
Definition handlesFresh (w : World) : Prop :=
  forall i, i ∈ w_open w -> (i < w_next w)%nat.

(** The handles are left as they were found. *)
Definition handlesKept (w w' : World) : Prop :=
  w_open w' = w_open w /\ w_next w' = w_next w.

(** The world once [sql.Open] has handed out [db], and once [db] has been
    closed. *)
Definition opened (db : DB) (w : World) : World :=
  emit (EvOpen db) (with_open ({[ w_next w ]} ∪ w_open w) (S (w_next w)) w).

Definition closed (db : DB) (w : World) : World :=
  emit (EvClose db) (with_open (w_open w ∖ {[ db_id db ]}) (w_next w) w).

(** ** What the specification calls a valid execution time *)

Definition digitChar (d : Z) : ascii := ascii_of_N (Z.to_N (48 + d)).

Definition twoDigits (x : Z) : string :=
  String (digitChar (x / 10)) (String (digitChar (x mod 10)) EmptyString).

(** The text "HH:MM" of an hour and a minute. *)
Definition hhmm (h m : Z) : string :=
  (twoDigits h ++ ":" ++ twoDigits m)%string.

Definition inRange (hm : Z * Z) : Prop :=
  0 <= hm.1 <= 23 /\ 0 <= hm.2 <= 59.

Definition wellFormed (s : string) : Prop :=
  exists h m, inRange (h, m) /\ s = hhmm h m.

(** The instant at which the clock of [loc] reads [h]:[m]:00 on its day
    number [day] (days since 1970-01-01). *)
Definition atClock (day h m : Z) (loc : Location) : Time :=
  mkTime (day * nsPerDay + h * time_Hour + m * time_Minute
          - zoneOffset loc * time_Second) loc.

(** ** Sample worlds *)

Definition noon : Time := time_Date 2024 3 1 12 0 0 0 UTC.

Definition emptyTables : gmap string (list (string * Z)) :=
  list_to_map (map (fun metric => (metric.1, [])) catalog).

(** The clock stands at noon of 2024-03-01, every data source name is
    accepted, the destination tables exist and are empty. *)
Definition sampleWorld (source : nat -> string -> RowResult) : World :=
  mkWorld (fun _ => noon) 0 (fun _ _ => true) source 0 emptyTables ∅ 0 [].

Definition healthySource : nat -> string -> RowResult :=
  fun k _ => IntValue (7 + Z.of_nat k).

(** The second query of every run meets an empty result. *)
Definition secondQueryEmpty : nat -> string -> RowResult :=
  fun k _ => if (k =? 1)%nat then NoRow else IntValue 7.

Definition sampleFlags : Flags := mkFlags "23:00" "pg" "my".

(** The sample world after a first run that went through. *)
Definition afterFirstRun : World :=
  (transferData "pg" "my" (sampleWorld healthySource)).2.

(** The clock of this world moves on by eight hours from one reading to the
    next, so that successive runs fall on successive days. *)
Definition movingWorld (source : nat -> string -> RowResult) : World :=
  mkWorld (fun k => Time_Add noon (Z.of_nat k * (8 * time_Hour)))
          0 (fun _ _ => true) source 0 emptyTables ∅ 0 [].

(** In this world the driver of the destination refuses the data source
    name. *)
Definition mysqlRejected : World :=
  mkWorld (fun _ => noon) 0 (fun driver _ => String.eqb driver "postgres")
          healthySource 0 emptyTables ∅ 0 [].

(** The tables of the older variant, empty, under the same clock. *)
Definition olderTables : gmap string (list (string * Z)) :=
  list_to_map (map (fun t => (t, []))
                   [ "machines_count"; "active_machines_count";
                     "lost_users_count"; "active_channel_machines_count" ]%string).

Definition olderWorld (source : nat -> string -> RowResult) : World :=
  mkWorld (fun _ => noon) 0 (fun _ _ => true) source 0 olderTables ∅ 0 [].

(** ** What the specification says, as stated *)

(** The specification on malformed input: parsing must not pass off an
    out-of-range or all-zero pair as a result. *)
Definition malformedInputDiagnosed : Prop :=
  forall s, ~ wellFormed s ->
    inRange (parseExecutionTime s) /\ parseExecutionTime s <> (0, 0).

(** Isolation per metric: a failed source query does not keep the other
    metrics of the catalog from being evaluated in the same run. *)
Definition metricFailuresIsolated : Prop :=
  forall pgDsn mysqlDsn w,
    let new := newEvents (transferData pgDsn mysqlDsn) w in
    (exists db q answer, EvQuery db q answer ∈ new /\ queryFailed answer) ->
    forall metric, metric ∈ catalog -> evaluated metric.2 new.

(** A duplicate key is benign: the run that meets one goes on to its end. *)
Definition duplicateKeyBenign : Prop :=
  forall pgDsn mysqlDsn w db q date count,
    EvExec db q date count (Some ErrDuplicateKey)
      ∈ newEvents (transferData pgDsn mysqlDsn) w ->
    (transferData pgDsn mysqlDsn w).1 = Returned tt.

(** The scheduler never stops: whatever happens in a run, the loop is at its
    head again after it. *)
Definition schedulerNeverStops : Prop :=
  forall fl n w,
    pgDsn fl <> EmptyString -> mysqlDsn fl <> EmptyString ->
    (main fl n w).1 = Returned tt.

(** The older variant runs one query text for two metrics; the two tables
    are said to receive equal counts in every run that writes both. *)
Definition olderTwinCountsEqual : Prop :=
  forall pgDsn mysqlDsn w db1 d1 c1 db2 d2 c2,
    EvExec db1 (Sprintf_insert "machines_count") d1 c1 None
      ∈ newEvents (Older.transferData pgDsn mysqlDsn) w ->
    EvExec db2 (Sprintf_insert "active_machines_count") d2 c2 None
      ∈ newEvents (Older.transferData pgDsn mysqlDsn) w ->
    c1 = c2.

(** * More of the program *)

(** ** The pipeline over any catalog, for both variants *)

(** The world [w] with another trace. *)
Definition with_trace (tr : list Event) (w : World) : World :=
  mkWorld (w_clock w) (w_ticks w) (w_accepts w) (w_source w) (w_queries w)
          (w_dest w) (w_open w) (w_next w) tr.

(** The metrics of a catalog in order, each a count read and then written,
    with the variant's own [queryCount] and [insertToMySQL]. *)
Fixpoint transferAllWith (queryCount : DB -> string -> Proc Z)
    (insertToMySQL : DB -> string -> string -> Z -> Proc unit)
    (pgDb sqlDb : DB) (today : string) (metrics : list (string * string))
  : Proc unit :=
  match metrics with
  | [] => mret tt
  | metric :: rest =>
    (count ← queryCount pgDb metric.2;
     insertToMySQL sqlDb metric.1 today count);;
    transferAllWith queryCount insertToMySQL pgDb sqlDb today rest
  end.

(** Destination table and source query of each metric of the older
    variant, in the order of its source text. *)
Definition olderCatalog : list (string * string) :=
  [ ("machines_count", Older.machineCountQuery);
    ("active_machines_count", Older.activeMachineCountQuery);
    ("lost_users_count", Older.lostUsersQuery);
    ("active_channel_machines_count", Older.activeMachinesChannelQuery)
  ]%string.

(** What the [i]-th metric of a run needs from the world the run starts in:
    the source answers its query, the [i]-th of the run, with the integer
    [n], and its table exists, with the rows [rows], none of the date. *)
Definition feeds (today : string) (w : World) (i : nat)
    (metric : string * string) (n : Z) (rows : list (string * Z)) : Prop :=
  w_source w (w_queries w + i)%nat metric.2 = IntValue n /\
  minInt64 <= n <= maxInt64 /\
  w_dest w !! metric.1 = Some rows /\
  today ∉ rows.*1.

(** The store [d'] holds what [d] held, in the same order, and more rows
    only in tables that existed and are among [names]. *)
Definition storeGrows (names : list string)
    (d d' : gmap string (list (string * Z))) : Prop :=
  forall t,
    match d !! t with
    | None => d' !! t = None
    | Some rows =>
      exists extra, d' !! t = Some (rows ++ extra) /\ (t ∉ names -> extra = [])
    end.

(** ** The events of a run that returns *)

(** What one metric adds to the trace when its count [n] is read and
    stored. *)
Definition metricEvents (pgDb sqlDb : DB) (today : string)
    (metric : string * string) (n : Z) : list Event :=
  [ EvQuery pgDb metric.2 (IntValue n);
    EvExec sqlDb (Sprintf_insert metric.1) today n None;
    insertSuccessLog metric.1 today n ].

(** What [transferData] logs last. *)
Definition completedLog : Event := EvLog "Data transfer completed." [].

(** The source answers the queries of [metrics], from the next query on,
    with the integers [counts]. *)
Definition answered (w : World) (metrics : list (string * string))
    (counts : list Z) : Prop :=
  length counts = length metrics /\
  forall i metric n,
    metrics !! i = Some metric -> counts !! i = Some n ->
    w_source w (w_queries w + i)%nat metric.2 = IntValue n.

(** ** Decimal texts, as [parseExecutionTime] reads them *)

(** The text of the decimal digits [ds], most significant first, and the
    number they denote. *)
Definition digitsText (ds : list Z) : string :=
  fold_right (fun d s => String (digitChar d) s) EmptyString ds.

Definition decimalValue (ds : list Z) : Z :=
  fold_left (fun acc d => acc * 10 + d) ds 0.

Definition isDecimal (ds : list Z) : Prop :=
  ds <> [] /\ Forall (fun d => 0 <= d <= 9) ds.

(** A text at which a number stops: it is empty or its first byte is not a
    decimal digit. *)
Definition stopsNumber (rest : string) : Prop :=
  match rest with
  | EmptyString => True
  | String a _ => isDigit (Z.of_N (N_of_ascii a)) = false
  end.

(** The runes ahead do not start with a digit. *)
Definition noDigitAhead (l : list rune) : Prop :=
  match l with
  | [] => True
  | r :: _ => isDigit r = false
  end.

(** ** A turn of the loop *)

(** The world in which a turn of the loop starts its run: the clock was
    read twice, for the due time and for the time left until then, and the
    process has slept. *)
Definition waited (fl : Flags) (w : World) : World :=
  emit (EvSleep (Time_Sub (dueTime (w_clock w (w_ticks w)) (executionTime fl))
                          (w_clock w (S (w_ticks w)))))
       (tick (tick w)).

(** [storeGrows] as a relation between the world a process starts in and
    the world it leaves, whatever its exit status. *)
Definition appendsOnly (names : list string)
  : World -> option Z -> World -> Prop :=
  fun w _ w' => storeGrows names (w_dest w) (w_dest w').

(** ** Fail-fast in the older variant *)

(** The last events of a run of the older variant that ends the process:
    its log lines carry the error alone. *)
Inductive olderFailureTail : list Event -> Prop :=
| older_tail_query db q answer e count :
    Scan_int answer 0 = (Some e, count) ->
    olderFailureTail [EvQuery db q answer;
                      EvLog "Failed to execute query: %v" [LErr e]]
| older_tail_insert db t date count e :
    olderFailureTail [EvExec db (Sprintf_insert t) date count (Some e);
                      EvLog "Failed to insert data to MySQL: %v" [LErr e]]
| older_tail_open format e :
    olderFailureTail [EvLog format [LErr e]].

Definition olderFailFast (status : option Z) (new : list Event) : Prop :=
  match status with
  | None => Forall (fun e => isFailure e = false) new
  | Some code =>
    code = 1 /\
    exists before tail,
      new = before ++ tail /\
      Forall (fun e => isFailure e = false) before /\ olderFailureTail tail
  end.

(** ** The tables the source text documents (main.go 152-172) *)

(** The tables created by the statements in the closing comment of
    main.go, each with the columns [date] (the primary key) and [count]. *)
Definition documentedTables : list string :=
  [ "active_machines_count"; "lost_users_count";
    "active_channel_machines_count" ]%string.

(** A store set up from those statements holds no other table. *)
Definition asDocumented (d : gmap string (list (string * Z))) : Prop :=
  forall t, is_Some (d !! t) -> t ∈ documentedTables.

Definition documentedWorld (source : nat -> string -> RowResult) : World :=
  mkWorld (fun _ => noon) 0 (fun _ _ => true) source 0
          (list_to_map (map (fun t => (t, [])) documentedTables)) ∅ 0 [].

(** ** String literals in the text of a query *)

(** Where a reader of SQL stands in a text: outside any quotation, inside a
    string literal (single quotes) or inside a quoted identifier (double
    quotes). *)
Inductive LexState : Type := Plain | InLiteral | InIdentifier.

Definition lexStep (st : LexState) (a : ascii) : LexState :=
  match st with
  | Plain =>
    if Ascii.eqb a "'" then InLiteral
    else if Ascii.eqb a (ascii_of_nat 34) then InIdentifier
    else Plain
  | InLiteral => if Ascii.eqb a "'" then Plain else InLiteral
  | InIdentifier =>
    if Ascii.eqb a (ascii_of_nat 34) then Plain else InIdentifier
  end.

Fixpoint lexFrom (st : LexState) (s : string) : LexState :=
  match s with
  | EmptyString => st
  | String a s' => lexFrom (lexStep st a) s'
  end.

(** The text ends inside a quotation that it never closes. *)
Definition leftOpen (q : string) : bool :=
  match lexFrom Plain q with
  | Plain => false
  | _ => true
  end.

(** A source that fails every statement whose text leaves a quotation
    open, as a server that parses the statement does. *)
Definition refusesOpenText (w : World) : Prop :=
  forall k q, leftOpen q = true -> queryFailed (w_source w k q).

Definition parsingSource : nat -> string -> RowResult :=
  fun _ q => if leftOpen q then QueryFails else IntValue 7.

(** ** Reading a date key back *)

(** The number a text of decimal digits denotes, read from the left with
    [acc] for the digits already read. *)
Definition readFrom (acc : Z) (s : string) : Z :=
  fold_left (fun acc a => acc * 10 + (Z.of_N (N_of_ascii a) - 48))
            (list_ascii_of_string s) acc.

Definition readInt (s : string) : Z := readFrom 0 s.

(** * Properties *)

(** ** The calendar *)

Module CalendarFacts.
Import Calendar.

Lemma era_day_bounds z :
  0 <= (z + epochShift) - (z + epochShift) / daysPerEra * daysPerEra
    < daysPerEra.
Proof. unfold daysPerEra. Z.div_mod_to_equations. lia. Qed.

Lemma yearOfEra_bounds doe :
  0 <= doe < daysPerEra ->
  0 <= yearOfEra doe <= 399 /\
  0 <= doe - (365 * yearOfEra doe + yearOfEra doe / 4 - yearOfEra doe / 100)
    <= 365.
Proof.
  unfold daysPerEra, yearOfEra. intros H.
  Z.div_mod_to_equations. lia.
Qed.

Lemma month_index_bounds doy :
  0 <= doy <= 365 ->
  0 <= (5 * doy + 2) / 153 <= 11 /\
  1 <= doy - (153 * ((5 * doy + 2) / 153) + 2) / 5 + 1 <= 31.
Proof. intros H. Z.div_mod_to_equations. lia. Qed.

Lemma era_of_year yoe era :
  0 <= yoe <= 399 -> (yoe + era * 400) / 400 = era.
Proof. intros H. Z.div_mod_to_equations. lia. Qed.

(** [time.Date(t.Year(), t.Month(), t.Day(), ...)] lands on the day of
    [t]: the two conversions are inverse on every day number. *)
Lemma days_of_civil_from_days z : days_of (civil_from_days z) = z.
Proof.
  unfold days_of, civil_from_days, days_from_civil, dayOfYear, dayOfEra.
  cbn [c_year c_month c_day].
  pose proof (era_day_bounds z) as Hdoe.
  set (era := (z + epochShift) / daysPerEra) in *.
  set (doe := z + epochShift - era * daysPerEra) in *.
  destruct (yearOfEra_bounds doe Hdoe) as [Hyoe Hdoy].
  set (yoe := yearOfEra doe) in *.
  set (doy := doe - (365 * yoe + yoe / 4 - yoe / 100)) in *.
  destruct (month_index_bounds doy Hdoy) as [Hmp Hd].
  set (mp := (5 * doy + 2) / 153) in *.
  set (m := if mp <? 10 then mp + 3 else mp - 9).
  assert (Hm : (m <=? 2) = negb (mp <? 10)).
  { subst m. destruct (Z.ltb_spec mp 10); cbn [negb]; lia. }
  assert (Hy : (if m <=? 2
                then (if m <=? 2 then yoe + era * 400 + 1
                      else yoe + era * 400) - 1
                else (if m <=? 2 then yoe + era * 400 + 1
                      else yoe + era * 400)) = yoe + era * 400).
  { destruct (m <=? 2); lia. }
  rewrite Hy, (era_of_year yoe era Hyoe).
  assert (Hmp' : (if 2 <? m then m - 3 else m + 9) = mp).
  { subst m. destruct (Z.ltb_spec mp 10).
    - destruct (Z.ltb_spec 2 (mp + 3)); lia.
    - destruct (Z.ltb_spec 2 (mp - 9)); lia. }
  rewrite Hmp'.
  replace (yoe + era * 400 - era * 400) with yoe by lia.
  subst doy doe. lia.
Qed.

Lemma civil_from_days_range z :
  1 <= c_month (civil_from_days z) <= 12 /\
  1 <= c_day (civil_from_days z) <= 31.
Proof.
  unfold civil_from_days. cbn [c_month c_day].
  pose proof (era_day_bounds z) as Hdoe.
  set (era := (z + epochShift) / daysPerEra) in *.
  set (doe := z + epochShift - era * daysPerEra) in *.
  destruct (yearOfEra_bounds doe Hdoe) as [_ Hdoy].
  set (yoe := yearOfEra doe) in *.
  set (doy := doe - (365 * yoe + yoe / 4 - yoe / 100)) in *.
  destruct (month_index_bounds doy Hdoy) as [Hmp Hd].
  set (mp := (5 * doy + 2) / 153) in *.
  split; [|exact Hd].
  destruct (Z.ltb_spec mp 10); lia.
Qed.

End CalendarFacts.

(** ** The library model on examples *)

Example format_epoch :
  Time_Format_date (mkTime 0 UTC) = "1970-01-01"%string.
Proof. vm_compute. reflexivity. Qed.

Example format_leap_day :
  Time_Format_date (time_Date 2024 2 29 23 0 0 0 UTC) = "2024-02-29"%string.
Proof. vm_compute. reflexivity. Qed.

Example format_zone :
  Time_Format_date (mkTime (1709251200 * time_Second - 1) (mkLocation 3600))
  = "2024-03-01"%string
  /\ Time_Format_date (mkTime (1709251200 * time_Second - 1) UTC)
     = "2024-02-29"%string.
Proof. vm_compute. split; reflexivity. Qed.

Example date_normalises :
  time_Date 2023 14 31 25 61 0 0 UTC = time_Date 2024 3 3 2 1 0 0 UTC.
Proof. vm_compute. reflexivity. Qed.

Example runes_ascii : runes "23:00" = [50; 51; 58; 48; 48].
Proof. reflexivity. Qed.

(** U+00A0 (no-break space) is the two bytes C2 A0. *)
Example runes_nbsp :
  runes (String (ascii_of_nat 194) (String (ascii_of_nat 160) "7")) = [160; 55].
Proof. reflexivity. Qed.

Example parse_default : parseExecutionTime "23:00" = (23, 0).
Proof. reflexivity. Qed.

Example parse_letters : parseExecutionTime "abc" = (0, 0).
Proof. reflexivity. Qed.

Example parse_out_of_range : parseExecutionTime "25:99" = (25, 99).
Proof. reflexivity. Qed.

Example parse_half : parseExecutionTime "12:" = (12, 0).
Proof. reflexivity. Qed.

Example parse_spaces : parseExecutionTime " 7: +5 pm" = (7, 5).
Proof. reflexivity. Qed.

Example parse_overflow :
  parseExecutionTime "9223372036854775808:30" = (0, 0).
Proof. reflexivity. Qed.

(** ** The parser on valid and on malformed input *)

Lemma parse_hhmm_table :
  Forall (fun h => Forall (fun m => parseExecutionTime (hhmm h m) = (h, m))
                          (seqZ 0 60)) (seqZ 0 24).
Proof. apply (bool_decide_unpack _). vm_compute. exact I. Qed.

Lemma parse_hhmm_errors :
  Forall (fun h => Forall (fun m => sc_err (Sscanf_d_colon_d (hhmm h m) 0 0)
                                    = None)
                          (seqZ 0 60)) (seqZ 0 24).
Proof. apply (bool_decide_unpack _). vm_compute. exact I. Qed.

Lemma parse_hhmm h m :
  0 <= h <= 23 -> 0 <= m <= 59 -> parseExecutionTime (hhmm h m) = (h, m).
Proof.
  intros Hh Hm.
  pose proof parse_hhmm_table as T.
  rewrite Forall_forall in T.
  specialize (T h). rewrite elem_of_seqZ in T.
  specialize (T ltac:(lia)). rewrite Forall_forall in T.
  apply T. rewrite elem_of_seqZ. lia.
Qed.

Lemma hhmm_length h m : String.length (hhmm h m) = 5%nat.
Proof. reflexivity. Qed.

Lemma wellFormed_length s : wellFormed s -> String.length s = 5%nat.
Proof. intros (h & m & _ & ->). apply hhmm_length. Qed.

Lemma wellFormed_parse s : wellFormed s -> inRange (parseExecutionTime s).
Proof.
  intros (h & m & [Hh Hm] & ->). cbn [fst snd] in Hh, Hm.
  rewrite parse_hhmm by assumption. split; assumption.
Qed.



(** ** The due time *)

Lemma localDay_bounds t :
  localDay t * nsPerDay <= localNano t < localDay t * nsPerDay + nsPerDay.
Proof.
  unfold localDay. generalize (localNano t). intros x.
  change nsPerDay with 86400000000000.
  Z.div_mod_to_equations. lia.
Qed.

Lemma time_Date_of_civil c h m s ns loc :
  1 <= Calendar.c_month c <= 12 ->
  time_Date (Calendar.c_year c) (Calendar.c_month c) (Calendar.c_day c)
            h m s ns loc
  = mkTime (Calendar.days_of c * nsPerDay + h * time_Hour
            + m * time_Minute + s * time_Second + ns
            - zoneOffset loc * time_Second) loc.
Proof.
  destruct c as [y mo d]. cbn [Calendar.c_year Calendar.c_month Calendar.c_day].
  intros Hmo. unfold time_Date, Calendar.days_of.
  cbn [Calendar.c_year Calendar.c_month Calendar.c_day].
  assert (H0 : (mo - 1) / 12 = 0) by (Z.div_mod_to_equations; lia).
  assert (H1 : (mo - 1) mod 12 + 1 = mo) by (Z.div_mod_to_equations; lia).
  rewrite H0, H1, Z.add_0_r. reflexivity.
Qed.

(** [time.Date] applied to the year, month and day of [t] starts from the
    local midnight of [t]. *)
Lemma time_Date_same_day t h m s ns loc :
  time_Date (Time_Year t) (Time_Month t) (Time_Day t) h m s ns loc
  = mkTime (localDay t * nsPerDay + h * time_Hour + m * time_Minute
            + s * time_Second + ns - zoneOffset loc * time_Second) loc.
Proof.
  unfold Time_Year, Time_Month, Time_Day.
  rewrite time_Date_of_civil
    by apply (CalendarFacts.civil_from_days_range (localDay t)).
  unfold Time_civil.
  rewrite CalendarFacts.days_of_civil_from_days. reflexivity.
Qed.

(** The clock of [atClock day h m loc] reads what its name says. *)
Lemma atClock_reads day h m loc :
  0 <= h <= 23 -> 0 <= m <= 59 ->
  let t := atClock day h m loc in
  localDay t = day /\ Time_civil t = Calendar.civil_from_days day /\
  Time_Hour t = h /\ Time_Minute t = m /\
  Time_Second t = 0 /\ Time_Nanosecond t = 0 /\ Time_Location t = loc.
Proof.
  intros Hh Hm t.
  assert (Hl : localNano t = day * nsPerDay + h * time_Hour + m * time_Minute).
  { unfold t, atClock, localNano. cbn [unixNano Time_Location]. lia. }
  assert (Hd : localDay t = day).
  { unfold localDay. rewrite Hl.
    change nsPerDay with 86400000000000.
    change time_Hour with 3600000000000.
    change time_Minute with 60000000000.
    Z.div_mod_to_equations. lia. }
  split; [exact Hd|]. split; [unfold Time_civil; now rewrite Hd|].
  unfold Time_Hour, Time_Minute, Time_Second, Time_Nanosecond. rewrite Hl.
  change nsPerDay with 86400000000000.
  change time_Hour with 3600000000000.
  change time_Minute with 60000000000.
  change time_Second with 1000000000.
  repeat split; try (Z.div_mod_to_equations; lia).
Qed.

Lemma dueTime_hhmm now h m :
  0 <= h <= 23 -> 0 <= m <= 59 ->
  let today := atClock (localDay now) h m (Time_Location now) in
  dueTime now (hhmm h m)
  = if Time_After now today
    then atClock (localDay now + 1) h m (Time_Location now)
    else today.
Proof.
  intros Hh Hm today. unfold dueTime.
  rewrite (parse_hhmm h m Hh Hm), time_Date_same_day.
  replace (mkTime _ _) with today
    by (unfold today, atClock; f_equal; lia).
  destruct (Time_After now today); [|reflexivity].
  unfold Time_Add, today, atClock. cbn [unixNano Time_Location].
  f_equal. unfold nsPerDay. lia.
Qed.



(** The scenario of the specification: with "23:00", at 22:00 the run is due
    today at 23:00, at 23:30 it is due tomorrow at 23:00. *)
Example due_at_2200 :
  dueTime (time_Date 2024 3 1 22 0 0 0 UTC) "23:00"
  = time_Date 2024 3 1 23 0 0 0 UTC.
Proof. vm_compute. reflexivity. Qed.

Example due_at_2330 :
  dueTime (time_Date 2024 3 1 23 30 0 0 UTC) "23:00"
  = time_Date 2024 3 2 23 0 0 0 UTC.
Proof. vm_compute. reflexivity. Qed.

Example due_at_2300_sharp :
  dueTime (time_Date 2024 3 1 23 0 0 0 UTC) "23:00"
  = time_Date 2024 3 1 23 0 0 0 UTC.
Proof. vm_compute. reflexivity. Qed.

(** ** Running processes *)

Lemma bind_run {A B : Type} (m : Proc A) (f : A -> Proc B) w :
  (m ≫= f) w
  = match m w with
    | (Returned a, w') => f a w'
    | (Exited code, w') => (Exited code, w')
    end.
Proof. reflexivity. Qed.

Lemma ret_bind {A B : Type} (a : A) (f : A -> Proc B) w :
  (mret a ≫= f) w = f a w.
Proof. reflexivity. Qed.

Lemma bind_ret {A : Type} (m : Proc A) w : (m ≫= mret) w = m w.
Proof. rewrite bind_run. destruct (m w) as [[a|code] w']; reflexivity. Qed.

Lemma bind_assoc {A B C : Type} (m : Proc A) (f : A -> Proc B)
    (g : B -> Proc C) w :
  ((m ≫= f) ≫= g) w = (m ≫= (fun a => f a ≫= g)) w.
Proof. rewrite !bind_run. destruct (m w) as [[a|code] w']; reflexivity. Qed.

Lemma turns_succ n body w :
  turns (S n) body w
  = match body w with
    | (Returned _, w') => turns n body w'
    | (Exited code, w') => (Exited code, w')
    end.
Proof. reflexivity. Qed.

(** *** The statement text and the table it names *)

Lemma string_length_app (s t : string) :
  String.length (s ++ t) = (String.length s + String.length t)%nat.
Proof.
  induction s as [|a s IH]; [reflexivity|].
  change (S (String.length (s ++ t)) = S (String.length s + String.length t)).
  now f_equal.
Qed.

Lemma stripPrefix_app p s : stripPrefix p (p ++ s) = Some s.
Proof.
  induction p as [|a p IH].
  - now destruct s.
  - change (stripPrefix (String a p) (String a (p ++ s)) = Some s).
    cbn [stripPrefix]. now rewrite Ascii.eqb_refl.
Qed.

Lemma stripSuffix_app suf t : stripSuffix suf (t ++ suf) = Some t.
Proof.
  induction t as [|a t IH].
  - change (stripSuffix suf suf = Some EmptyString).
    destruct suf as [|b suf]; cbn [stripSuffix];
      now rewrite String.eqb_refl.
  - change (stripSuffix suf (String a (t ++ suf)) = Some (String a t)).
    cbn [stripSuffix].
    destruct (String.eqb_spec (String a (t ++ suf)) suf) as [E|_].
    + apply (f_equal String.length) in E.
      change (S (String.length (t ++ suf)) = String.length suf) in E.
      rewrite string_length_app in E. lia.
    + rewrite IH. reflexivity.
Qed.

Lemma insertTarget_Sprintf t : insertTarget (Sprintf_insert t) = Some t.
Proof.
  unfold insertTarget, Sprintf_insert.
  rewrite stripPrefix_app. cbn [mbind option_bind].
  apply stripSuffix_app.
Qed.

Lemma execInsert_Sprintf t date count d :
  execInsert (Sprintf_insert t) date count d = insertRow t date count d.
Proof. unfold execInsert. now rewrite insertTarget_Sprintf. Qed.

(** *** [queryCount] and [insertToMySQL], step by step *)

Lemma queryCount_run db q w :
  queryCount db q w
  = let answer := w_source w (w_queries w) q in
    let w1 := emit (EvQuery db q answer) (asked w) in
    match Scan_int answer 0 with
    | (Some e, _) => (Exited 1, emit (queryFailureLog q e) w1)
    | (None, count) => (Returned count, w1)
    end.
Proof.
  unfold queryCount. rewrite bind_run. unfold QueryRow_Scan.
  cbv zeta. destruct (Scan_int _ 0) as [[e|] count]; reflexivity.
Qed.

Lemma insertToMySQL_run db t date count w :
  insertToMySQL db t date count w
  = let q := Sprintf_insert t in
    match insertRow t date count (w_dest w) with
    | inl e =>
      (Exited 1,
       emit (insertFailureLog t e) (emit (EvExec db q date count (Some e)) w))
    | inr d =>
      (Returned tt,
       emit (insertSuccessLog t date count)
            (emit (EvExec db q date count None) (with_dest d w)))
    end.
Proof.
  unfold insertToMySQL. cbv zeta. rewrite bind_run. unfold DB_Exec.
  rewrite execInsert_Sprintf.
  destruct (insertRow t date count (w_dest w)) as [e|d]; reflexivity.
Qed.

(** [transferData] runs the catalog in order, under one date. *)
Lemma transferBody_catalog pgDb sqlDb w :
  transferBody pgDb sqlDb w
  = (now ← time_Now;
     transferAll pgDb sqlDb (Time_Format_date now) catalog;;
     log_Println "Data transfer completed.") w.
Proof.
  unfold transferBody, catalog. cbn [transferAll].
  unfold transferMetric. cbn [fst snd].
  rewrite !bind_run. destruct (time_Now w) as [[now|code] w0]; [|reflexivity].
  repeat (rewrite !bind_run;
          match goal with
          | |- context [match ?m ?x with _ => _ end] =>
            lazymatch m with
            | queryCount _ _ => destruct (m x) as [[?|?] ?]; [|reflexivity]
            | insertToMySQL _ _ _ _ =>
              destruct (m x) as [[?|?] ?]; [|reflexivity]
            end
          end).
  reflexivity.
Qed.

(** ** Composing specifications of processes *)

Lemma newEvents_traced {A : Type} (m : Proc A) w new :
  w_trace (m w).2 = w_trace w ++ new -> newEvents m w = new.
Proof. intros H. unfold newEvents. rewrite H. apply drop_app_length. Qed.

Lemma sat_ret {A : Type} (S : World -> option Z -> World -> Prop) (a : A) :
  (forall w, S w None w) -> sat S (mret a).
Proof. intros H w. apply H. Qed.

(** Sequencing: [S1] for the first process, [S2] for what follows, and [S3]
    for the whole when the two compose into it. *)
Lemma sat_bind {A B : Type} (S1 S2 S3 : World -> option Z -> World -> Prop)
    (m : Proc A) (f : A -> Proc B) :
  sat S1 m -> (forall a, sat S2 (f a)) ->
  (forall w w1 w2 s, S1 w None w1 -> S2 w1 s w2 -> S3 w s w2) ->
  (forall w code w1, S1 w (Some code) w1 -> S3 w (Some code) w1) ->
  sat S3 (m ≫= f).
Proof.
  intros Hm Hf Hseq Hexit w. specialize (Hm w). rewrite bind_run.
  destruct (m w) as [[a|code] w1]; cbn [fst snd exitCode] in *.
  - apply (Hseq w w1 _ _ Hm (Hf a w1)).
  - apply Hexit, Hm.
Qed.

Section Composable.

(** A relation that holds of a process doing nothing and composes with
    itself: it then passes through [bind], [defer] and loops. *)
Variable S : World -> option Z -> World -> Prop.
Hypothesis S_refl : forall w, S w None w.
Hypothesis S_trans :
  forall w w1 w2 s, S w None w1 -> S w1 s w2 -> S w s w2.

Lemma sat_seq {A B : Type} (m : Proc A) (f : A -> Proc B) :
  sat S m -> (forall a, sat S (f a)) -> sat S (m ≫= f).
Proof.
  intros Hm Hf. apply (sat_bind S S S m f Hm Hf S_trans). auto.
Qed.

Lemma sat_defer {A B : Type} (d : Proc B) (body : Proc A) :
  sat S d -> sat S body -> sat S (defer d body).
Proof.
  intros Hd Hb. unfold defer. apply sat_seq; [exact Hb|]. intros a.
  apply sat_seq; [exact Hd|]. intros _. apply sat_ret, S_refl.
Qed.

Lemma sat_turns n body : sat S body -> sat S (turns n body).
Proof.
  intros Hb. induction n as [|n IH]; cbn [turns].
  - apply sat_ret, S_refl.
  - apply sat_seq; [exact Hb|]. intros _. exact IH.
Qed.

End Composable.

(** Relations on traces compose when [Q] does. *)
Lemma traced_refl (Q : option Z -> list Event -> Prop) :
  Q None [] -> forall w, traced Q w None w.
Proof. intros H w. exists []. now rewrite app_nil_r. Qed.

Lemma traced_trans (Q : option Z -> list Event -> Prop) :
  (forall s new1 new2, Q None new1 -> Q s new2 -> Q s (new1 ++ new2)) ->
  forall w w1 w2 s, traced Q w None w1 -> traced Q w1 s w2 -> traced Q w s w2.
Proof.
  intros H w w1 w2 s (n1 & E1 & Q1) (n2 & E2 & Q2).
  exists (n1 ++ n2). rewrite E2, E1, app_assoc. split; [reflexivity|].
  now apply H.
Qed.

Lemma sat_emit (Q : option Z -> list Event -> Prop) (e : Event) :
  Q None [e] -> forall w, traced Q w None (emit e w).
Proof. intros H w. exists [e]. split; [reflexivity|exact H]. Qed.

(** ** Fail-fast: the first failure ends the process *)

Lemma failFast_nil : failFast None [].
Proof. constructor. Qed.

Lemma failFast_app s new1 new2 :
  failFast None new1 -> failFast s new2 -> failFast s (new1 ++ new2).
Proof.
  intros H1 H2. destruct s as [code|]; cbn [failFast] in *.
  - destruct H2 as (-> & before & tl & -> & Hb & Ht). split; [reflexivity|].
    exists (new1 ++ before), tl. rewrite app_assoc.
    split; [reflexivity|]. split; [|exact Ht].
    apply Forall_app; split; assumption.
  - apply Forall_app; split; assumption.
Qed.

Lemma ff_seq {A B : Type} (m : Proc A) (f : A -> Proc B) :
  obeys failFast m -> (forall a, obeys failFast (f a)) ->
  obeys failFast (m ≫= f).
Proof.
  exact (sat_seq (traced failFast) (traced_trans _ failFast_app) m f).
Qed.

Lemma ff_ret {A : Type} (a : A) : obeys failFast (mret a).
Proof. apply sat_ret, traced_refl, failFast_nil. Qed.

Lemma ff_defer {A B : Type} (d : Proc B) (body : Proc A) :
  obeys failFast d -> obeys failFast body -> obeys failFast (defer d body).
Proof.
  exact (sat_defer (traced failFast) (traced_refl _ failFast_nil)
                   (traced_trans _ failFast_app) d body).
Qed.

Lemma ff_turns n body :
  obeys failFast body -> obeys failFast (turns n body).
Proof.
  exact (sat_turns (traced failFast) (traced_refl _ failFast_nil)
                   (traced_trans _ failFast_app) n body).
Qed.

Lemma ff_one_event (e : Event) :
  isFailure e = false -> failFast None [e].
Proof. intros H. cbn [failFast]. repeat constructor. exact H. Qed.

Lemma ff_Println msg : obeys failFast (log_Println msg).
Proof. intros w. apply sat_emit, ff_one_event. reflexivity. Qed.

Lemma ff_Now : obeys failFast time_Now.
Proof.
  intros w. exists []. split; [cbn; now rewrite app_nil_r|constructor].
Qed.

Lemma ff_Until t : obeys failFast (time_Until t).
Proof.
  unfold time_Until. apply ff_seq; [apply ff_Now|]. intros now. apply ff_ret.
Qed.

Lemma ff_Sleep d : obeys failFast (time_Sleep d).
Proof. intros w. apply sat_emit, ff_one_event. reflexivity. Qed.

Lemma ff_Open driver dsn : obeys failFast (sql_Open driver dsn).
Proof.
  intros w. unfold sql_Open. destruct (w_accepts w driver dsn).
  - eexists [_]. split; [reflexivity|]. apply ff_one_event. reflexivity.
  - apply traced_refl, failFast_nil.
Qed.

Lemma ff_Close db : obeys failFast (DB_Close db).
Proof.
  intros w. eexists [_]. split; [reflexivity|].
  apply ff_one_event. reflexivity.
Qed.

Lemma ff_Fatalf {A : Type} format e :
  obeys failFast (@log_Fatalf A format [LErr e]).
Proof.
  intros w. exists [EvLog format [LErr e]]. split; [reflexivity|].
  split; [reflexivity|]. exists [], [EvLog format [LErr e]].
  repeat split; constructor.
Qed.

Lemma ff_queryCount db q : obeys failFast (queryCount db q).
Proof.
  intros w. rewrite queryCount_run. cbv zeta.
  destruct (Scan_int (w_source w (w_queries w) q) 0) as [[e|] count] eqn:E.
  - exists [EvQuery db q (w_source w (w_queries w) q); queryFailureLog q e].
    split; [cbn; now rewrite <- app_assoc|].
    split; [reflexivity|]. eexists [], _. split; [reflexivity|].
    split; [constructor|]. econstructor. exact E.
  - exists [EvQuery db q (w_source w (w_queries w) q)].
    split; [reflexivity|]. apply ff_one_event. cbn [isFailure]. now rewrite E.
Qed.

Lemma ff_insertToMySQL db t date count :
  obeys failFast (insertToMySQL db t date count).
Proof.
  intros w. rewrite insertToMySQL_run. cbv zeta.
  destruct (insertRow t date count (w_dest w)) as [e|d].
  - eexists [_; _]. split; [cbn; now rewrite <- app_assoc|].
    split; [reflexivity|]. eexists [], _. split; [reflexivity|].
    split; constructor.
  - eexists [_; _]. split; [cbn; now rewrite <- app_assoc|].
    repeat constructor.
Qed.

Lemma ff_transferBody pgDb sqlDb : obeys failFast (transferBody pgDb sqlDb).
Proof.
  unfold transferBody.
  repeat first
    [ apply ff_queryCount | apply ff_insertToMySQL | apply ff_Println
    | apply ff_Now | apply ff_seq; [|intros ?; cbv zeta] ].
Qed.

Lemma ff_transferData pgDsn mysqlDsn :
  obeys failFast (transferData pgDsn mysqlDsn).
Proof.
  unfold transferData.
  apply ff_seq; [apply ff_Println|]. intros _.
  apply ff_seq; [apply ff_Open|]. intros [err|pgDb]; [apply ff_Fatalf|].
  apply ff_defer; [apply ff_Close|].
  apply ff_seq; [apply ff_Open|]. intros [err|sqlDb]; [apply ff_Fatalf|].
  apply ff_defer; [apply ff_Close|apply ff_transferBody].
Qed.

Lemma ff_loopBody fl : obeys failFast (loopBody fl).
Proof.
  unfold loopBody.
  apply ff_seq; [apply ff_Now|]. intros now. cbv zeta.
  apply ff_seq; [apply ff_Until|]. intros d.
  apply ff_seq; [apply ff_Sleep|]. intros _. apply ff_transferData.
Qed.

(** Membership in an explicit list of events, by cases. *)
Ltac in_tail H :=
  repeat (apply elem_of_cons in H as [H|H]; [try discriminate H|]);
  try (apply elem_of_nil in H; destruct H).

(** What a recorded failure tells about the run that recorded it. *)
Lemma failure_recorded {A : Type} (m : Proc A) w e :
  obeys failFast m -> e ∈ newEvents m w -> isFailure e = true ->
  (m w).1 = Exited 1 /\
  exists before tl,
    newEvents m w = before ++ tl /\
    Forall (fun e => isFailure e = false) before /\
    failureTail tl /\ e ∈ tl.
Proof.
  intros Hm He Hf. destruct (Hm w) as (new & Etr & Hq).
  rewrite (newEvents_traced m w new Etr) in *.
  destruct ((m w).1) as [a|code]; cbn [exitCode failFast] in Hq.
  - rewrite Forall_forall in Hq. rewrite (Hq e He) in Hf. discriminate.
  - destruct Hq as (-> & before & tl & -> & Hb & Ht).
    split; [reflexivity|]. exists before, tl.
    repeat split; try assumption.
    apply elem_of_app in He as [He|He]; [|exact He].
    rewrite Forall_forall in Hb. rewrite (Hb e He) in Hf. discriminate.
Qed.

Lemma returned_no_failure {A : Type} (m : Proc A) w a :
  obeys failFast m -> (m w).1 = Returned a ->
  Forall (fun e => isFailure e = false) (newEvents m w).
Proof.
  intros Hm Hr. destruct (Hm w) as (new & Etr & Hq).
  rewrite (newEvents_traced m w new Etr). rewrite Hr in Hq. exact Hq.
Qed.

Lemma queryFailed_isFailure db q answer :
  queryFailed answer -> isFailure (EvQuery db q answer) = true.
Proof.
  unfold queryFailed. cbn [isFailure].
  destruct ((Scan_int answer 0).1); [reflexivity|congruence].
Qed.

Lemma evaluatedb_spec q tr : evaluated q tr <-> evaluatedb q tr = true.
Proof.
  unfold evaluated, evaluatedb. rewrite existsb_exists. split.
  - intros (db & answer & Hin). exists (EvQuery db q answer).
    split; [now apply list_elem_of_In|apply String.eqb_refl].
  - intros (e & Hin & He). destruct e; try discriminate.
    apply String.eqb_eq in He as <-. eexists _, _.
    apply list_elem_of_In, Hin.
Qed.

(** ** C1: a failed source query *)

Lemma sample_second_query_fails :
  exists db q answer,
    EvQuery db q answer
      ∈ newEvents (transferData "pg" "my") (sampleWorld secondQueryEmpty)
    /\ queryFailed answer.
Proof.
  exists (mkDB 0 "postgres" "pg"), QuaiActiveMachineQuery, NoRow.
  split; [apply list_elem_of_In; vm_compute; tauto|vm_compute; discriminate].
Qed.

Lemma sample_third_query_not_run :
  evaluatedb lostUsersQuery
    (newEvents (transferData "pg" "my") (sampleWorld secondQueryEmpty))
  = false.
Proof. vm_compute. reflexivity. Qed.

Lemma lost_users_in_catalog :
  ("lost_users_count"%string, lostUsersQuery) ∈ catalog.
Proof. unfold catalog. set_solver. Qed.

(** C1, as the specification states it, fails. In the sample world whose
    second query meets an empty result, the run reads two metrics, logs the
    failure and ends the process with status 1; the third query of the
    catalog is never run. *)
Lemma metric_failure_not_isolated :
  (transferData "pg" "my" (sampleWorld secondQueryEmpty)).1 = Exited 1 /\
  map kind (newEvents (transferData "pg" "my") (sampleWorld secondQueryEmpty))
  = [KLog; KOpen; KOpen; KQuery; KInsert; KLog; KQueryFailed; KFailureLog] /\
  ~ metricFailuresIsolated.
Proof.
  split; [vm_compute; reflexivity|]. split; [vm_compute; reflexivity|].
  intros H.
  pose proof (H "pg"%string "my"%string (sampleWorld secondQueryEmpty)
                sample_second_query_fails _ lost_users_in_catalog) as Hev.
  cbn [snd] in Hev. apply evaluatedb_spec in Hev.
  rewrite sample_third_query_not_run in Hev. discriminate Hev.
Qed.

(** C1, amended. If the source query of a metric fails, the run logs the
    failure and the process ends with status 1 right there: the failed query
    and its log line are the last events of the run, so no later metric is
    evaluated; nothing before them had failed. *)
Theorem query_failure_ends_process pgDsn mysqlDsn w db q answer :
  EvQuery db q answer ∈ newEvents (transferData pgDsn mysqlDsn) w ->
  queryFailed answer ->
  (transferData pgDsn mysqlDsn w).1 = Exited 1 /\
  exists before e,
    newEvents (transferData pgDsn mysqlDsn) w
    = before ++ [EvQuery db q answer; queryFailureLog q e] /\
    Forall (fun e => isFailure e = false) before.
Proof.
  intros Hin Hfail.
  destruct (failure_recorded _ w _ (ff_transferData pgDsn mysqlDsn) Hin
              (queryFailed_isFailure db q answer Hfail))
    as (Hexit & before & tl & Enew & Hb & Ht & Hin').
  split; [exact Hexit|]. exists before.
  destruct Ht as [db' q' answer' e count HS|db' t date count e|format e].
  - exists e. split; [|exact Hb].
    apply elem_of_cons in Hin' as [Heq|Hin'].
    + injection Heq as -> -> ->. exact Enew.
    + apply list_elem_of_singleton in Hin'. discriminate Hin'.
  - exfalso. in_tail Hin'.
  - exfalso. in_tail Hin'.
Qed.

Lemma query_failure_ends_process_witness :
  (transferData "pg" "my" (sampleWorld secondQueryEmpty)).1 = Exited 1 /\
  exists before e,
    newEvents (transferData "pg" "my") (sampleWorld secondQueryEmpty)
    = before ++ [EvQuery (mkDB 0 "postgres" "pg") QuaiActiveMachineQuery
                         NoRow;
                 queryFailureLog QuaiActiveMachineQuery e] /\
    Forall (fun e => isFailure e = false) before.
Proof.
  apply (query_failure_ends_process "pg" "my" (sampleWorld secondQueryEmpty)
           (mkDB 0 "postgres" "pg") QuaiActiveMachineQuery NoRow).
  - apply list_elem_of_In. vm_compute. tauto.
  - vm_compute. discriminate.
Defined.

(** ** C7: the check of the flags at startup *)

Lemma main_missing_dsn fl n w :
  pgDsn fl = EmptyString \/ mysqlDsn fl = EmptyString ->
  main fl n w = (Exited 1, emit EvUsage (emit usageLog w)).
Proof.
  intros H. unfold main. rewrite bind_run.
  assert (E : String.eqb (pgDsn fl) "" || String.eqb (mysqlDsn fl) "" = true).
  { apply orb_true_iff. destruct H as [->| ->]; [left|right]; reflexivity. }
  rewrite E. reflexivity.
Qed.

Lemma main_enters_loop fl n w :
  pgDsn fl <> EmptyString -> mysqlDsn fl <> EmptyString ->
  main fl n w = turns n (loopBody fl) w.
Proof.
  intros Hp Hm. unfold main. rewrite bind_run.
  apply String.eqb_neq in Hp, Hm. rewrite Hp, Hm. reflexivity.
Qed.



(** The older variant has no such check: with both strings missing it goes
    straight into its loop. *)
Lemma older_main_no_check fl n w :
  Older.main fl n w = turns n (Older.loopBody fl) w.
Proof. reflexivity. Qed.

Example older_main_missing_dsn :
  map kind (newEvents (Older.main defaultFlags 1) (sampleWorld healthySource))
  = [KSleep; KOpen; KOpen; KQuery; KInsertRefused; KFailureLog].
Proof. vm_compute. reflexivity. Qed.

(** ** C9: an empty or null result *)

Lemma Scan_int_stores answer count n :
  Scan_int answer count = (None, n) -> answer = IntValue n.
Proof.
  destruct answer as [| | |k|]; cbn [Scan_int]; try discriminate.
  destruct ((minInt64 <=? k) && (k <=? maxInt64)); [|discriminate].
  intros [= ->]. reflexivity.
Qed.

(** [queryCount] returns a count only when the source sent that integer. *)
Lemma queryCount_returns_integer db q w count w' :
  queryCount db q w = (Returned count, w') ->
  w_source w (w_queries w) q = IntValue count.
Proof.
  rewrite queryCount_run. cbv zeta.
  destruct (Scan_int (w_source w (w_queries w) q) 0) as [[e|] n] eqn:E;
    [discriminate|].
  intros [= <- _]. exact (Scan_int_stores _ _ _ E).
Qed.

(** C9. When the source query yields no row, or a null instead of an
    integer, [queryCount] does not return a count (in particular not 0): it
    logs the failure, with the error of the scan, and the process ends with
    status 1. *)
Theorem missing_result_is_failure db q w :
  w_source w (w_queries w) q = NoRow \/
  w_source w (w_queries w) q = NullValue ->
  (queryCount db q w).1 = Exited 1 /\
  exists e,
    (e = ErrNoRows \/ e = ErrScanNull) /\
    newEvents (queryCount db q) w
    = [EvQuery db q (w_source w (w_queries w) q); queryFailureLog q e].
Proof.
  intros H.
  assert (Hrun : exists e, (e = ErrNoRows \/ e = ErrScanNull) /\
            queryCount db q w
            = (Exited 1,
               emit (queryFailureLog q e)
                 (emit (EvQuery db q (w_source w (w_queries w) q))
                       (asked w)))).
  { rewrite queryCount_run. cbv zeta.
    destruct H as [-> | ->]; cbn [Scan_int]; eauto. }
  destruct Hrun as (e & He & Hrun). rewrite Hrun.
  split; [reflexivity|]. exists e. split; [exact He|].
  apply newEvents_traced. rewrite Hrun. cbn. now rewrite <- app_assoc.
Qed.

Lemma missing_result_is_failure_witness :
  (queryCount (mkDB 0 "postgres" "pg") lostUsersQuery
              (sampleWorld (fun _ _ => NullValue))).1 = Exited 1 /\
  exists e,
    (e = ErrNoRows \/ e = ErrScanNull) /\
    newEvents (queryCount (mkDB 0 "postgres" "pg") lostUsersQuery)
              (sampleWorld (fun _ _ => NullValue))
    = [EvQuery (mkDB 0 "postgres" "pg") lostUsersQuery NullValue;
       queryFailureLog lostUsersQuery e].
Proof.
  apply (missing_result_is_failure (mkDB 0 "postgres" "pg") lostUsersQuery
           (sampleWorld (fun _ _ => NullValue))).
  right. reflexivity.
Defined.

(** The older variant does the same through [log.Fatalf]. *)
Lemma older_missing_result_is_failure db q w :
  w_source w (w_queries w) q = NoRow \/
  w_source w (w_queries w) q = NullValue ->
  (Older.queryCount db q w).1 = Exited 1.
Proof.
  intros H. unfold Older.queryCount. rewrite bind_run. unfold QueryRow_Scan.
  destruct H as [-> | ->]; reflexivity.
Qed.

(** ** C4: the scheduler loop *)

Lemma failureTail_last tl :
  failureTail tl -> exists e, last tl = Some e /\ isFailure e = true.
Proof. intros [ | | ]; eexists; split; reflexivity. Qed.

Lemma ff_main fl n :
  pgDsn fl <> EmptyString -> mysqlDsn fl <> EmptyString ->
  obeys failFast (main fl n).
Proof.
  intros Hp Hm w. rewrite (main_enters_loop fl n w Hp Hm).
  apply (ff_turns n (loopBody fl) (ff_loopBody fl) w).
Qed.

(** C4, as the specification states it, fails: in the sample world whose
    second query meets an empty result the first turn of the loop ends the
    process. *)
Lemma scheduler_stops_on_failure :
  (main sampleFlags 1 (sampleWorld secondQueryEmpty)).1 = Exited 1 /\
  ~ schedulerNeverStops.
Proof.
  assert (E : (main sampleFlags 1 (sampleWorld secondQueryEmpty)).1
              = Exited 1) by (vm_compute; reflexivity).
  split; [exact E|]. intros H.
  rewrite (H sampleFlags 1%nat (sampleWorld secondQueryEmpty)) in E;
    discriminate.
Qed.

(** C4, amended. The loop has no exit of its own. A turn whose run records
    no failure gives control back to the head of the loop, where the next
    due time is computed; a failure in the run (opening a connection, a
    source query, a destination write) ends the process with status 1, the
    failure log being the last thing that happens. *)
Theorem scheduler_stops_only_on_failure fl n w :
  pgDsn fl <> EmptyString -> mysqlDsn fl <> EmptyString ->
  main fl (S n) w
  = match loopBody fl w with
    | (Returned _, w') => turns n (loopBody fl) w'
    | (Exited code, w') => (Exited code, w')
    end /\
  match (main fl n w).1 with
  | Returned _ =>
    Forall (fun e => isFailure e = false) (newEvents (main fl n) w)
  | Exited code =>
    code = 1 /\
    exists e, last (newEvents (main fl n) w) = Some e /\ isFailure e = true
  end.
Proof.
  intros Hp Hm. split.
  - rewrite (main_enters_loop fl (S n) w Hp Hm). apply turns_succ.
  - destruct (ff_main fl n Hp Hm w) as (new & Etr & Hq).
    rewrite (newEvents_traced _ w new Etr).
    destruct ((main fl n w).1) as [a|code]; cbn [exitCode failFast] in Hq.
    + exact Hq.
    + destruct Hq as (-> & before & tl & -> & _ & Ht).
      split; [reflexivity|].
      destruct (failureTail_last tl Ht) as (e & El & Hf).
      exists e. split; [|exact Hf].
      rewrite last_app, El. reflexivity.
Qed.

Lemma scheduler_stops_only_on_failure_witness :
  main sampleFlags 2 (sampleWorld secondQueryEmpty)
  = match loopBody sampleFlags (sampleWorld secondQueryEmpty) with
    | (Returned _, w') => turns 1 (loopBody sampleFlags) w'
    | (Exited code, w') => (Exited code, w')
    end /\
  match (main sampleFlags 1 (sampleWorld secondQueryEmpty)).1 with
  | Returned _ =>
    Forall (fun e => isFailure e = false)
           (newEvents (main sampleFlags 1) (sampleWorld secondQueryEmpty))
  | Exited code =>
    code = 1 /\
    exists e,
      last (newEvents (main sampleFlags 1) (sampleWorld secondQueryEmpty))
      = Some e /\ isFailure e = true
  end.
Proof.
  apply (scheduler_stops_only_on_failure sampleFlags 1
           (sampleWorld secondQueryEmpty)); discriminate.
Defined.

(** ** C8: one date for the whole run *)

Lemma quiet_refl d w : quiet d w None w.
Proof.
  split; [reflexivity|]. split; [reflexivity|].
  apply (traced_refl (fun _ new => Forall (datedWith d) new)). constructor.
Qed.

Lemma quiet_trans d w w1 w2 s :
  quiet d w None w1 -> quiet d w1 s w2 -> quiet d w s w2.
Proof.
  intros (Ec1 & Et1 & H1) (Ec2 & Et2 & H2).
  split; [congruence|]. split; [congruence|].
  revert H1 H2. apply traced_trans. intros _ n1 n2 F1 F2.
  apply Forall_app; split; assumption.
Qed.

Lemma quiet_seq d {A B : Type} (m : Proc A) (f : A -> Proc B) :
  sat (quiet d) m -> (forall a, sat (quiet d) (f a)) ->
  sat (quiet d) (m ≫= f).
Proof. exact (sat_seq (quiet d) (quiet_trans d) m f). Qed.

(** A process that leaves the clock alone and adds the events [new]. *)
Lemma quiet_step d w s w' new :
  w_clock w' = w_clock w -> w_ticks w' = w_ticks w ->
  w_trace w' = w_trace w ++ new -> Forall (datedWith d) new ->
  quiet d w s w'.
Proof. intros Ec Et Etr F. repeat split; try assumption. now exists new. Qed.

Lemma quiet_Printf d format args : sat (quiet d) (log_Printf format args).
Proof.
  intros w. apply (quiet_step d _ _ _ [EvLog format args]);
    try reflexivity. repeat constructor.
Qed.

Lemma quiet_Fatalf d {A : Type} format args :
  sat (quiet d) (@log_Fatalf A format args).
Proof.
  intros w. apply (quiet_step d _ _ _ [EvLog format args]);
    try reflexivity. repeat constructor.
Qed.

Lemma quiet_Open d driver dsn : sat (quiet d) (sql_Open driver dsn).
Proof.
  intros w. unfold sql_Open. destruct (w_accepts w driver dsn).
  - eapply (quiet_step d _ _ _ [_]); try reflexivity. repeat constructor.
  - apply quiet_refl.
Qed.

Lemma quiet_Close d db : sat (quiet d) (DB_Close db).
Proof.
  intros w. eapply (quiet_step d _ _ _ [_]); try reflexivity.
  repeat constructor.
Qed.

Lemma quiet_queryCount d db q : sat (quiet d) (queryCount db q).
Proof.
  intros w. rewrite queryCount_run. cbv zeta.
  destruct (Scan_int (w_source w (w_queries w) q) 0) as [[e|] count].
  - eapply (quiet_step d _ _ _ [_; _]); try reflexivity.
    + cbn. now rewrite <- app_assoc.
    + repeat constructor.
  - eapply (quiet_step d _ _ _ [_]); try reflexivity. repeat constructor.
Qed.

Lemma quiet_insertToMySQL d db t count :
  sat (quiet d) (insertToMySQL db t d count).
Proof.
  intros w. rewrite insertToMySQL_run. cbv zeta.
  destruct (insertRow t d count (w_dest w)) as [e|dest'];
    (eapply (quiet_step d _ _ _ [_; _]); try reflexivity;
     [cbn; now rewrite <- app_assoc|repeat constructor]).
Qed.

Lemma oneDate_transferBody pgDb sqlDb : sat oneDate (transferBody pgDb sqlDb).
Proof.
  intros w. unfold transferBody. rewrite bind_run.
  change (time_Now w) with (Returned (w_clock w (w_ticks w)), tick w).
  cbv iota zeta beta.
  set (today := Time_Format_date (w_clock w (w_ticks w))).
  match goal with
  | |- oneDate _ (exitCode (?m _).1) _ =>
    assert (Hq : sat (quiet today) m)
  end.
  { repeat first
      [ apply quiet_queryCount | apply quiet_insertToMySQL
      | apply quiet_Printf | apply quiet_seq; [|intros ?] ]. }
  destruct (Hq (tick w)) as (Ec & Et & Htr).
  split; [exact Ec|]. split; [rewrite Et; cbn; lia|exact Htr].
Qed.

Lemma quiet_then_oneDate {A B : Type} (m : Proc A) (f : A -> Proc B) :
  (forall d, sat (quiet d) m) -> (forall a, sat oneDate (f a)) ->
  sat oneDate (m ≫= f).
Proof.
  intros Hm Hf.
  apply (sat_bind (fun w s w' => forall d, quiet d w s w') oneDate oneDate).
  - intros w d. apply Hm.
  - exact Hf.
  - intros w w1 w2 s H1 (Ec2 & Et2 & Htr2).
    destruct (H1 (Time_Format_date (w_clock w (w_ticks w))))
      as (Ec1 & Et1 & Htr1).
    split; [congruence|]. split; [rewrite <- Et1; exact Et2|].
    rewrite Ec1, Et1 in Htr2. revert Htr1 Htr2. apply traced_trans.
    intros _ n1 n2 F1 F2. apply Forall_app; split; assumption.
  - intros w code w1 H1.
    destruct (H1 (Time_Format_date (w_clock w (w_ticks w))))
      as (Ec1 & Et1 & Htr1).
    split; [exact Ec1|]. split; [rewrite Et1; lia|exact Htr1].
Qed.

Lemma oneDate_then_quiet {A B : Type} (m : Proc A) (f : A -> Proc B) :
  sat oneDate m -> (forall a d, sat (quiet d) (f a)) ->
  sat oneDate (m ≫= f).
Proof.
  intros Hm Hf.
  apply (sat_bind oneDate (fun w s w' => forall d, quiet d w s w') oneDate).
  - exact Hm.
  - intros a w d. apply Hf.
  - intros w w1 w2 s (Ec1 & Et1 & Htr1) H2.
    destruct (H2 (Time_Format_date (w_clock w (w_ticks w))))
      as (Ec2 & Et2 & Htr2).
    split; [congruence|]. split; [rewrite Et2; exact Et1|].
    revert Htr1 Htr2. apply traced_trans.
    intros _ n1 n2 F1 F2. apply Forall_app; split; assumption.
  - intros w code w1 H. exact H.
Qed.

Lemma oneDate_defer {A : Type} db (body : Proc A) :
  sat oneDate body -> sat oneDate (defer (DB_Close db) body).
Proof.
  intros Hb. unfold defer. apply oneDate_then_quiet; [exact Hb|].
  intros a d. apply quiet_seq; [apply quiet_Close|].
  intros _ w. apply quiet_refl.
Qed.

Lemma oneDate_transferData pgDsn mysqlDsn :
  sat oneDate (transferData pgDsn mysqlDsn).
Proof.
  unfold transferData.
  apply quiet_then_oneDate; [intros d; apply quiet_Printf|]. intros _.
  apply quiet_then_oneDate; [intros d; apply quiet_Open|].
  intros [err|pgDb].
  { intros w. destruct (quiet_Fatalf (A := unit)
                          (Time_Format_date (w_clock w (w_ticks w)))
                          "Failed to connect to PostgreSQL: %v" [LErr err] w)
      as (Ec & Et & Htr).
    split; [exact Ec|]. split; [rewrite Et; lia|exact Htr]. }
  apply oneDate_defer.
  apply quiet_then_oneDate; [intros d; apply quiet_Open|].
  intros [err|sqlDb].
  { intros w. destruct (quiet_Fatalf (A := unit)
                          (Time_Format_date (w_clock w (w_ticks w)))
                          "Failed to connect to MySQL: %v" [LErr err] w)
      as (Ec & Et & Htr).
    split; [exact Ec|]. split; [rewrite Et; lia|exact Htr]. }
  apply oneDate_defer, oneDate_transferBody.
Qed.


(** ** C3: a duplicate key *)

Lemma keysKept_refl w : keysKept w w.
Proof. intros H. split; [exact H|auto]. Qed.

Lemma keysKept_trans w w1 w2 : keysKept w w1 -> keysKept w1 w2 -> keysKept w w2.
Proof.
  intros H1 H2 Hk. destruct (H1 Hk) as [Hk1 Hr1].
  destruct (H2 Hk1) as [Hk2 Hr2]. split; [exact Hk2|].
  intros tbl date H. apply Hr2, Hr1, H.
Qed.

Lemma keysKept_same_dest w w' : w_dest w' = w_dest w -> keysKept w w'.
Proof. intros E. unfold keysKept. rewrite E. intros H. split; auto. Qed.

Lemma rowsOf_lookup d tbl date rows :
  d !! tbl = Some rows ->
  rowsOf d tbl date = filter (fun r => r.1 = date) rows.
Proof. intros E. unfold rowsOf. rewrite E. reflexivity. Qed.

Lemma filter_date_nonempty date (rows : list (string * Z)) :
  filter (fun r => r.1 = date) rows <> [] -> date ∈ rows.*1.
Proof.
  intros H.
  destruct (filter (fun r : string * Z => r.1 = date) rows) as [|r l] eqn:E;
    [congruence|].
  assert (Hr : r ∈ filter (fun r : string * Z => r.1 = date) rows)
    by (rewrite E; left).
  apply list_elem_of_filter in Hr as [<- Hr].
  apply list_elem_of_fmap. exists r. split; [reflexivity|exact Hr].
Qed.

(** An insert that goes through keeps the keys unique and leaves every row
    that was there; one that is refused changes nothing. *)
Lemma insertRow_keeps t date count d d' :
  insertRow t date count d = inr d' ->
  keysUnique d ->
  keysUnique d' /\
  forall tbl dt,
    length (rowsOf d tbl dt) = 1%nat -> length (rowsOf d' tbl dt) = 1%nat.
Proof.
  unfold insertRow. destruct (d !! t) as [rows|] eqn:E; [|discriminate].
  case_bool_decide as Hin; [discriminate|]. intros [= <-] Hk. split.
  - intros tbl rows' Hl. destruct (decide (tbl = t)) as [->|Hne].
    + rewrite lookup_insert_eq in Hl. injection Hl as <-.
      rewrite fmap_app. apply NoDup_app. split; [exact (Hk t rows E)|].
      split; [|apply NoDup_singleton].
      intros x Hx Hx'. cbn in Hx'. apply list_elem_of_singleton in Hx'.
      subst x. exact (Hin Hx).
    + rewrite lookup_insert_ne in Hl by congruence. exact (Hk tbl rows' Hl).
  - intros tbl dt H. destruct (decide (tbl = t)) as [->|Hne].
    + rewrite (rowsOf_lookup d t dt rows E) in H.
      rewrite (rowsOf_lookup _ t dt (rows ++ [(date, count)]))
        by apply lookup_insert_eq.
      rewrite filter_app, length_app, H.
      destruct (decide (dt = date)) as [->|Hd].
      * exfalso. apply Hin, filter_date_nonempty.
        intros Hnil. rewrite Hnil in H. discriminate H.
      * rewrite filter_cons_False by (cbn; congruence). reflexivity.
    + unfold rowsOf in *. rewrite lookup_insert_ne by congruence. exact H.
Qed.

Lemma kept_seq {A B : Type} (m : Proc A) (f : A -> Proc B) :
  preserves keysKept m -> (forall a, preserves keysKept (f a)) ->
  preserves keysKept (m ≫= f).
Proof.
  exact (sat_seq (fun w _ w' => keysKept w w')
                 (fun w w1 w2 _ => keysKept_trans w w1 w2) m f).
Qed.

Lemma kept_defer {A B : Type} (d : Proc B) (body : Proc A) :
  preserves keysKept d -> preserves keysKept body ->
  preserves keysKept (defer d body).
Proof.
  exact (sat_defer (fun w _ w' => keysKept w w') keysKept_refl
                   (fun w w1 w2 _ => keysKept_trans w w1 w2) d body).
Qed.

Lemma kept_same_dest {A : Type} (m : Proc A) :
  (forall w, w_dest (m w).2 = w_dest w) -> preserves keysKept m.
Proof. intros H w. apply keysKept_same_dest, H. Qed.

Lemma queryCount_dest db q w : w_dest (queryCount db q w).2 = w_dest w.
Proof.
  rewrite queryCount_run. cbv zeta.
  destruct (Scan_int _ 0) as [[e|] count]; reflexivity.
Qed.

Lemma sql_Open_dest driver dsn w : w_dest (sql_Open driver dsn w).2 = w_dest w.
Proof. unfold sql_Open. destruct (w_accepts w driver dsn); reflexivity. Qed.

Lemma kept_insertToMySQL db t date count :
  preserves keysKept (insertToMySQL db t date count).
Proof.
  intros w. rewrite insertToMySQL_run. cbv zeta.
  destruct (insertRow t date count (w_dest w)) as [e|d] eqn:E.
  - apply keysKept_same_dest. reflexivity.
  - intros Hk. exact (insertRow_keeps t date count _ d E Hk).
Qed.

Lemma kept_transferBody pgDb sqlDb :
  preserves keysKept (transferBody pgDb sqlDb).
Proof.
  unfold transferBody.
  repeat first
    [ apply kept_insertToMySQL
    | apply kept_same_dest; first [apply queryCount_dest | reflexivity]
    | apply kept_seq; [|intros ?; cbv zeta] ].
Qed.

Lemma kept_transferData pgDsn mysqlDsn :
  preserves keysKept (transferData pgDsn mysqlDsn).
Proof.
  unfold transferData.
  apply kept_seq; [apply kept_same_dest; reflexivity|]. intros _.
  apply kept_seq; [apply kept_same_dest, sql_Open_dest|].
  intros [err|pgDb]; [apply kept_same_dest; reflexivity|].
  apply kept_defer; [apply kept_same_dest; reflexivity|].
  apply kept_seq; [apply kept_same_dest, sql_Open_dest|].
  intros [err|sqlDb]; [apply kept_same_dest; reflexivity|].
  apply kept_defer; [apply kept_same_dest; reflexivity|].
  apply kept_transferBody.
Qed.

Lemma filter_date_empty date (rows : list (string * Z)) :
  date ∉ rows.*1 -> filter (fun r : string * Z => r.1 = date) rows = [].
Proof.
  intros Hn.
  destruct (filter (fun r : string * Z => r.1 = date) rows) as [|r l] eqn:E;
    [reflexivity|].
  exfalso. apply Hn, filter_date_nonempty. rewrite E. discriminate.
Qed.

Lemma one_row_of_key date (rows : list (string * Z)) :
  NoDup rows.*1 -> date ∈ rows.*1 ->
  length (filter (fun r : string * Z => r.1 = date) rows) = 1%nat.
Proof.
  induction rows as [|r rows IH]; intros Hnd Hin.
  - apply elem_of_nil in Hin. destruct Hin.
  - rewrite fmap_cons in Hnd, Hin. apply NoDup_cons in Hnd as [Hr Hnd].
    destruct (decide (r.1 = date)) as [E|E].
    + rewrite filter_cons_True by exact E.
      rewrite filter_date_empty by (rewrite <- E; exact Hr). reflexivity.
    + rewrite filter_cons_False by exact E.
      apply elem_of_cons in Hin as [Hin|Hin]; [congruence|].
      apply IH; assumption.
Qed.

Lemma rowsGrow_refl d : rowsGrow d d.
Proof. intros t rows H. exists rows. split; [exact H|reflexivity]. Qed.

Lemma rowsGrow_trans d1 d2 d3 :
  rowsGrow d1 d2 -> rowsGrow d2 d3 -> rowsGrow d1 d3.
Proof.
  intros H12 H23 t rows H.
  destruct (H12 t rows H) as (rows2 & E2 & S2).
  destruct (H23 t rows2 E2) as (rows3 & E3 & S3).
  exists rows3. split; [exact E3|]. etrans; eassumption.
Qed.

Lemma refusalJustified_grow d d' e :
  rowsGrow d d' -> refusalJustified d e -> refusalJustified d' e.
Proof.
  intros Hg. destruct e as [| | | | | |db q date count [[]|]]; try exact id.
  intros (t & rows & -> & E & Hin).
  destruct (Hg t rows E) as (rows' & E' & Hsub).
  exists t, rows'. split; [reflexivity|]. split; [exact E'|].
  apply Hsub, Hin.
Qed.

Lemma rj_refl w : refusalsJustified w None w.
Proof.
  split; [apply rowsGrow_refl|]. exists []. split; [|constructor].
  now rewrite app_nil_r.
Qed.

Lemma rj_trans w w1 w2 s :
  refusalsJustified w None w1 -> refusalsJustified w1 s w2 ->
  refusalsJustified w s w2.
Proof.
  intros (G1 & n1 & E1 & F1) (G2 & n2 & E2 & F2).
  split; [exact (rowsGrow_trans _ _ _ G1 G2)|].
  exists (n1 ++ n2). rewrite E2, E1, app_assoc. split; [reflexivity|].
  apply Forall_app. split; [|exact F2].
  eapply Forall_impl; [exact F1|].
  intros e. apply refusalJustified_grow, G2.
Qed.

Lemma rj_seq {A B : Type} (m : Proc A) (f : A -> Proc B) :
  sat refusalsJustified m -> (forall a, sat refusalsJustified (f a)) ->
  sat refusalsJustified (m ≫= f).
Proof. exact (sat_seq refusalsJustified rj_trans m f). Qed.

Lemma rj_defer {A B : Type} (d : Proc B) (body : Proc A) :
  sat refusalsJustified d -> sat refusalsJustified body ->
  sat refusalsJustified (defer d body).
Proof. exact (sat_defer refusalsJustified rj_refl rj_trans d body). Qed.

(** A step that leaves the destination alone and executes no statement. *)
Lemma rj_step w s w' new :
  w_dest w' = w_dest w -> w_trace w' = w_trace w ++ new ->
  Forall (fun e => forall d, refusalJustified d e) new ->
  refusalsJustified w s w'.
Proof.
  intros Ed Etr F. split; [rewrite Ed; apply rowsGrow_refl|].
  exists new. split; [exact Etr|].
  eapply Forall_impl; [exact F|]. auto.
Qed.

Lemma rj_Printf format args : sat refusalsJustified (log_Printf format args).
Proof.
  intros w. apply (rj_step _ _ _ [EvLog format args]); try reflexivity.
  repeat constructor.
Qed.

Lemma rj_Fatalf {A : Type} format args :
  sat refusalsJustified (@log_Fatalf A format args).
Proof.
  intros w. apply (rj_step _ _ _ [EvLog format args]); try reflexivity.
  repeat constructor.
Qed.

Lemma rj_Now : sat refusalsJustified time_Now.
Proof.
  intros w. apply (rj_step _ _ _ []); try reflexivity; [|constructor].
  cbn. now rewrite app_nil_r.
Qed.

Lemma rj_Open driver dsn : sat refusalsJustified (sql_Open driver dsn).
Proof.
  intros w. unfold sql_Open. destruct (w_accepts w driver dsn).
  - eapply (rj_step _ _ _ [_]); try reflexivity. repeat constructor.
  - apply rj_refl.
Qed.

Lemma rj_Close db : sat refusalsJustified (DB_Close db).
Proof.
  intros w. eapply (rj_step _ _ _ [_]); try reflexivity. repeat constructor.
Qed.

Lemma rj_queryCount db q : sat refusalsJustified (queryCount db q).
Proof.
  intros w. rewrite queryCount_run. cbv zeta.
  destruct (Scan_int (w_source w (w_queries w) q) 0) as [[e|] count].
  - eapply (rj_step _ _ _ [_; _]); try reflexivity.
    + cbn. now rewrite <- app_assoc.
    + repeat constructor.
  - eapply (rj_step _ _ _ [_]); try reflexivity. repeat constructor.
Qed.

Lemma insertRow_duplicate t date count d :
  insertRow t date count d = inl ErrDuplicateKey ->
  exists rows, d !! t = Some rows /\ date ∈ rows.*1.
Proof.
  unfold insertRow. destruct (d !! t) as [rows|]; [|discriminate].
  case_bool_decide as Hin; [|discriminate].
  intros _. exists rows. split; [reflexivity|exact Hin].
Qed.

Lemma insertRow_grows t date count d d' :
  insertRow t date count d = inr d' -> rowsGrow d d'.
Proof.
  unfold insertRow. destruct (d !! t) as [rows|] eqn:E; [|discriminate].
  case_bool_decide as Hin; [discriminate|]. intros [= <-] t0 rows0 H0.
  destruct (decide (t0 = t)) as [->|Hne].
  - exists (rows ++ [(date, count)]). rewrite lookup_insert_eq.
    split; [reflexivity|]. rewrite E in H0. injection H0 as <-.
    rewrite fmap_app. apply list_subseteq_app_l. reflexivity.
  - exists rows0. rewrite lookup_insert_ne by congruence.
    split; [exact H0|reflexivity].
Qed.

Lemma rj_insertToMySQL db t date count :
  sat refusalsJustified (insertToMySQL db t date count).
Proof.
  intros w. rewrite insertToMySQL_run. cbv zeta.
  destruct (insertRow t date count (w_dest w)) as [e|d] eqn:E.
  - split; [apply rowsGrow_refl|]. eexists [_; _].
    split; [cbn; now rewrite <- app_assoc|].
    constructor; [|repeat constructor].
    destruct e; try exact I.
    destruct (insertRow_duplicate t date count _ E) as (rows & El & Hin).
    exists t, rows. split; [reflexivity|]. split; assumption.
  - split; [exact (insertRow_grows t date count _ d E)|]. eexists [_; _].
    split; [cbn; now rewrite <- app_assoc|]. repeat constructor.
Qed.

Lemma rj_transferBody pgDb sqlDb :
  sat refusalsJustified (transferBody pgDb sqlDb).
Proof.
  unfold transferBody.
  repeat first
    [ apply rj_queryCount | apply rj_insertToMySQL | apply rj_Printf
    | apply rj_Now | apply rj_seq; [|intros ?; cbv zeta] ].
Qed.

Lemma rj_transferData pgDsn mysqlDsn :
  sat refusalsJustified (transferData pgDsn mysqlDsn).
Proof.
  unfold transferData.
  apply rj_seq; [apply rj_Printf|]. intros _.
  apply rj_seq; [apply rj_Open|]. intros [err|pgDb]; [apply rj_Fatalf|].
  apply rj_defer; [apply rj_Close|].
  apply rj_seq; [apply rj_Open|]. intros [err|sqlDb]; [apply rj_Fatalf|].
  apply rj_defer; [apply rj_Close|apply rj_transferBody].
Qed.

(** The table a refused duplicate was meant for holds, at the end of the
    run, exactly one row of that date. *)
Lemma duplicate_leaves_one_row pgDsn mysqlDsn w db q date count :
  EvExec db q date count (Some ErrDuplicateKey)
    ∈ newEvents (transferData pgDsn mysqlDsn) w ->
  keysUnique (w_dest w) ->
  exists t,
    q = Sprintf_insert t /\
    length (rowsOf (w_dest (transferData pgDsn mysqlDsn w).2) t date) = 1%nat.
Proof.
  intros Hin Hk.
  destruct (rj_transferData pgDsn mysqlDsn w) as (_ & new & Etr & F).
  rewrite (newEvents_traced _ w new Etr) in Hin.
  rewrite Forall_forall in F. specialize (F _ Hin).
  destruct F as (t & rows & -> & El & Hd).
  exists t. split; [reflexivity|].
  rewrite (rowsOf_lookup _ t date rows El).
  apply one_row_of_key; [|exact Hd].
  destruct (kept_transferData pgDsn mysqlDsn w Hk) as [Hk' _].
  exact (Hk' t rows El).
Qed.

Lemma Sprintf_insert_inj t t' :
  Sprintf_insert t = Sprintf_insert t' -> t = t'.
Proof.
  intros E. apply (f_equal insertTarget) in E.
  rewrite !insertTarget_Sprintf in E. now injection E.
Qed.

Lemma first_run_returns :
  (transferData "pg" "my" (sampleWorld healthySource)).1 = Returned tt.
Proof. vm_compute. reflexivity. Qed.

Lemma second_run_meets_duplicate :
  EvExec (mkDB 3 "mysql" "my") (Sprintf_insert "active_machines_count_aleo")
         "2024-03-01" 12 (Some ErrDuplicateKey)
  ∈ newEvents (transferData "pg" "my") afterFirstRun.
Proof. apply list_elem_of_In. vm_compute. tauto. Qed.

Lemma second_run_exits :
  (transferData "pg" "my" afterFirstRun).1 = Exited 1.
Proof. vm_compute. reflexivity. Qed.



Lemma keysUnique_afterFirstRun : keysUnique (w_dest afterFirstRun).
Proof.
  apply (kept_transferData "pg" "my" (sampleWorld healthySource)).
  intros tbl rows H.
  assert (Hr : rows = []).
  { unfold sampleWorld, emptyTables, catalog in H. cbn in H.
    repeat (apply lookup_insert_Some in H as [[_ <-]|[_ H]];
            [reflexivity|]).
    rewrite lookup_empty in H. discriminate H. }
  subst rows. constructor.
Qed.


(** ** C5: the two connections of a run *)

Lemma handlesKept_refl w : handlesKept w w.
Proof. split; reflexivity. Qed.

Lemma handlesKept_trans w w1 w2 :
  handlesKept w w1 -> handlesKept w1 w2 -> handlesKept w w2.
Proof. intros [? ?] [? ?]. split; congruence. Qed.

Lemma hk_seq {A B : Type} (m : Proc A) (f : A -> Proc B) :
  preserves handlesKept m -> (forall a, preserves handlesKept (f a)) ->
  preserves handlesKept (m ≫= f).
Proof.
  exact (sat_seq (fun w _ w' => handlesKept w w')
                 (fun w w1 w2 _ => handlesKept_trans w w1 w2) m f).
Qed.

Lemma hk_same {A : Type} (m : Proc A) :
  (forall w, w_open (m w).2 = w_open w /\ w_next (m w).2 = w_next w) ->
  preserves handlesKept m.
Proof. intros H w. apply H. Qed.

Lemma hk_queryCount db q : preserves handlesKept (queryCount db q).
Proof.
  intros w. rewrite queryCount_run. cbv zeta.
  destruct (Scan_int _ 0) as [[e|] count]; split; reflexivity.
Qed.

Lemma hk_insertToMySQL db t date count :
  preserves handlesKept (insertToMySQL db t date count).
Proof.
  intros w. rewrite insertToMySQL_run. cbv zeta.
  destruct (insertRow t date count (w_dest w)); split; reflexivity.
Qed.

Lemma hk_transferBody pgDb sqlDb :
  preserves handlesKept (transferBody pgDb sqlDb).
Proof.
  unfold transferBody.
  repeat first
    [ apply hk_queryCount | apply hk_insertToMySQL
    | apply hk_same; intros ?; split; reflexivity
    | apply hk_seq; [|intros ?; cbv zeta] ].
Qed.


Lemma transferData_run pgDsn mysqlDsn w :
  transferData pgDsn mysqlDsn w
  = let w0 := emit startLog w in
    if w_accepts w "postgres" pgDsn then
      let pgDb := mkDB (w_next w) "postgres" pgDsn in
      let w1 := opened pgDb w0 in
      if w_accepts w "mysql" mysqlDsn then
        let sqlDb := mkDB (S (w_next w)) "mysql" mysqlDsn in
        let w2 := opened sqlDb w1 in
        match transferBody pgDb sqlDb w2 with
        | (Returned _, w3) => (Returned tt, closed pgDb (closed sqlDb w3))
        | (Exited code, w3) => (Exited code, w3)
        end
      else
        (Exited 1,
         emit (EvLog "Failed to connect to MySQL: %v" [LErr ErrBadDSN]) w1)
    else
      (Exited 1,
       emit (EvLog "Failed to connect to PostgreSQL: %v" [LErr ErrBadDSN]) w0).
Proof.
  unfold transferData. rewrite bind_run.
  change (log_Println "Starting data transfer..." w)
    with (Returned tt, emit startLog w).
  cbv beta iota zeta. rewrite bind_run. unfold sql_Open at 1.
  change (w_accepts (emit startLog w)) with (w_accepts w).
  destruct (w_accepts w "postgres" pgDsn); [|reflexivity].
  unfold defer at 1. rewrite bind_run, bind_run. unfold sql_Open at 1.
  change (w_accepts (emit _ _)) with (w_accepts w).
  destruct (w_accepts w "mysql" mysqlDsn); [|reflexivity].
  unfold defer at 1. rewrite bind_run.
  cbv beta iota zeta delta [opened emit with_open w_next w_open].
  match goal with
  | |- context [transferBody ?a ?b ?x] =>
    destruct (transferBody a b x) as [[[]|code] w3]
  end; reflexivity.
Qed.

Lemma transferData_returns_closed pgDsn mysqlDsn w :
  handlesFresh w ->
  (transferData pgDsn mysqlDsn w).1 = Returned tt ->
  w_open (transferData pgDsn mysqlDsn w).2 = w_open w.
Proof.
  intros Hfresh. rewrite transferData_run. cbv zeta.
  destruct (w_accepts w "postgres" pgDsn); [|discriminate].
  destruct (w_accepts w "mysql" mysqlDsn); [|discriminate].
  match goal with
  | |- context [transferBody ?a ?b ?x] =>
    pose proof (hk_transferBody a b x) as Hk;
    destruct (transferBody a b x) as [[[]|code] w3]
  end; [|discriminate].
  intros _. destruct Hk as [Ho _]. cbn in Ho |- *. rewrite Ho.
  assert (Hn : w_next w ∉ w_open w).
  { intros Hin. apply Hfresh in Hin. lia. }
  assert (Hn' : S (w_next w) ∉ w_open w).
  { intros Hin. apply Hfresh in Hin. lia. }
  revert Hn Hn'. generalize (w_open w) (w_next w). clear.
  intros O n Hn Hn'. set_solver.
Qed.

Lemma transferData_exit_leaves_open pgDsn mysqlDsn w code :
  w_accepts w "postgres" pgDsn = true ->
  (transferData pgDsn mysqlDsn w).1 = Exited code ->
  w_next w ∈ w_open (transferData pgDsn mysqlDsn w).2.
Proof.
  intros Hacc. rewrite transferData_run. cbv zeta. rewrite Hacc.
  destruct (w_accepts w "mysql" mysqlDsn).
  - match goal with
    | |- context [transferBody ?a ?b ?x] =>
      pose proof (hk_transferBody a b x) as Hk;
      destruct (transferBody a b x) as [[[]|c] w3]
    end; [discriminate|].
    intros _. destruct Hk as [Ho _]. cbn in Ho |- *. rewrite Ho.
    generalize (w_open w) (w_next w). clear. intros O n. set_solver.
  - intros _. cbn.
    generalize (w_open w) (w_next w). clear. intros O n. set_solver.
Qed.

(** C5 fails on the code. The closes are deferred, and the failure paths
    end the process with [os.Exit] or [log.Fatalf], which run no deferred
    call. Where the destination name is refused, the source handle opened
    just before is never closed; where a query fails in the middle of the
    run both handles stay open. *)
Theorem failed_run_leaves_connections_open :
  (transferData "pg" "my" mysqlRejected).1 = Exited 1 /\
  map kind (newEvents (transferData "pg" "my") mysqlRejected)
  = [KLog; KOpen; KFailureLog] /\
  w_open (transferData "pg" "my" mysqlRejected).2 = {[ 0%nat ]} /\
  (transferData "pg" "my" (sampleWorld secondQueryEmpty)).1 = Exited 1 /\
  map kind (newEvents (transferData "pg" "my") (sampleWorld secondQueryEmpty))
  = [KLog; KOpen; KOpen; KQuery; KInsert; KLog; KQueryFailed; KFailureLog] /\
  w_open (transferData "pg" "my" (sampleWorld secondQueryEmpty)).2
  = {[ 0%nat; 1%nat ]}.
Proof.
  repeat split; try (vm_compute; reflexivity);
    apply (bool_decide_unpack _); vm_compute; exact I.
Qed.

(** On the path that returns, both are closed, the destination first. *)
Example returning_run_closes_both :
  map kind (newEvents (transferData "pg" "my") (sampleWorld healthySource))
  = [KLog; KOpen; KOpen;
     KQuery; KInsert; KLog; KQuery; KInsert; KLog; KQuery; KInsert; KLog;
     KQuery; KInsert; KLog; KQuery; KInsert; KLog;
     KLog; KClose; KClose] /\
  closedHandles (newEvents (transferData "pg" "my")
                           (sampleWorld healthySource)) = [1; 0]%nat /\
  w_open afterFirstRun = ∅.
Proof.
  split; [vm_compute; reflexivity|]. split; [vm_compute; reflexivity|].
  apply (bool_decide_unpack _). vm_compute. exact I.
Qed.

(** ** C10: the two machine counts of the older variant *)

Lemma older_queryCount_run db q w :
  Older.queryCount db q w
  = let answer := w_source w (w_queries w) q in
    let w1 := emit (EvQuery db q answer) (asked w) in
    match Scan_int answer 0 with
    | (Some e, _) =>
      (Exited 1, emit (EvLog "Failed to execute query: %v" [LErr e]) w1)
    | (None, count) => (Returned count, w1)
    end.
Proof.
  unfold Older.queryCount. rewrite bind_run. unfold QueryRow_Scan.
  cbv zeta. destruct (Scan_int _ 0) as [[e|] count]; reflexivity.
Qed.

Lemma older_insertToMySQL_run db t date count w :
  Older.insertToMySQL db t date count w
  = let q := Sprintf_insert t in
    match insertRow t date count (w_dest w) with
    | inl e =>
      (Exited 1,
       emit (EvLog "Failed to insert data to MySQL: %v" [LErr e])
            (emit (EvExec db q date count (Some e)) w))
    | inr d =>
      (Returned tt, emit (EvExec db q date count None) (with_dest d w))
    end.
Proof.
  unfold Older.insertToMySQL. cbv zeta. rewrite bind_run. unfold DB_Exec.
  rewrite execInsert_Sprintf.
  destruct (insertRow t date count (w_dest w)) as [e|d]; reflexivity.
Qed.

Lemma older_twin_queries :
  Older.machineCountQuery = Older.activeMachineCountQuery.
Proof. reflexivity. Qed.

Ltac older_step :=
  try rewrite bind_run;
  first [rewrite older_queryCount_run | rewrite older_insertToMySQL_run];
  cbv zeta;
  cbn [w_source w_queries w_dest w_trace w_clock w_ticks
       emit asked tick with_dest];
  match goal with
  | |- context [match Scan_int ?a ?c with _ => _ end] =>
    let E := fresh "E" in destruct (Scan_int a c) as [[?|] ?] eqn:E
  | |- context [match insertRow ?t ?d ?c ?s with _ => _ end] =>
    destruct (insertRow t d c s) as [?|?]
  end.

Ltac explicit_trace :=
  eexists; split;
  [ cbn [w_trace emit asked tick with_dest fst snd];
    rewrite <- ?app_assoc; reflexivity
  | cbn [app] ].

Lemma older_body_events pgDb sqlDb w :
  exists new, w_trace (Older.transferBody pgDb sqlDb w).2 = w_trace w ++ new /\
  forall db1 d1 c1 e1 db2 d2 c2 e2,
  EvExec db1 (Sprintf_insert "machines_count") d1 c1 e1 ∈ new ->
  EvExec db2 (Sprintf_insert "active_machines_count") d2 c2 e2 ∈ new ->
  w_source w (w_queries w) Older.machineCountQuery
  = w_source w (S (w_queries w)) Older.activeMachineCountQuery ->
  c1 = c2 /\ d1 = d2.
Proof.
  unfold Older.transferBody. rewrite bind_run.
  change (time_Now w) with (Returned (w_clock w (w_ticks w)), tick w).
  cbv beta iota zeta.
  set (today := Time_Format_date (w_clock w (w_ticks w))).
  do 8 (try (older_step; [explicit_trace; intros * H1 H2 Hs | ])).
  9: explicit_trace; intros * H1 H2 Hs.
  all: cbv [Sprintf_insert insertHead insertTail append] in H1, H2.
  all: in_tail H1; in_tail H2.
  all: simplify_eq.
  all: split; [|reflexivity].
  all: unfold Older.activeMachineCountQuery, Older.machineCountQuery in *.
  all: congruence.
Qed.

Lemma older_transferData_run pgDsn mysqlDsn w :
  Older.transferData pgDsn mysqlDsn w
  = if w_accepts w "postgres" pgDsn then
      let pgDb := mkDB (w_next w) "postgres" pgDsn in
      let w1 := opened pgDb w in
      if w_accepts w "mysql" mysqlDsn then
        let sqlDb := mkDB (S (w_next w)) "mysql" mysqlDsn in
        let w2 := opened sqlDb w1 in
        match Older.transferBody pgDb sqlDb w2 with
        | (Returned _, w3) => (Returned tt, closed pgDb (closed sqlDb w3))
        | (Exited code, w3) => (Exited code, w3)
        end
      else
        (Exited 1,
         emit (EvLog "Failed to connect to MySQL: %v" [LErr ErrBadDSN]) w1)
    else
      (Exited 1,
       emit (EvLog "Failed to connect to PostgreSQL: %v" [LErr ErrBadDSN]) w).
Proof.
  unfold Older.transferData. rewrite bind_run. unfold sql_Open at 1.
  destruct (w_accepts w "postgres" pgDsn); [|reflexivity].
  unfold defer at 1. rewrite bind_run, bind_run. unfold sql_Open at 1.
  change (w_accepts (emit _ _)) with (w_accepts w).
  destruct (w_accepts w "mysql" mysqlDsn); [|reflexivity].
  unfold defer at 1. rewrite bind_run.
  cbv beta iota zeta delta [opened emit with_open w_next w_open].
  match goal with
  | |- context [Older.transferBody ?a ?b ?x] =>
    destruct (Older.transferBody a b x) as [[[]|code] w3]
  end; reflexivity.
Qed.

(** C10, as stated, fails: the source is read twice, and it may have changed
    in between. In the sample world, whose source counts one more at each
    query, the older variant writes 7 to [machines_count] and 8 to
    [active_machines_count] on the same date. *)
Lemma older_twin_counts_differ :
  EvExec (mkDB 1 "mysql" "my") (Sprintf_insert "machines_count")
         "2024-03-01" 7 None
    ∈ newEvents (Older.transferData "pg" "my") (olderWorld healthySource) /\
  EvExec (mkDB 1 "mysql" "my") (Sprintf_insert "active_machines_count")
         "2024-03-01" 8 None
    ∈ newEvents (Older.transferData "pg" "my") (olderWorld healthySource) /\
  ~ olderTwinCountsEqual.
Proof.
  assert (H1 : EvExec (mkDB 1 "mysql" "my") (Sprintf_insert "machines_count")
                      "2024-03-01" 7 None
               ∈ newEvents (Older.transferData "pg" "my")
                           (olderWorld healthySource))
    by (apply list_elem_of_In; vm_compute; tauto).
  assert (H2 : EvExec (mkDB 1 "mysql" "my")
                      (Sprintf_insert "active_machines_count")
                      "2024-03-01" 8 None
               ∈ newEvents (Older.transferData "pg" "my")
                           (olderWorld healthySource))
    by (apply list_elem_of_In; vm_compute; tauto).
  split; [exact H1|]. split; [exact H2|]. intros H.
  pose proof (H _ _ _ _ _ _ _ _ _ H1 H2) as E. discriminate E.
Qed.

(** C10, amended. In the older variant the queries of [machines_count] and
    of [active_machines_count] are the same text, character for character;
    in a run that writes both, the two tables receive the same date, and
    the same count whenever the source gives the same answer to the two
    readings. *)
Theorem older_twin_counts pgDsn mysqlDsn w db1 d1 c1 e1 db2 d2 c2 e2 :
  EvExec db1 (Sprintf_insert "machines_count") d1 c1 e1
    ∈ newEvents (Older.transferData pgDsn mysqlDsn) w ->
  EvExec db2 (Sprintf_insert "active_machines_count") d2 c2 e2
    ∈ newEvents (Older.transferData pgDsn mysqlDsn) w ->
  w_source w (w_queries w) Older.machineCountQuery
  = w_source w (S (w_queries w)) Older.activeMachineCountQuery ->
  Older.machineCountQuery = Older.activeMachineCountQuery /\
  c1 = c2 /\ d1 = d2.
Proof.
  intros H1 H2 Hs. split; [reflexivity|].
  unfold newEvents in H1, H2. rewrite older_transferData_run in H1, H2.
  cbv zeta in H1, H2.
  destruct (w_accepts w "postgres" pgDsn).
  - destruct (w_accepts w "mysql" mysqlDsn).
    + match type of H1 with
      | context [Older.transferBody ?a ?b ?x] =>
        destruct (older_body_events a b x) as (new & Etr & Hnew);
        destruct (Older.transferBody a b x) as [[[]|code] w3]
      end; cbn [fst snd] in Etr;
      cbn [w_trace closed opened emit with_open snd] in H1, H2, Etr;
      rewrite Etr, <- ?app_assoc, drop_app_length in H1, H2;
      cbn [app] in H1, H2;
      apply (Hnew db1 d1 c1 e1 db2 d2 c2 e2); try exact Hs.
      all: repeat (apply elem_of_cons in H1 as [H1|H1];
                   [discriminate H1|]);
           repeat (apply elem_of_cons in H2 as [H2|H2];
                   [discriminate H2|]).
      all: try (apply elem_of_app in H1 as [H1|H1];
                [|exfalso; in_tail H1]);
           try (apply elem_of_app in H2 as [H2|H2];
                [|exfalso; in_tail H2]).
      all: assumption.
    + cbn [w_trace closed opened emit with_open snd] in H1.
      rewrite <- ?app_assoc, drop_app_length in H1. exfalso. in_tail H1.
  - cbn [w_trace closed opened emit with_open snd] in H1.
    rewrite drop_app_length in H1. exfalso. in_tail H1.
Qed.

Lemma older_twin_counts_witness :
  Older.machineCountQuery = Older.activeMachineCountQuery /\
  7 = 7 /\ "2024-03-01"%string = "2024-03-01"%string.
Proof.
  apply (older_twin_counts "pg" "my" (olderWorld (fun _ _ => IntValue 7))
           (mkDB 1 "mysql" "my") "2024-03-01" 7 None
           (mkDB 1 "mysql" "my") "2024-03-01" 7 None).
  - apply list_elem_of_In. vm_compute. tauto.
  - apply list_elem_of_In. vm_compute. tauto.
  - reflexivity.
Defined.

(** ** The program on examples *)

(** Two turns of the loop on two successive days: both runs go through and
    every table holds one row for each of the two dates. *)
Example two_turns_two_days :
  (main sampleFlags 2 (movingWorld healthySource)).1 = Returned tt /\
  map (fun metric =>
         (length (rowsOf (w_dest (main sampleFlags 2
                                       (movingWorld healthySource)).2)
                         metric.1 "2024-03-02"),
          length (rowsOf (w_dest (main sampleFlags 2
                                       (movingWorld healthySource)).2)
                         metric.1 "2024-03-03"))) catalog
  = [(1, 1); (1, 1); (1, 1); (1, 1); (1, 1)]%nat.
Proof. split; vm_compute; reflexivity. Qed.

(** The scenario of the specification: the source answers 7 for the key
    [active_machines_count] on 2024-03-01, and the table of that name gains
    the row (2024-03-01, 7). *)
Example count_seven_is_stored :
  w_dest (Older.transferData "pg" "my"
            (olderWorld (fun _ _ => IntValue 7))).2
    !! "active_machines_count"%string
  = Some [("2024-03-01"%string, 7)].
Proof. vm_compute. reflexivity. Qed.

(** The older variant is fail-fast as well: its first query failing, no
    other metric is read and nothing is written. *)
Example older_query_failure_exits :
  (Older.transferData "pg" "my" (olderWorld (fun _ _ => QueryFails))).1
  = Exited 1 /\
  map kind (newEvents (Older.transferData "pg" "my")
                      (olderWorld (fun _ _ => QueryFails)))
  = [KOpen; KOpen; KQueryFailed; KFailureLog].
Proof. split; vm_compute; reflexivity. Qed.

(** A metric that goes through: the source answers an integer, the table
    exists and has no row of the date yet; the row [(date, n)] is appended
    to that table and to no other. *)
Lemma metric_is_stored pgDb sqlDb date t q n rows w :
  w_source w (w_queries w) q = IntValue n ->
  minInt64 <= n <= maxInt64 ->
  w_dest w !! t = Some rows -> date ∉ rows.*1 ->
  (transferMetric pgDb sqlDb date (t, q) w).1 = Returned tt /\
  w_dest (transferMetric pgDb sqlDb date (t, q) w).2
  = <[ t := rows ++ [(date, n)] ]> (w_dest w).
Proof.
  intros Hs Hn Ht Hd. unfold transferMetric. cbn [fst snd].
  rewrite bind_run, queryCount_run. cbv zeta. rewrite Hs. cbn [Scan_int].
  assert (Hr : (minInt64 <=? n) && (n <=? maxInt64) = true).
  { apply andb_true_iff. split; apply Z.leb_le; lia. }
  rewrite Hr, insertToMySQL_run. cbv zeta. unfold insertRow.
  cbn [w_dest emit asked]. rewrite Ht.
  rewrite bool_decide_eq_false_2 by exact Hd. split; reflexivity.
Qed.

(** * More of the program: properties *)

(** ** A run over a catalog *)

Lemma Scan_int_integer answer count n :
  Scan_int answer count = (None, n) <->
  answer = IntValue n /\ minInt64 <= n <= maxInt64.
Proof.
  split.
  - destruct answer as [| | |k|]; cbn [Scan_int]; try discriminate.
    destruct (Z.leb_spec minInt64 k), (Z.leb_spec k maxInt64);
      cbn [andb]; try discriminate.
    intros [= ->]. split; [reflexivity|lia].
  - intros [-> Hn]. cbn [Scan_int].
    destruct (Z.leb_spec minInt64 n), (Z.leb_spec n maxInt64);
      cbn [andb]; try lia. reflexivity.
Qed.

Lemma insertRow_inr t date count d d' :
  insertRow t date count d = inr d' <->
  exists rows,
    d !! t = Some rows /\ (date ∉ rows.*1) /\
    d' = <[ t := rows ++ [(date, count)] ]> d.
Proof.
  unfold insertRow. split.
  - destruct (d !! t) as [rows|]; [|discriminate].
    case_bool_decide as Hin; [discriminate|]. intros [= <-].
    exists rows. repeat split. exact Hin.
  - intros (rows & -> & Hin & ->).
    rewrite bool_decide_eq_false_2 by exact Hin. reflexivity.
Qed.

Lemma storeGrows_refl names d : storeGrows names d d.
Proof.
  intros t. destruct (d !! t) as [rows|]; [|reflexivity].
  exists []. now rewrite app_nil_r.
Qed.

Lemma storeGrows_trans n1 n2 d1 d2 d3 :
  storeGrows n1 d1 d2 -> storeGrows n2 d2 d3 -> storeGrows (n1 ++ n2) d1 d3.
Proof.
  intros H12 H23 t. specialize (H12 t). specialize (H23 t).
  destruct (d1 !! t) as [rows|].
  - destruct H12 as (e1 & E2 & He1). rewrite E2 in H23.
    destruct H23 as (e2 & E3 & He2). exists (e1 ++ e2).
    rewrite app_assoc. split; [exact E3|].
    intros Hn. rewrite not_elem_of_app in Hn. destruct Hn as [Hn1 Hn2].
    now rewrite (He1 Hn1), (He2 Hn2).
  - rewrite H12 in H23. exact H23.
Qed.

Lemma storeGrows_names n n' d d' :
  n ⊆ n' -> storeGrows n d d' -> storeGrows n' d d'.
Proof.
  intros Hsub H t. specialize (H t).
  destruct (d !! t) as [rows|]; [|exact H].
  destruct H as (extra & E & He). exists extra. split; [exact E|].
  intros Hn. apply He. intros Hin. apply Hn, Hsub, Hin.
Qed.

Section Pipeline.

(** The two variants differ in what they log; what their [queryCount] and
    [insertToMySQL] do to the rest of the world is the same. *)
Variable qc : DB -> string -> Proc Z.
Variable ins : DB -> string -> string -> Z -> Proc unit.

Hypothesis qc_reads : forall db q w n,
  Scan_int (w_source w (w_queries w) q) 0 = (None, n) ->
  exists tr, qc db q w = (Returned n, with_trace tr (asked w)).
Hypothesis qc_fails : forall db q w e count,
  Scan_int (w_source w (w_queries w) q) 0 = (Some e, count) ->
  exists tr, qc db q w = (Exited 1, with_trace tr (asked w)).
Hypothesis ins_writes : forall db t date count w d,
  insertRow t date count (w_dest w) = inr d ->
  exists tr,
    ins db t date count w = (Returned tt, with_trace tr (with_dest d w)).
Hypothesis ins_fails : forall db t date count w e,
  insertRow t date count (w_dest w) = inl e ->
  exists tr, ins db t date count w = (Exited 1, with_trace tr w).

Variables pgDb sqlDb : DB.
Variable today : string.

(** One metric: what it returns and what it leaves. *)
Lemma metric_step t q w :
  let m := (count ← qc pgDb q; ins sqlDb t today count) in
  match Scan_int (w_source w (w_queries w) q) 0 with
  | (Some _, _) =>
    exists tr, m w = (Exited 1, with_trace tr (asked w))
  | (None, n) =>
    match insertRow t today n (w_dest w) with
    | inl _ => exists tr, m w = (Exited 1, with_trace tr (asked w))
    | inr d =>
      exists tr, m w = (Returned tt, with_trace tr (with_dest d (asked w)))
    end
  end.
Proof.
  cbv zeta. rewrite bind_run.
  destruct (Scan_int (w_source w (w_queries w) q) 0) as [[e|] n] eqn:E.
  - destruct (qc_fails pgDb q w e n E) as (tr & ->). eauto.
  - destruct (qc_reads pgDb q w n E) as (tr & ->).
    destruct (insertRow t today n (w_dest w)) as [e|d] eqn:Ei.
    + destruct (ins_fails sqlDb t today n (with_trace tr (asked w)) e Ei)
        as (tr' & ->). eauto.
    + destruct (ins_writes sqlDb t today n (with_trace tr (asked w)) d Ei)
        as (tr' & ->). eauto.
Qed.

Lemma all_run ms : forall w,
  NoDup ms.*1 ->
  ((transferAllWith qc ins pgDb sqlDb today ms w).1 = Returned tt <->
   forall i metric, ms !! i = Some metric ->
     exists n rows, feeds today w i metric n rows) /\
  ((transferAllWith qc ins pgDb sqlDb today ms w).1 = Returned tt ->
   let w' := (transferAllWith qc ins pgDb sqlDb today ms w).2 in
   w_queries w' = (w_queries w + length ms)%nat /\
   (forall i metric n rows,
      ms !! i = Some metric -> feeds today w i metric n rows ->
      w_dest w' !! metric.1 = Some (rows ++ [(today, n)])) /\
   (forall t, t ∉ ms.*1 -> w_dest w' !! t = w_dest w !! t)).
Proof.
  induction ms as [|[t q] ms IH]; intros w Hnd.
  - cbn [transferAllWith]. split.
    + split; [intros _ i metric Hi; discriminate Hi|reflexivity].
    + intros _. cbv zeta. cbn. split; [lia|]. split; [|reflexivity].
      intros i metric n rows Hi. discriminate Hi.
  - rewrite fmap_cons in Hnd. apply NoDup_cons in Hnd as [Ht Hnd].
    cbn [transferAllWith fst snd]. rewrite bind_run.
    pose proof (metric_step t q w) as Hstep. cbv zeta in Hstep.
    destruct (Scan_int (w_source w (w_queries w) q) 0) as [[e|] n] eqn:E.
    { destruct Hstep as (tr & ->). cbn [fst]. split.
      - split; [discriminate|]. intros H.
        destruct (H 0%nat (t, q) eq_refl) as (n' & rows & Hs & Hn & _).
        cbn [snd] in Hs. rewrite Nat.add_0_r in Hs.
        rewrite Hs in E. cbn [Scan_int] in E.
        destruct (Z.leb_spec minInt64 n'), (Z.leb_spec n' maxInt64);
          cbn [andb] in E; try lia; discriminate E.
      - discriminate. }
    apply Scan_int_integer in E as [Ea Hn].
    destruct (insertRow t today n (w_dest w)) as [e|d] eqn:Ei.
    { destruct Hstep as (tr & ->). cbn [fst]. split.
      - split; [discriminate|]. intros H.
        destruct (H 0%nat (t, q) eq_refl) as (n' & rows & Hs & _ & Hd & Hin).
        cbn [fst snd] in Hs, Hd. rewrite Nat.add_0_r, Ea in Hs.
        injection Hs as <-.
        assert (Hi : insertRow t today n (w_dest w)
                     = inr (<[ t := rows ++ [(today, n)] ]> (w_dest w)))
          by (apply insertRow_inr; eauto).
        congruence.
      - discriminate. }
    destruct Hstep as (tr & ->).
    apply insertRow_inr in Ei as (rows0 & Hd0 & Hin0 & ->).
    set (w1 := with_trace tr (with_dest _ (asked w))).
    destruct (IH w1 Hnd) as [IHiff IHst].
    assert (Hfeeds : forall i metric n' rows,
               ms !! i = Some metric ->
               (feeds today w1 i metric n' rows
                <-> feeds today w (S i) metric n' rows)).
    { intros i metric n' rows Hi. unfold feeds, w1.
      cbn [w_source w_queries w_dest with_trace with_dest asked].
      assert (Hne : metric.1 <> t).
      { intros <-. apply Ht. apply list_elem_of_fmap.
        exists metric. split; [reflexivity|].
        eapply list_elem_of_lookup_2, Hi. }
      rewrite lookup_insert_ne by congruence.
      replace (S (w_queries w) + i)%nat with (w_queries w + S i)%nat by lia.
      reflexivity. }
    split.
    + rewrite IHiff. split.
      * intros H [|i] metric Hi.
        -- injection Hi as <-. exists n, rows0. unfold feeds. cbn [fst snd].
           rewrite Nat.add_0_r. tauto.
        -- destruct (H i metric Hi) as (n' & rows & Hf).
           exists n', rows. apply (Hfeeds i metric n' rows Hi), Hf.
      * intros H i metric Hi.
        destruct (H (S i) metric Hi) as (n' & rows & Hf).
        exists n', rows. apply (Hfeeds i metric n' rows Hi), Hf.
    + intros Hret. destruct (IHst Hret) as (Hq & Hst & Hfr). cbv zeta.
      split; [rewrite Hq; unfold w1; cbn; lia|]. split.
      * intros [|i] metric n' rows Hi Hf.
        -- injection Hi as <-. destruct Hf as (Hs & _ & Hd & _).
           cbn [fst snd] in *. rewrite Nat.add_0_r, Ea in Hs.
           injection Hs as <-. rewrite Hd0 in Hd. injection Hd as <-.
           rewrite (Hfr t Ht). unfold w1. cbn [w_dest with_trace with_dest].
           apply lookup_insert_eq.
        -- apply (Hst i metric n' rows Hi).
           apply (Hfeeds i metric n' rows Hi), Hf.
      * intros t' Ht'. rewrite fmap_cons in Ht'.
        apply not_elem_of_cons in Ht' as [Hne Ht'].
        rewrite (Hfr t' Ht'). unfold w1. cbn [w_dest with_trace with_dest asked].
        apply lookup_insert_ne. intros ->. apply Hne. reflexivity.
Qed.

Lemma storeGrows_step t date count d d' :
  insertRow t date count d = inr d' -> storeGrows [t] d d'.
Proof.
  intros H. apply insertRow_inr in H as (rows & Hd & _ & ->). intros t'.
  destruct (decide (t' = t)) as [->|Hne].
  - rewrite Hd, lookup_insert_eq. exists [(date, count)].
    split; [reflexivity|]. intros Hn. exfalso. apply Hn. left.
  - rewrite lookup_insert_ne by congruence.
    destruct (d !! t') as [rows'|]; [|reflexivity].
    exists []. now rewrite app_nil_r.
Qed.

Lemma all_grows ms : forall w,
  storeGrows ms.*1 (w_dest w)
             (w_dest (transferAllWith qc ins pgDb sqlDb today ms w).2).
Proof.
  induction ms as [|[t q] ms IH]; intros w.
  - apply storeGrows_refl.
  - cbn [transferAllWith fst snd]. rewrite bind_run.
    pose proof (metric_step t q w) as Hstep. cbv zeta in Hstep.
    destruct (Scan_int (w_source w (w_queries w) q) 0) as [[e|] n].
    { destruct Hstep as (tr & ->). apply storeGrows_refl. }
    destruct (insertRow t today n (w_dest w)) as [e|d] eqn:Ei.
    { destruct Hstep as (tr & ->). apply storeGrows_refl. }
    destruct Hstep as (tr & ->).
    change (((t, q) :: ms).*1) with ([t] ++ ms.*1).
    eapply storeGrows_trans.
    + exact (storeGrows_step t today n _ d Ei).
    + apply (IH (with_trace tr (with_dest d (asked w)))).
Qed.

(** When the table of the first metric takes no row of the date, the run
    ends the process at that metric, or before, and leaves the store
    alone. *)
Lemma all_refused t q ms w :
  (forall n d, insertRow t today n (w_dest w) <> inr d) ->
  exists code,
    (transferAllWith qc ins pgDb sqlDb today ((t, q) :: ms) w).1
    = Exited code /\
    w_dest (transferAllWith qc ins pgDb sqlDb today ((t, q) :: ms) w).2
    = w_dest w.
Proof.
  intros Hno. cbn [transferAllWith fst snd]. rewrite bind_run.
  pose proof (metric_step t q w) as Hstep. cbv zeta in Hstep.
  destruct (Scan_int (w_source w (w_queries w) q) 0) as [[e|] n].
  { destruct Hstep as (tr & ->). exists 1. split; reflexivity. }
  destruct (insertRow t today n (w_dest w)) as [e|d] eqn:Ei.
  { destruct Hstep as (tr & ->). exists 1. split; reflexivity. }
  destruct (Hno n d Ei).
Qed.

Lemma all_missing t q ms w :
  w_dest w !! t = None ->
  exists code,
    (transferAllWith qc ins pgDb sqlDb today ((t, q) :: ms) w).1
    = Exited code /\
    w_dest (transferAllWith qc ins pgDb sqlDb today ((t, q) :: ms) w).2
    = w_dest w.
Proof.
  intros Hd. apply all_refused. intros n d Ei.
  apply insertRow_inr in Ei as (rows' & Hd' & _). congruence.
Qed.

(** A run that changes the store at all has put a row of its date into the
    table of its first metric. *)
Lemma all_touched t q ms w :
  w_dest (transferAllWith qc ins pgDb sqlDb today ((t, q) :: ms) w).2
  = w_dest w \/
  exists rows,
    w_dest (transferAllWith qc ins pgDb sqlDb today ((t, q) :: ms) w).2 !! t
    = Some rows /\ today ∈ rows.*1.
Proof.
  cbn [transferAllWith fst snd]. rewrite bind_run.
  pose proof (metric_step t q w) as Hstep. cbv zeta in Hstep.
  destruct (Scan_int (w_source w (w_queries w) q) 0) as [[e|] n].
  { destruct Hstep as (tr & ->). left. reflexivity. }
  destruct (insertRow t today n (w_dest w)) as [e|d] eqn:Ei.
  { destruct Hstep as (tr & ->). left. reflexivity. }
  destruct Hstep as (tr & ->). right.
  apply insertRow_inr in Ei as (rows0 & Hd0 & _ & ->).
  pose proof (all_grows ms (with_trace tr
                              (with_dest (<[ t := rows0 ++ [(today, n)] ]>
                                            (w_dest w)) (asked w))) t) as Hg.
  cbn [w_dest with_trace with_dest] in Hg. rewrite lookup_insert_eq in Hg.
  destruct Hg as (extra & Hl & _). eexists. split; [exact Hl|].
  rewrite !fmap_app. apply elem_of_app. left. apply elem_of_app. right. left.
Qed.

(** What no metric touches: the clock, the handles, the source and the
    drivers. *)
Lemma all_frame ms : forall w,
  w_ticks (transferAllWith qc ins pgDb sqlDb today ms w).2 = w_ticks w /\
  w_clock (transferAllWith qc ins pgDb sqlDb today ms w).2 = w_clock w /\
  w_open (transferAllWith qc ins pgDb sqlDb today ms w).2 = w_open w /\
  w_next (transferAllWith qc ins pgDb sqlDb today ms w).2 = w_next w /\
  w_source (transferAllWith qc ins pgDb sqlDb today ms w).2 = w_source w /\
  w_accepts (transferAllWith qc ins pgDb sqlDb today ms w).2 = w_accepts w.
Proof.
  induction ms as [|[t q] ms IH]; intros w.
  - repeat split; reflexivity.
  - cbn [transferAllWith fst snd]. rewrite bind_run.
    pose proof (metric_step t q w) as Hstep. cbv zeta in Hstep.
    destruct (Scan_int (w_source w (w_queries w) q) 0) as [[e|] n].
    { destruct Hstep as (tr & ->). repeat split; reflexivity. }
    destruct (insertRow t today n (w_dest w)) as [e|d].
    { destruct Hstep as (tr & ->). repeat split; reflexivity. }
    destruct Hstep as (tr & ->).
    destruct (IH (with_trace tr (with_dest d (asked w))))
      as (H1 & H2 & H3 & H4 & H5 & H6).
    rewrite H1, H2, H3, H4, H5, H6. repeat split; reflexivity.
Qed.

End Pipeline.

(** ** A run of [transferData] *)

Lemma queryCount_reads db q w n :
  Scan_int (w_source w (w_queries w) q) 0 = (None, n) ->
  exists tr, queryCount db q w = (Returned n, with_trace tr (asked w)).
Proof.
  intros E. rewrite queryCount_run. cbv zeta. rewrite E.
  eexists. reflexivity.
Qed.

Lemma queryCount_fails db q w e count :
  Scan_int (w_source w (w_queries w) q) 0 = (Some e, count) ->
  exists tr, queryCount db q w = (Exited 1, with_trace tr (asked w)).
Proof.
  intros E. rewrite queryCount_run. cbv zeta. rewrite E.
  eexists. reflexivity.
Qed.

Lemma insertToMySQL_writes db t date count w d :
  insertRow t date count (w_dest w) = inr d ->
  exists tr,
    insertToMySQL db t date count w
    = (Returned tt, with_trace tr (with_dest d w)).
Proof.
  intros E. rewrite insertToMySQL_run. cbv zeta. rewrite E.
  eexists. reflexivity.
Qed.

Lemma insertToMySQL_fails db t date count w e :
  insertRow t date count (w_dest w) = inl e ->
  exists tr, insertToMySQL db t date count w = (Exited 1, with_trace tr w).
Proof.
  intros E. rewrite insertToMySQL_run. cbv zeta. rewrite E.
  eexists. reflexivity.
Qed.

Lemma transferAll_with pgDb sqlDb today ms :
  transferAll pgDb sqlDb today ms
  = transferAllWith queryCount insertToMySQL pgDb sqlDb today ms.
Proof.
  induction ms as [|metric ms IH]; [reflexivity|].
  cbn [transferAll transferAllWith]. rewrite IH. reflexivity.
Qed.

Lemma catalog_tables_distinct : NoDup catalog.*1.
Proof. apply (bool_decide_unpack _). vm_compute. exact I. Qed.

(** The world in which the metrics of a run are read and written. *)
Lemma transferData_via_catalog pgDsn mysqlDsn w :
  w_accepts w "postgres" pgDsn = true ->
  w_accepts w "mysql" mysqlDsn = true ->
  exists w2 pgDb sqlDb,
    w_source w2 = w_source w /\ w_queries w2 = w_queries w /\
    w_dest w2 = w_dest w /\
    let r := transferAllWith queryCount insertToMySQL pgDb sqlDb
               (Time_Format_date (w_clock w (w_ticks w))) catalog w2 in
    (transferData pgDsn mysqlDsn w).1 = r.1 /\
    w_dest (transferData pgDsn mysqlDsn w).2 = w_dest r.2 /\
    w_queries (transferData pgDsn mysqlDsn w).2 = w_queries r.2 /\
    w_ticks (transferData pgDsn mysqlDsn w).2 = S (w_ticks w).
Proof.
  intros Hp Hm. rewrite transferData_run. cbv zeta. rewrite Hp, Hm.
  match goal with
  | |- context [transferBody ?a ?b ?x] =>
    exists (tick x), a, b; rewrite (transferBody_catalog a b x)
  end.
  repeat (split; [reflexivity|]).
  rewrite bind_run.
  match goal with
  | |- context [time_Now ?x] =>
    change (time_Now x) with (Returned (w_clock w (w_ticks w)), tick x)
  end.
  cbv beta iota. rewrite bind_run, transferAll_with.
  match goal with
  | |- context [transferAllWith ?f ?g ?a ?b ?d ?c ?x] =>
    pose proof (all_frame f g queryCount_reads queryCount_fails
                  insertToMySQL_writes insertToMySQL_fails a b d c x)
      as (Ht & _);
    destruct (transferAllWith f g a b d c x) as [[[]|code] w3]
  end; cbn [snd] in Ht; repeat split; try reflexivity; exact Ht.
Qed.

Lemma feeds_same today w w2 i metric n rows :
  w_source w2 = w_source w -> w_queries w2 = w_queries w ->
  w_dest w2 = w_dest w ->
  feeds today w2 i metric n rows <-> feeds today w i metric n rows.
Proof. intros Es Eq Ed. unfold feeds. rewrite Es, Eq, Ed. reflexivity. Qed.

Lemma transferData_unaccepted pgDsn mysqlDsn w :
  w_accepts w "postgres" pgDsn = false \/
  w_accepts w "mysql" mysqlDsn = false ->
  (transferData pgDsn mysqlDsn w).1 = Exited 1 /\
  w_dest (transferData pgDsn mysqlDsn w).2 = w_dest w /\
  w_queries (transferData pgDsn mysqlDsn w).2 = w_queries w /\
  w_ticks (transferData pgDsn mysqlDsn w).2 = w_ticks w.
Proof.
  intros H. rewrite transferData_run. cbv zeta.
  destruct (w_accepts w "postgres" pgDsn); [|repeat split; reflexivity].
  destruct H as [H|H]; [discriminate H|]. rewrite H.
  repeat split; reflexivity.
Qed.

Lemma exit_status_one pgDsn mysqlDsn w code :
  (transferData pgDsn mysqlDsn w).1 = Exited code -> code = 1.
Proof.
  intros Hr. destruct (ff_transferData pgDsn mysqlDsn w) as (new & _ & Hq).
  rewrite Hr in Hq. destruct Hq as (-> & _). reflexivity.
Qed.

(** A run whose first insert the store cannot take ends the process and
    leaves the store as it was. *)
Lemma refused_first_insert pgDsn mysqlDsn w :
  (forall n d,
     insertRow "active_machines_count_aleo"
               (Time_Format_date (w_clock w (w_ticks w))) n (w_dest w)
     <> inr d) ->
  (transferData pgDsn mysqlDsn w).1 = Exited 1 /\
  w_dest (transferData pgDsn mysqlDsn w).2 = w_dest w.
Proof.
  intros Hno.
  assert (Hex : exists code,
             (transferData pgDsn mysqlDsn w).1 = Exited code /\
             w_dest (transferData pgDsn mysqlDsn w).2 = w_dest w).
  { destruct (w_accepts w "postgres" pgDsn) eqn:Hp;
      [destruct (w_accepts w "mysql" mysqlDsn) eqn:Hm|].
    - destruct (transferData_via_catalog pgDsn mysqlDsn w Hp Hm)
        as (w3 & pgDb & sqlDb & _ & _ & Ed & Er & Edr & _ & _).
      cbv zeta in Er, Edr. rewrite Er, Edr, <- Ed. rewrite <- Ed in Hno.
      apply (all_refused queryCount insertToMySQL queryCount_reads
               queryCount_fails insertToMySQL_writes insertToMySQL_fails
               pgDb sqlDb _ _ _ _ w3 Hno).
    - destruct (transferData_unaccepted pgDsn mysqlDsn w (or_intror Hm))
        as (Hr & Hd' & _). eauto.
    - destruct (transferData_unaccepted pgDsn mysqlDsn w (or_introl Hp))
        as (Hr & Hd' & _). eauto. }
  destruct Hex as (code & Hr & Hd'). split; [|exact Hd'].
  rewrite Hr. f_equal. exact (exit_status_one _ _ _ _ Hr).
Qed.

(** A run that changed the store has put a row of its date into the table
    of its first metric. *)
Lemma touched_holds_date pgDsn mysqlDsn w :
  w_dest (transferData pgDsn mysqlDsn w).2 <> w_dest w ->
  exists rows,
    w_dest (transferData pgDsn mysqlDsn w).2
      !! "active_machines_count_aleo"%string = Some rows /\
    Time_Format_date (w_clock w (w_ticks w)) ∈ rows.*1.
Proof.
  intros Hne.
  destruct (w_accepts w "postgres" pgDsn) eqn:Hp;
    [destruct (w_accepts w "mysql" mysqlDsn) eqn:Hm|].
  - destruct (transferData_via_catalog pgDsn mysqlDsn w Hp Hm)
      as (w3 & pgDb & sqlDb & _ & _ & Ed & _ & Edr & _ & _).
    cbv zeta in Edr. rewrite Edr in Hne |- *. rewrite <- Ed in Hne.
    destruct (all_touched queryCount insertToMySQL queryCount_reads
                queryCount_fails insertToMySQL_writes insertToMySQL_fails
                pgDb sqlDb (Time_Format_date (w_clock w (w_ticks w)))
                "active_machines_count_aleo" AleoActiveMachineQuery
                (tail catalog) w3) as [Hsame|Hrow].
    + contradiction.
    + exact Hrow.
  - destruct (transferData_unaccepted pgDsn mysqlDsn w (or_intror Hm))
      as (_ & Hd & _). contradiction.
  - destruct (transferData_unaccepted pgDsn mysqlDsn w (or_introl Hp))
      as (_ & Hd & _). contradiction.
Qed.

(** A run that returns had both of its names accepted. *)
Lemma transferData_accepted pgDsn mysqlDsn w :
  (transferData pgDsn mysqlDsn w).1 = Returned tt ->
  w_accepts w "postgres" pgDsn = true /\ w_accepts w "mysql" mysqlDsn = true.
Proof.
  intros Hret.
  destruct (w_accepts w "postgres" pgDsn) eqn:Hp;
    [destruct (w_accepts w "mysql" mysqlDsn) eqn:Hm|].
  - split; reflexivity.
  - destruct (transferData_unaccepted pgDsn mysqlDsn w (or_intror Hm))
      as (Hr & _). congruence.
  - destruct (transferData_unaccepted pgDsn mysqlDsn w (or_introl Hp))
      as (Hr & _). congruence.
Qed.

(** After a run that returned, the table of every metric of the catalog
    holds a row of the date of the run. *)
Lemma returned_run_holds_date pgDsn mysqlDsn w metric :
  metric ∈ catalog ->
  (transferData pgDsn mysqlDsn w).1 = Returned tt ->
  exists rows,
    w_dest (transferData pgDsn mysqlDsn w).2 !! metric.1 = Some rows /\
    Time_Format_date (w_clock w (w_ticks w)) ∈ rows.*1.
Proof.
  intros Hin Hret.
  destruct (transferData_accepted pgDsn mysqlDsn w Hret) as [Hp Hm].
  destruct (transferData_via_catalog pgDsn mysqlDsn w Hp Hm)
    as (w2 & pgDb & sqlDb & _ & _ & _ & Er & Edr & _ & _).
  cbv zeta in Er, Edr. rewrite Er in Hret. rewrite Edr.
  destruct (all_run queryCount insertToMySQL queryCount_reads
              queryCount_fails insertToMySQL_writes insertToMySQL_fails
              pgDb sqlDb (Time_Format_date (w_clock w (w_ticks w)))
              catalog w2 catalog_tables_distinct) as [Hiff Hst].
  apply list_elem_of_lookup in Hin as [i Hi].
  destruct (proj1 Hiff Hret i metric Hi) as (n & rows & Hf).
  destruct (Hst Hret) as (_ & Hrows & _).
  exists (rows ++ [(Time_Format_date (w_clock w (w_ticks w)), n)]).
  split; [exact (Hrows i metric n rows Hi Hf)|].
  rewrite fmap_app. apply elem_of_app. right. left.
Qed.


(** X2. What a run that returns has written: to the table of each metric of
    the catalog, after the rows that were there, one row with the date of the
    run and the integer the source answered to the query of that metric; it
    has made one query per metric and left every other table alone. *)
Theorem run_writes_what_it_reads pgDsn mysqlDsn w :
  (transferData pgDsn mysqlDsn w).1 = Returned tt ->
  let today := Time_Format_date (w_clock w (w_ticks w)) in
  let w' := (transferData pgDsn mysqlDsn w).2 in
  (forall i metric n rows,
     catalog !! i = Some metric -> feeds today w i metric n rows ->
     w_dest w' !! metric.1 = Some (rows ++ [(today, n)])) /\
  w_queries w' = (w_queries w + length catalog)%nat /\
  (forall t, t ∉ catalog.*1 -> w_dest w' !! t = w_dest w !! t).
Proof.
  intros Hret.
  destruct (transferData_accepted pgDsn mysqlDsn w Hret) as [Hp Hm].
  destruct (transferData_via_catalog pgDsn mysqlDsn w Hp Hm)
    as (w2 & pgDb & sqlDb & Es & Eq & Ed & Er & Edr & Eqr & _).
  cbv zeta in Er, Edr, Eqr |- *. rewrite Er in Hret.
  destruct (proj2 (all_run queryCount insertToMySQL queryCount_reads
                     queryCount_fails insertToMySQL_writes
                     insertToMySQL_fails pgDb sqlDb _ catalog w2
                     catalog_tables_distinct) Hret)
    as (Hq & Hst & Hfr).
  cbv zeta in Hq, Hst, Hfr. rewrite Edr, Eqr. split; [|split].
  - intros i metric n rows Hi Hf. apply (Hst i metric n rows Hi).
    apply (feeds_same _ w w2 i metric n rows Es Eq Ed), Hf.
  - rewrite Hq, Eq. reflexivity.
  - intros t Ht. rewrite (Hfr t Ht), Ed. reflexivity.
Qed.

Lemma run_writes_what_it_reads_witness :
  w_dest (transferData "pg" "my" (sampleWorld healthySource)).2
    !! "lost_users_count"%string
  = Some ([] ++ [(Time_Format_date
                    (w_clock (sampleWorld healthySource)
                             (w_ticks (sampleWorld healthySource))), 9)]).
Proof.
  apply (proj1 (run_writes_what_it_reads "pg" "my"
                  (sampleWorld healthySource) first_run_returns)
               2%nat ("lost_users_count"%string, lostUsersQuery) 9 []).
  - reflexivity.
  - repeat split; try (vm_compute; congruence).
    apply not_elem_of_nil.
Defined.

(** Whatever its outcome, a run only appends. *)
Lemma transferData_grows pgDsn mysqlDsn w :
  storeGrows catalog.*1 (w_dest w) (w_dest (transferData pgDsn mysqlDsn w).2).
Proof.
  destruct (w_accepts w "postgres" pgDsn) eqn:Hp;
    [destruct (w_accepts w "mysql" mysqlDsn) eqn:Hm|].
  - destruct (transferData_via_catalog pgDsn mysqlDsn w Hp Hm)
      as (w2 & pgDb & sqlDb & _ & _ & Ed & _ & Edr & _ & _).
    cbv zeta in Edr. rewrite Edr, <- Ed.
    apply (all_grows queryCount insertToMySQL queryCount_reads
             queryCount_fails insertToMySQL_writes insertToMySQL_fails).
  - destruct (transferData_unaccepted pgDsn mysqlDsn w (or_intror Hm))
      as (_ & -> & _). apply storeGrows_refl.
  - destruct (transferData_unaccepted pgDsn mysqlDsn w (or_introl Hp))
      as (_ & -> & _). apply storeGrows_refl.
Qed.

(** X3. A run that cannot open one of its two handles ends the process with
    status 1 before it reads the clock, asks the source or touches the store.
    *)
Theorem unopened_run_does_nothing pgDsn mysqlDsn w :
  w_accepts w "postgres" pgDsn = false \/
  w_accepts w "mysql" mysqlDsn = false ->
  (transferData pgDsn mysqlDsn w).1 = Exited 1 /\
  w_dest (transferData pgDsn mysqlDsn w).2 = w_dest w /\
  w_queries (transferData pgDsn mysqlDsn w).2 = w_queries w /\
  w_ticks (transferData pgDsn mysqlDsn w).2 = w_ticks w /\
  Forall (fun e => kind e = KLog \/ kind e = KOpen \/ kind e = KFailureLog)
         (newEvents (transferData pgDsn mysqlDsn) w).
Proof.
  intros H.
  destruct (transferData_unaccepted pgDsn mysqlDsn w H) as (Hr & Hd & Hq & Ht).
  repeat (split; [assumption|]).
  unfold newEvents. rewrite transferData_run. cbv zeta.
  destruct (w_accepts w "postgres" pgDsn).
  - destruct H as [H|H]; [discriminate H|]. rewrite H.
    cbn [snd w_trace emit opened with_open].
    rewrite <- !app_assoc, drop_app_length. cbn [app].
    repeat constructor; cbn; tauto.
  - cbn [snd w_trace emit]. rewrite <- !app_assoc, drop_app_length.
    cbn [app]. repeat constructor; cbn; tauto.
Qed.

Lemma unopened_run_does_nothing_witness :
  (transferData "pg" "my" mysqlRejected).1 = Exited 1 /\
  w_dest (transferData "pg" "my" mysqlRejected).2 = w_dest mysqlRejected /\
  w_queries (transferData "pg" "my" mysqlRejected).2
  = w_queries mysqlRejected /\
  w_ticks (transferData "pg" "my" mysqlRejected).2 = w_ticks mysqlRejected /\
  Forall (fun e => kind e = KLog \/ kind e = KOpen \/ kind e = KFailureLog)
         (newEvents (transferData "pg" "my") mysqlRejected).
Proof.
  apply (unopened_run_does_nothing "pg" "my" mysqlRejected).
  right. reflexivity.
Defined.

(** X4. Two runs on one date. After a run that returned, or that changed the
    store before it failed, a run that starts on the same date over the store
    the first one left, in this process or in another, ends the process with
    status 1 and leaves the store exactly as it found it: the date cannot be
    run again, and what a failed run left out stays out. *)
Theorem run_blocks_its_date pgDsn mysqlDsn w pgDsn' mysqlDsn' w2 :
  (transferData pgDsn mysqlDsn w).1 = Returned tt \/
  w_dest (transferData pgDsn mysqlDsn w).2 <> w_dest w ->
  w_dest w2 = w_dest (transferData pgDsn mysqlDsn w).2 ->
  Time_Format_date (w_clock w2 (w_ticks w2))
  = Time_Format_date (w_clock w (w_ticks w)) ->
  (transferData pgDsn' mysqlDsn' w2).1 = Exited 1 /\
  w_dest (transferData pgDsn' mysqlDsn' w2).2 = w_dest w2.
Proof.
  intros Hrun Hd Hdate.
  assert (Hrow : exists rows,
             w_dest w2 !! "active_machines_count_aleo"%string = Some rows /\
             Time_Format_date (w_clock w2 (w_ticks w2)) ∈ rows.*1).
  { rewrite Hd, Hdate. destruct Hrun as [Hret|Hne].
    - apply (returned_run_holds_date pgDsn mysqlDsn w
               ("active_machines_count_aleo"%string, AleoActiveMachineQuery));
        [left|exact Hret].
    - exact (touched_holds_date pgDsn mysqlDsn w Hne). }
  destruct Hrow as (rows & Hl & Hin).
  apply refused_first_insert. intros n d Ei.
  apply insertRow_inr in Ei as (rows' & Hl' & Hn & _).
  rewrite Hl in Hl'. injection Hl' as <-. contradiction.
Qed.

Lemma run_blocks_its_date_witness :
  (transferData "pg" "my"
     (transferData "pg" "my" (sampleWorld secondQueryEmpty)).2).1
  = Exited 1 /\
  w_dest (transferData "pg" "my"
            (transferData "pg" "my" (sampleWorld secondQueryEmpty)).2).2
  = w_dest (transferData "pg" "my" (sampleWorld secondQueryEmpty)).2.
Proof.
  apply (run_blocks_its_date "pg" "my" (sampleWorld secondQueryEmpty)
           "pg" "my"
           (transferData "pg" "my" (sampleWorld secondQueryEmpty)).2);
    [right|reflexivity|reflexivity].
  intros H.
  apply (f_equal (fun d => d !! "active_machines_count_aleo"%string)) in H.
  vm_compute in H. discriminate H.
Defined.

(** ** The events of a run that returns *)

Lemma transferAll_trace pgDb sqlDb today ms : forall w,
  (transferAll pgDb sqlDb today ms w).1 = Returned tt ->
  exists counts,
    answered w ms counts /\
    w_trace (transferAll pgDb sqlDb today ms w).2
    = w_trace w
      ++ concat (zip_with (metricEvents pgDb sqlDb today) ms counts).
Proof.
  induction ms as [|[t q] ms IH]; intros w.
  - intros _. exists []. split.
    + split; [reflexivity|]. intros i metric n Hi. discriminate Hi.
    + cbn. now rewrite app_nil_r.
  - cbn [transferAll]. unfold transferMetric. cbn [fst snd].
    rewrite !bind_run, queryCount_run. cbv zeta.
    destruct (Scan_int (w_source w (w_queries w) q) 0) as [[e|] n] eqn:E;
      [discriminate|].
    apply Scan_int_integer in E as [Ea _].
    rewrite insertToMySQL_run. cbv zeta.
    match goal with
    | |- context [insertRow t today n ?d] =>
      destruct (insertRow t today n d) as [e|d']; [discriminate|]
    end.
    match goal with
    | |- context [transferAll _ _ _ _ ?x] => set (w1 := x)
    end.
    intros Hret. destruct (IH w1 Hret) as (counts & [Hlen Hans] & Htr).
    exists (n :: counts). split; [split|].
    + cbn [length]. now rewrite Hlen.
    + intros [|i] metric k Hi Hk.
      * injection Hi as <-. injection Hk as <-. cbn [snd].
        now rewrite Nat.add_0_r.
      * specialize (Hans i metric k Hi Hk).
        replace (w_queries w + S i)%nat with (S (w_queries w) + i)%nat by lia.
        exact Hans.
    + rewrite Htr. unfold w1. cbn [w_trace emit with_dest asked].
      cbn [zip_with concat metricEvents fst snd].
      rewrite Ea, <- !app_assoc. reflexivity.
Qed.

(** X5. The trace of a run that returns, in full: the opening line, the two
    handles opened, the source first; then for each metric of the catalog, in
    its order, the query, the insert of the integer it was answered with under
    the date of the run, and the line that reports it; then the closing line
    and the two handles closed, the destination first. *)
Theorem returned_run_trace pgDsn mysqlDsn w :
  (transferData pgDsn mysqlDsn w).1 = Returned tt ->
  exists counts,
    answered w catalog counts /\
    newEvents (transferData pgDsn mysqlDsn) w
    = [ startLog;
        EvOpen (mkDB (w_next w) "postgres" pgDsn);
        EvOpen (mkDB (S (w_next w)) "mysql" mysqlDsn) ]
      ++ concat (zip_with
                   (metricEvents (mkDB (w_next w) "postgres" pgDsn)
                                 (mkDB (S (w_next w)) "mysql" mysqlDsn)
                                 (Time_Format_date (w_clock w (w_ticks w))))
                   catalog counts)
      ++ [ completedLog;
           EvClose (mkDB (S (w_next w)) "mysql" mysqlDsn);
           EvClose (mkDB (w_next w) "postgres" pgDsn) ].
Proof.
  intros Hret.
  destruct (transferData_accepted pgDsn mysqlDsn w Hret) as [Hp Hm].
  revert Hret. unfold newEvents. rewrite transferData_run. cbv zeta.
  rewrite Hp, Hm.
  match goal with
  | |- context [transferBody ?a ?b ?x] =>
    rewrite (transferBody_catalog a b x); set (w2 := x)
  end.
  rewrite !bind_run.
  change (time_Now w2) with (Returned (w_clock w (w_ticks w)), tick w2).
  cbv beta iota. rewrite bind_run.
  pose proof (transferAll_trace (mkDB (w_next w) "postgres" pgDsn)
                (mkDB (S (w_next w)) "mysql" mysqlDsn)
                (Time_Format_date (w_clock w (w_ticks w))) catalog (tick w2))
    as Htr.
  destruct (transferAll _ _ _ catalog (tick w2)) as [[[]|code] w3];
    [|intros H; discriminate H].
  intros _. destruct (Htr eq_refl) as (counts & Hans & Hw3).
  exists counts. split; [exact Hans|].
  cbn [snd] in Hw3. cbn [snd log_Println log_Printf closed emit w_trace with_open].
  rewrite Hw3. unfold w2. cbn [w_trace tick opened emit with_open].
  rewrite <- !app_assoc. rewrite drop_app_length. reflexivity.
Qed.

Lemma returned_run_trace_witness :
  exists counts,
    answered (sampleWorld healthySource) catalog counts /\
    newEvents (transferData "pg" "my") (sampleWorld healthySource)
    = [ startLog;
        EvOpen (mkDB (w_next (sampleWorld healthySource)) "postgres" "pg");
        EvOpen (mkDB (S (w_next (sampleWorld healthySource))) "mysql" "my") ]
      ++ concat (zip_with
                   (metricEvents
                      (mkDB (w_next (sampleWorld healthySource))
                            "postgres" "pg")
                      (mkDB (S (w_next (sampleWorld healthySource)))
                            "mysql" "my")
                      (Time_Format_date
                         (w_clock (sampleWorld healthySource)
                                  (w_ticks (sampleWorld healthySource)))))
                   catalog counts)
      ++ [ completedLog;
           EvClose (mkDB (S (w_next (sampleWorld healthySource)))
                         "mysql" "my");
           EvClose (mkDB (w_next (sampleWorld healthySource))
                         "postgres" "pg") ].
Proof.
  exact (returned_run_trace "pg" "my" (sampleWorld healthySource)
           first_run_returns).
Defined.

(** ** [queryCount] and [insertToMySQL] taken alone *)




(** ** [parseExecutionTime] on decimal texts *)

Lemma digitChar_code d :
  0 <= d <= 9 -> Z.of_N (N_of_ascii (digitChar d)) = 48 + d.
Proof.
  intros Hd. unfold digitChar. rewrite N_ascii_embedding by lia. lia.
Qed.

Lemma runes_cons_ascii a s :
  Z.of_N (N_of_ascii a) < 128 ->
  runes (String a s) = Z.of_N (N_of_ascii a) :: runes s.
Proof.
  intros Ha. unfold runes, bytes. cbn [list_ascii_of_string map length].
  cbn [decodeAll DecodeRune].
  destruct (Z.ltb_spec (Z.of_N (N_of_ascii a)) 128) as [_|]; [|lia].
  reflexivity.
Qed.

Lemma runes_digits ds s :
  Forall (fun d => 0 <= d <= 9) ds ->
  runes (digitsText ds ++ s) = map (Z.add 48) ds ++ runes s.
Proof.
  induction 1 as [|d ds Hd _ IH]; [reflexivity|].
  cbn [digitsText fold_right map app].
  change (String (digitChar d) (fold_right _ _ ds) ++ s)%string
    with (String (digitChar d) (digitsText ds ++ s)).
  rewrite runes_cons_ascii; rewrite digitChar_code by exact Hd; [|lia].
  now rewrite IH.
Qed.

(** Whatever bytes follow, a first byte that is no digit decodes to a rune
    that is no digit. *)
Lemma DecodeRune_not_digit b0 bs :
  isDigit b0 = false -> isDigit (DecodeRune (b0 :: bs)).1 = false.
Proof.
  intros Hb. unfold DecodeRune.
  destruct (Z.ltb_spec b0 128); [exact Hb|].
  assert (He : isDigit RuneError = false) by reflexivity.
  destruct ((194 <=? b0) && (b0 <=? 223)) eqn:E2.
  { apply andb_true_iff in E2 as [H1 H2].
    destruct bs as [|b1 bs]; [exact He|].
    unfold isCont. destruct ((128 <=? b1) && (b1 <=? 191)) eqn:Ec;
      [|exact He].
    apply andb_true_iff in Ec as [H3 H4]. cbn [fst]. unfold isDigit.
    apply andb_false_iff. right. lia. }
  destruct ((224 <=? b0) && (b0 <=? 239)) eqn:E3.
  { apply andb_true_iff in E3 as [H1 H2].
    destruct bs as [|b1 [|b2 bs]]; try exact He. cbv zeta.
    match goal with
    | |- context [if ?c then _ else _] => destruct c eqn:Ec
    end; [|exact He].
    apply andb_true_iff in Ec as [Ec H5].
    apply andb_true_iff in Ec as [H3 H4].
    unfold isCont in H5. apply andb_true_iff in H5 as [H5 H6].
    cbn [fst]. unfold isDigit. apply andb_false_iff. right.
    destruct (b0 =? 224) eqn:Eb; lia. }
  destruct ((240 <=? b0) && (b0 <=? 244)) eqn:E4; [|exact He].
  apply andb_true_iff in E4 as [H1 H2].
  destruct bs as [|b1 [|b2 [|b3 bs]]]; try exact He. cbv zeta.
  match goal with
  | |- context [if ?c then _ else _] => destruct c eqn:Ec
  end; [|exact He].
  apply andb_true_iff in Ec as [Ec H7].
  apply andb_true_iff in Ec as [Ec H5].
  apply andb_true_iff in Ec as [H3 H4].
  unfold isCont in H5, H7.
  apply andb_true_iff in H5 as [H5 H6]. apply andb_true_iff in H7 as [H7 H8].
  cbn [fst]. unfold isDigit. apply andb_false_iff. right.
  destruct (b0 =? 240) eqn:Eb; lia.
Qed.

Lemma runes_stopsNumber rest : stopsNumber rest -> noDigitAhead (runes rest).
Proof.
  destruct rest as [|a s]; [intros _; exact I|].
  cbn [stopsNumber]. intros Ha. unfold runes, bytes.
  cbn [list_ascii_of_string map length decodeAll].
  pose proof (DecodeRune_not_digit (Z.of_N (N_of_ascii a))
                (map (fun a => Z.of_N (N_of_ascii a))
                     (list_ascii_of_string s)) Ha) as Hr.
  destruct (DecodeRune _) as [r size]. exact Hr.
Qed.

Lemma digit_rune_plain r :
  isDigit r = true ->
  (r =? 10) = false /\ isSpace r = false /\
  (r =? 45) = false /\ (r =? 43) = false.
Proof.
  unfold isDigit. intros H. apply andb_true_iff in H as [H1 H2].
  repeat split; try lia.
  unfold isSpace. destruct (Z.leb_spec 65536 r); [reflexivity|].
  unfold spaceRanges, inRanges.
  repeat match goal with
         | |- context [?a <? ?b] => destruct (Z.ltb_spec a b); try lia
         | |- context [?a <=? ?b] => destruct (Z.leb_spec a b); try lia
         end; reflexivity.
Qed.

Lemma isDigit_code d : 0 <= d <= 9 -> isDigit (48 + d) = true.
Proof. intros Hd. unfold isDigit. apply andb_true_iff. lia. Qed.

Lemma acceptDigits_digits ds l :
  Forall (fun d => 0 <= d <= 9) ds -> noDigitAhead l ->
  acceptDigits (map (Z.add 48) ds ++ l) = (map (Z.add 48) ds, l).
Proof.
  intros Hds Hl. induction Hds as [|d ds Hd _ IH].
  - destruct l as [|r l]; [reflexivity|].
    cbn [map app acceptDigits]. cbn [noDigitAhead] in Hl. now rewrite Hl.
  - cbn [map app acceptDigits]. rewrite (isDigit_code d Hd), IH.
    reflexivity.
Qed.

Lemma digitsValue_digits ds :
  digitsValue (map (Z.add 48) ds) = decimalValue ds.
Proof.
  unfold digitsValue, decimalValue. generalize 0.
  induction ds as [|d ds IH]; intros acc; [reflexivity|].
  cbn [map fold_left]. rewrite IH. f_equal. lia.
Qed.

Lemma decimalValue_nonneg ds :
  Forall (fun d => 0 <= d <= 9) ds -> 0 <= decimalValue ds.
Proof.
  intros Hds. unfold decimalValue.
  assert (H : forall acc, 0 <= acc ->
                0 <= fold_left (fun acc d => acc * 10 + d) ds acc).
  { induction Hds as [|d ds Hd _ IH]; intros acc Hacc; [exact Hacc|].
    cbn [fold_left]. apply IH. lia. }
  apply H. lia.
Qed.

(** [scanInt] on a decimal text: it takes the digits, all of them, and
    leaves what follows. *)
Lemma scanInt_digits ds l :
  isDecimal ds -> decimalValue ds <= maxInt64 -> noDigitAhead l ->
  scanInt (map (Z.add 48) ds ++ l) = inr (decimalValue ds, l).
Proof.
  intros [Hne Hds] Hmax Hl.
  pose proof (decimalValue_nonneg ds Hds) as Hpos.
  pose proof (acceptDigits_digits ds l Hds Hl) as Hacc.
  pose proof (digitsValue_digits ds) as Hval.
  destruct ds as [|d ds]; [contradiction|].
  apply Forall_cons in Hds as [Hd Hds].
  destruct (digit_rune_plain (48 + d) (isDigit_code d Hd))
    as (Hnl & Hsp & Hminus & Hplus).
  cbn [map app] in *. unfold scanInt. cbn [SkipSpace].
  rewrite Hnl, Hsp. cbn [acceptSign]. rewrite Hminus, Hplus.
  rewrite Hacc. cbv zeta. rewrite Hval.
  destruct (Z.leb_spec minInt64 (decimalValue (d :: ds)));
    [|unfold minInt64 in *; lia].
  destruct (Z.leb_spec (decimalValue (d :: ds)) maxInt64); [|lia].
  reflexivity.
Qed.

Lemma SkipSpace_digits ds l :
  isDecimal ds ->
  SkipSpace (map (Z.add 48) ds ++ l) = inr (map (Z.add 48) ds ++ l).
Proof.
  intros [Hne Hds]. destruct ds as [|d ds]; [contradiction|].
  apply Forall_cons in Hds as [Hd _].
  destruct (digit_rune_plain (48 + d) (isDigit_code d Hd)) as (Hnl & Hsp & _).
  cbn [map app SkipSpace]. now rewrite Hnl, Hsp.
Qed.

(** X8. [parseExecutionTime] reads two decimal numbers around a colon: padded
    or not, of any length, in the range of a clock or not, and whatever
    follows the second number. *)
Theorem parse_decimal dh dm rest :
  isDecimal dh -> isDecimal dm ->
  decimalValue dh <= maxInt64 -> decimalValue dm <= maxInt64 ->
  stopsNumber rest ->
  parseExecutionTime (digitsText dh ++ ":" ++ digitsText dm ++ rest)
  = (decimalValue dh, decimalValue dm).
Proof.
  intros Hh Hm Hhmax Hmmax Hrest.
  unfold parseExecutionTime, Sscanf_d_colon_d. cbv zeta.
  rewrite (runes_digits dh _ (proj2 Hh)).
  change (":" ++ digitsText dm ++ rest)%string
    with (String ":"%char (digitsText dm ++ rest)).
  rewrite runes_cons_ascii by (cbv; reflexivity).
  rewrite (runes_digits dm _ (proj2 Hm)).
  change (Z.of_N (N_of_ascii ":")) with 58.
  rewrite (SkipSpace_digits dh _ Hh).
  rewrite (scanInt_digits dh _ Hh Hhmax) by exact (eq_refl : isDigit 58 = false).
  change (negb (58 =? 58)) with false. cbv iota.
  rewrite (SkipSpace_digits dm _ Hm).
  rewrite (scanInt_digits dm _ Hm Hmmax (runes_stopsNumber rest Hrest)).
  reflexivity.
Qed.

Lemma parse_decimal_witness :
  parseExecutionTime (digitsText [7] ++ ":" ++ digitsText [0; 5] ++ ":30pm")
  = (decimalValue [7], decimalValue [0; 5]).
Proof.
  apply (parse_decimal [7] [0; 5] ":30pm").
  - split; [discriminate|]. repeat constructor; lia.
  - split; [discriminate|]. repeat constructor; lia.
  - vm_compute. discriminate.
  - vm_compute. discriminate.
  - reflexivity.
Defined.


(** ** The due time, whatever the execution time says *)

Lemma localDay_unique t d :
  d * nsPerDay <= localNano t < d * nsPerDay + nsPerDay -> localDay t = d.
Proof.
  unfold localDay. generalize (localNano t). intros x.
  change nsPerDay with 86400000000000. intros H.
  Z.div_mod_to_equations. lia.
Qed.

Lemma unixNano_atClock day h m loc :
  unixNano (atClock day h m loc)
  = day * nsPerDay + (h * 60 + m) * time_Minute - zoneOffset loc * time_Second.
Proof.
  unfold atClock. cbn [unixNano].
  change time_Hour with (60 * time_Minute). lia.
Qed.

(** The due time in terms of what was parsed: the parsed clock value on the
    day of [now], or on the day after when that instant is over. *)
Lemma dueTime_parsed now s h m :
  parseExecutionTime s = (h, m) ->
  dueTime now s
  = if unixNano (atClock (localDay now) h m (Time_Location now))
       <? unixNano now
    then atClock (localDay now + 1) h m (Time_Location now)
    else atClock (localDay now) h m (Time_Location now).
Proof.
  intros Hp. unfold dueTime. rewrite Hp, time_Date_same_day.
  replace (mkTime _ _) with (atClock (localDay now) h m (Time_Location now))
    by (unfold atClock; f_equal; lia).
  unfold Time_After.
  destruct (_ <? _); [|reflexivity].
  unfold Time_Add, atClock. cbn [unixNano Time_Location].
  f_equal. unfold nsPerDay. lia.
Qed.

(** Arithmetic on instants, with the constants of the [time] package
    spelled out. *)
Ltac clock_arith :=
  repeat match goal with
         | H : context [unixNano (atClock _ _ _ _)] |- _ =>
           rewrite unixNano_atClock in H
         | |- context [unixNano (atClock _ _ _ _)] =>
           rewrite unixNano_atClock
         end;
  change nsPerDay with 86400000000000 in *;
  change time_Hour with 3600000000000 in *;
  change time_Minute with 60000000000 in *;
  change time_Second with 1000000000 in *;
  try lia.





Lemma localDay_between now t d :
  Time_Location t = Time_Location now ->
  d * nsPerDay
  <= unixNano t + zoneOffset (Time_Location now) * time_Second
  < d * nsPerDay + nsPerDay ->
  localDay t = d.
Proof.
  intros Hloc H. apply localDay_unique. unfold localNano. now rewrite Hloc.
Qed.






(** ** A turn of the loop, and the loop *)

Lemma loopBody_run fl w :
  loopBody fl w = transferData (pgDsn fl) (mysqlDsn fl) (waited fl w).
Proof. reflexivity. Qed.

Lemma loopBody_events fl w :
  newEvents (loopBody fl) w
  = EvSleep (Time_Sub (dueTime (w_clock w (w_ticks w)) (executionTime fl))
                      (w_clock w (S (w_ticks w))))
    :: newEvents (transferData (pgDsn fl) (mysqlDsn fl)) (waited fl w).
Proof.
  unfold newEvents. rewrite loopBody_run.
  destruct (ff_transferData (pgDsn fl) (mysqlDsn fl) (waited fl w))
    as (new & -> & _).
  rewrite drop_app_length. unfold waited. cbn [w_trace emit tick].
  rewrite <- app_assoc. rewrite drop_app_length. reflexivity.
Qed.



(** X14. The rows of a turn carry the date of the third clock reading of the
    turn, taken when the run starts: the date on which the process woke up,
    which need not be the date of the due time. *)
Theorem turn_dates_rows fl w metric :
  (loopBody fl w).1 = Returned tt ->
  metric ∈ catalog ->
  exists rows,
    w_dest (loopBody fl w).2 !! metric.1 = Some rows /\
    Time_Format_date (w_clock w (S (S (w_ticks w)))) ∈ rows.*1.
Proof.
  rewrite loopBody_run. intros Hret Hin.
  exact (returned_run_holds_date (pgDsn fl) (mysqlDsn fl) (waited fl w)
           metric Hin Hret).
Qed.

Lemma first_turn_returns :
  (loopBody sampleFlags (sampleWorld healthySource)).1 = Returned tt.
Proof. vm_compute. reflexivity. Qed.

Lemma turn_dates_rows_witness :
  exists rows,
    w_dest (loopBody sampleFlags (sampleWorld healthySource)).2
      !! ("lost_users_count"%string, lostUsersQuery).1 = Some rows /\
    Time_Format_date
      (w_clock (sampleWorld healthySource)
               (S (S (w_ticks (sampleWorld healthySource))))) ∈ rows.*1.
Proof.
  apply (turn_dates_rows sampleFlags (sampleWorld healthySource)
           ("lost_users_count"%string, lostUsersQuery) first_turn_returns).
  right. right. left.
Defined.

(** ** The whole program and the store *)

Lemma main_cases fl n w :
  main fl n w = (Exited 1, emit EvUsage (emit usageLog w)) \/
  main fl n w = turns n (loopBody fl) w.
Proof.
  unfold main. rewrite bind_run.
  destruct (String.eqb (pgDsn fl) "" || String.eqb (mysqlDsn fl) "");
    [left|right]; reflexivity.
Qed.

Lemma appendsOnly_refl names w : appendsOnly names w None w.
Proof. apply storeGrows_refl. Qed.

Lemma appendsOnly_trans names w w1 w2 s :
  appendsOnly names w None w1 -> appendsOnly names w1 s w2 ->
  appendsOnly names w s w2.
Proof.
  unfold appendsOnly. intros H1 H2.
  apply (storeGrows_names (names ++ names) names);
    [intros t Ht; apply elem_of_app in Ht; tauto|].
  exact (storeGrows_trans names names _ _ _ H1 H2).
Qed.

Lemma appendsOnly_loopBody fl : sat (appendsOnly catalog.*1) (loopBody fl).
Proof.
  intros w. unfold appendsOnly. rewrite loopBody_run.
  exact (transferData_grows (pgDsn fl) (mysqlDsn fl) (waited fl w)).
Qed.

Lemma kept_loopBody fl : preserves keysKept (loopBody fl).
Proof.
  intros w. rewrite loopBody_run.
  exact (kept_transferData (pgDsn fl) (mysqlDsn fl) (waited fl w)).
Qed.

(** X15. Whatever the flags, the answers of the source and the number of
    turns, and however the process ends, the program only appends to the
    destination: no table is created or dropped, the rows a table held stay as
    they were and in their order, only tables of the catalog receive rows; and
    when no table held a date twice, none does afterwards. *)
Theorem program_only_appends fl n w :
  storeGrows catalog.*1 (w_dest w) (w_dest (main fl n w).2) /\
  (keysUnique (w_dest w) -> keysUnique (w_dest (main fl n w).2)).
Proof.
  destruct (main_cases fl n w) as [-> | ->].
  - split; [apply storeGrows_refl|]. intros H. exact H.
  - split.
    + exact (sat_turns (appendsOnly catalog.*1)
               (appendsOnly_refl _) (appendsOnly_trans _)
               n (loopBody fl) (appendsOnly_loopBody fl) w).
    + intros Hk.
      exact (proj1 (sat_turns (fun w _ w' => keysKept w w')
                      keysKept_refl
                      (fun w w1 w2 _ => keysKept_trans w w1 w2)
                      n (loopBody fl) (kept_loopBody fl) w Hk)).
Qed.

(** ** What a loop that keeps returning has used *)

Lemma transferData_returned_next pgDsn mysqlDsn w :
  (transferData pgDsn mysqlDsn w).1 = Returned tt ->
  w_next (transferData pgDsn mysqlDsn w).2 = S (S (w_next w)).
Proof.
  rewrite transferData_run. cbv zeta.
  destruct (w_accepts w "postgres" pgDsn); [|discriminate].
  destruct (w_accepts w "mysql" mysqlDsn); [|discriminate].
  match goal with
  | |- context [transferBody ?a ?b ?x] =>
    pose proof (hk_transferBody a b x) as Hk;
    destruct (transferBody a b x) as [[[]|code] w3]
  end; [|discriminate].
  intros _. destruct Hk as [_ Hn]. cbn in Hn |- *. exact Hn.
Qed.

Lemma transferData_returned_account pgDsn mysqlDsn w :
  handlesFresh w ->
  (transferData pgDsn mysqlDsn w).1 = Returned tt ->
  w_ticks (transferData pgDsn mysqlDsn w).2 = S (w_ticks w) /\
  w_queries (transferData pgDsn mysqlDsn w).2
  = (w_queries w + length catalog)%nat /\
  w_open (transferData pgDsn mysqlDsn w).2 = w_open w /\
  w_next (transferData pgDsn mysqlDsn w).2 = S (S (w_next w)) /\
  handlesFresh (transferData pgDsn mysqlDsn w).2.
Proof.
  intros Hfresh Hret.
  pose proof (transferData_returns_closed pgDsn mysqlDsn w Hfresh Hret) as Ho.
  pose proof (transferData_returned_next pgDsn mysqlDsn w Hret) as Hn.
  destruct (transferData_accepted pgDsn mysqlDsn w Hret) as [Hp Hm].
  destruct (transferData_via_catalog pgDsn mysqlDsn w Hp Hm)
    as (w2 & pgDb & sqlDb & _ & Eq & _ & Er & _ & Eqr & Et).
  cbv zeta in Er, Eqr. split; [exact Et|]. split; [|split; [exact Ho|]].
  - rewrite Er in Hret.
    destruct (proj2 (all_run queryCount insertToMySQL queryCount_reads
                       queryCount_fails insertToMySQL_writes
                       insertToMySQL_fails pgDb sqlDb _ catalog w2
                       catalog_tables_distinct) Hret) as (Hq & _).
    cbv zeta in Hq. rewrite Eqr, Hq, Eq. reflexivity.
  - split; [exact Hn|]. intros i Hi. rewrite Ho in Hi. rewrite Hn.
    apply Hfresh in Hi. lia.
Qed.

Lemma turns_returned_account fl n : forall w,
  handlesFresh w ->
  (turns n (loopBody fl) w).1 = Returned tt ->
  w_ticks (turns n (loopBody fl) w).2 = (w_ticks w + 3 * n)%nat /\
  w_queries (turns n (loopBody fl) w).2
  = (w_queries w + n * length catalog)%nat /\
  w_open (turns n (loopBody fl) w).2 = w_open w /\
  w_next (turns n (loopBody fl) w).2 = (w_next w + 2 * n)%nat.
Proof.
  induction n as [|n IH]; intros w Hfresh.
  - intros _. cbn [turns]. repeat split; cbn; lia.
  - rewrite turns_succ, loopBody_run.
    pose proof (transferData_returned_account (pgDsn fl) (mysqlDsn fl)
                  (waited fl w) Hfresh) as Hacc.
    destruct (transferData (pgDsn fl) (mysqlDsn fl) (waited fl w))
      as [[[]|code] w1]; [|intros H; discriminate H].
    destruct (Hacc eq_refl) as (Ht & Hq & Ho & Hn & Hf1). cbn [snd] in *.
    intros Hret. destruct (IH w1 Hf1 Hret) as (Ht' & Hq' & Ho' & Hn').
    rewrite Ht', Hq', Ho', Hn', Ht, Hq, Ho, Hn.
    unfold waited. cbn [w_ticks w_queries w_open w_next emit tick].
    repeat split; lia.
Qed.

(** X16. When [n] turns of the loop have returned, the process has read the
    clock three times and asked the source once per metric in each turn, has
    opened two handles in each turn and holds none of them any more: the
    handles open are those that were open before. *)
Theorem returned_turns_account fl n w :
  handlesFresh w ->
  (main fl n w).1 = Returned tt ->
  w_ticks (main fl n w).2 = (w_ticks w + 3 * n)%nat /\
  w_queries (main fl n w).2 = (w_queries w + n * length catalog)%nat /\
  w_open (main fl n w).2 = w_open w /\
  w_next (main fl n w).2 = (w_next w + 2 * n)%nat.
Proof.
  intros Hfresh. destruct (main_cases fl n w) as [-> | ->].
  - intros H. discriminate H.
  - apply turns_returned_account, Hfresh.
Qed.

Lemma two_turns_return :
  (main sampleFlags 2 (movingWorld healthySource)).1 = Returned tt.
Proof. vm_compute. reflexivity. Qed.

Lemma movingWorld_fresh source : handlesFresh (movingWorld source).
Proof. intros i Hi. cbn in Hi. set_solver. Qed.

Lemma returned_turns_account_witness :
  w_ticks (main sampleFlags 2 (movingWorld healthySource)).2
  = (w_ticks (movingWorld healthySource) + 3 * 2)%nat /\
  w_queries (main sampleFlags 2 (movingWorld healthySource)).2
  = (w_queries (movingWorld healthySource) + 2 * length catalog)%nat /\
  w_open (main sampleFlags 2 (movingWorld healthySource)).2
  = w_open (movingWorld healthySource) /\
  w_next (main sampleFlags 2 (movingWorld healthySource)).2
  = (w_next (movingWorld healthySource) + 2 * 2)%nat.
Proof.
  exact (returned_turns_account sampleFlags 2 (movingWorld healthySource)
           (movingWorld_fresh healthySource) two_turns_return).
Defined.


(** ** The older variant: a run *)

Lemma older_queryCount_reads db q w n :
  Scan_int (w_source w (w_queries w) q) 0 = (None, n) ->
  exists tr, Older.queryCount db q w = (Returned n, with_trace tr (asked w)).
Proof.
  intros E. rewrite older_queryCount_run. cbv zeta. rewrite E.
  eexists. reflexivity.
Qed.

Lemma older_queryCount_fails db q w e count :
  Scan_int (w_source w (w_queries w) q) 0 = (Some e, count) ->
  exists tr, Older.queryCount db q w = (Exited 1, with_trace tr (asked w)).
Proof.
  intros E. rewrite older_queryCount_run. cbv zeta. rewrite E.
  eexists. reflexivity.
Qed.

Lemma older_insertToMySQL_writes db t date count w d :
  insertRow t date count (w_dest w) = inr d ->
  exists tr,
    Older.insertToMySQL db t date count w
    = (Returned tt, with_trace tr (with_dest d w)).
Proof.
  intros E. rewrite older_insertToMySQL_run. cbv zeta. rewrite E.
  eexists. reflexivity.
Qed.

Lemma older_insertToMySQL_fails db t date count w e :
  insertRow t date count (w_dest w) = inl e ->
  exists tr,
    Older.insertToMySQL db t date count w = (Exited 1, with_trace tr w).
Proof.
  intros E. rewrite older_insertToMySQL_run. cbv zeta. rewrite E.
  eexists. reflexivity.
Qed.

(** The older [transferData] runs its four metrics in order, under one
    date. *)
Lemma older_transferBody_catalog pgDb sqlDb w :
  Older.transferBody pgDb sqlDb w
  = (now ← time_Now;
     transferAllWith Older.queryCount Older.insertToMySQL pgDb sqlDb
                     (Time_Format_date now) olderCatalog) w.
Proof.
  unfold Older.transferBody, olderCatalog. cbn [transferAllWith fst snd].
  rewrite !bind_run. destruct (time_Now w) as [[now|code] w0]; [|reflexivity].
  repeat (rewrite !bind_run;
          match goal with
          | |- context [match ?m ?x with _ => _ end] =>
            lazymatch m with
            | Older.queryCount _ _ =>
              destruct (m x) as [[?|?] ?]; [|reflexivity]
            | Older.insertToMySQL _ _ _ _ =>
              destruct (m x) as [[[]|?] ?]; [|reflexivity]
            end
          end).
  match goal with
  | |- ?m ?x = _ => destruct (m x) as [[[]|?] ?]; reflexivity
  end.
Qed.

Lemma olderCatalog_tables_distinct : NoDup olderCatalog.*1.
Proof. apply (bool_decide_unpack _). vm_compute. exact I. Qed.

Lemma older_via_catalog pgDsn mysqlDsn w :
  w_accepts w "postgres" pgDsn = true ->
  w_accepts w "mysql" mysqlDsn = true ->
  exists w2 pgDb sqlDb,
    w_source w2 = w_source w /\ w_queries w2 = w_queries w /\
    w_dest w2 = w_dest w /\
    let r := transferAllWith Older.queryCount Older.insertToMySQL pgDb sqlDb
               (Time_Format_date (w_clock w (w_ticks w))) olderCatalog w2 in
    (Older.transferData pgDsn mysqlDsn w).1 = r.1 /\
    w_dest (Older.transferData pgDsn mysqlDsn w).2 = w_dest r.2.
Proof.
  intros Hp Hm. rewrite older_transferData_run. cbv zeta. rewrite Hp, Hm.
  match goal with
  | |- context [Older.transferBody ?a ?b ?x] =>
    exists (tick x), a, b; rewrite (older_transferBody_catalog a b x)
  end.
  repeat (split; [reflexivity|]).
  rewrite bind_run.
  match goal with
  | |- context [time_Now ?x] =>
    change (time_Now x) with (Returned (w_clock w (w_ticks w)), tick x)
  end.
  cbv beta iota.
  match goal with
  | |- context [transferAllWith ?f ?g ?a ?b ?d ?c ?x] =>
    destruct (transferAllWith f g a b d c x) as [[[]|code] w3]
  end; split; reflexivity.
Qed.

Lemma older_unaccepted pgDsn mysqlDsn w :
  w_accepts w "postgres" pgDsn = false \/
  w_accepts w "mysql" mysqlDsn = false ->
  (Older.transferData pgDsn mysqlDsn w).1 = Exited 1 /\
  w_dest (Older.transferData pgDsn mysqlDsn w).2 = w_dest w.
Proof.
  intros H. rewrite older_transferData_run. cbv zeta.
  destruct (w_accepts w "postgres" pgDsn); [|split; reflexivity].
  destruct H as [H|H]; [discriminate H|]. rewrite H. split; reflexivity.
Qed.


(** ** The older variant: the first failure ends the process *)

Lemma olderFailFast_nil : olderFailFast None [].
Proof. constructor. Qed.

Lemma olderFailFast_app s new1 new2 :
  olderFailFast None new1 -> olderFailFast s new2 ->
  olderFailFast s (new1 ++ new2).
Proof.
  intros H1 H2. destruct s as [code|]; cbn [olderFailFast] in *.
  - destruct H2 as (-> & before & tl & -> & Hb & Ht). split; [reflexivity|].
    exists (new1 ++ before), tl. rewrite app_assoc.
    split; [reflexivity|]. split; [|exact Ht].
    apply Forall_app; split; assumption.
  - apply Forall_app; split; assumption.
Qed.

Lemma off_seq {A B : Type} (m : Proc A) (f : A -> Proc B) :
  obeys olderFailFast m -> (forall a, obeys olderFailFast (f a)) ->
  obeys olderFailFast (m ≫= f).
Proof.
  exact (sat_seq (traced olderFailFast)
                 (traced_trans _ olderFailFast_app) m f).
Qed.

Lemma off_defer {A B : Type} (d : Proc B) (body : Proc A) :
  obeys olderFailFast d -> obeys olderFailFast body ->
  obeys olderFailFast (defer d body).
Proof.
  exact (sat_defer (traced olderFailFast) (traced_refl _ olderFailFast_nil)
                   (traced_trans _ olderFailFast_app) d body).
Qed.

Lemma off_quiet {A : Type} (m : Proc A) :
  (forall w, exists a new,
      m w = (Returned a, (m w).2) /\ w_trace (m w).2 = w_trace w ++ new /\
      Forall (fun e => isFailure e = false) new) ->
  obeys olderFailFast m.
Proof.
  intros H w. destruct (H w) as (a & new & E & Etr & F).
  exists new. split; [exact Etr|]. rewrite E. exact F.
Qed.

Lemma off_Now : obeys olderFailFast time_Now.
Proof.
  apply off_quiet. intros w. eexists _, []. split; [reflexivity|].
  split; [cbn; now rewrite app_nil_r|constructor].
Qed.

Lemma off_Sleep d : obeys olderFailFast (time_Sleep d).
Proof.
  apply off_quiet. intros w. eexists _, [_]. split; [reflexivity|].
  split; [reflexivity|]. repeat constructor.
Qed.

Lemma off_Open driver dsn : obeys olderFailFast (sql_Open driver dsn).
Proof.
  intros w. unfold sql_Open. destruct (w_accepts w driver dsn).
  - eexists [_]. split; [reflexivity|]. repeat constructor.
  - apply traced_refl, olderFailFast_nil.
Qed.

Lemma off_Close db : obeys olderFailFast (DB_Close db).
Proof.
  apply off_quiet. intros w. eexists _, [_]. split; [reflexivity|].
  split; [reflexivity|]. repeat constructor.
Qed.

Lemma off_Fatalf {A : Type} format e :
  obeys olderFailFast (@log_Fatalf A format [LErr e]).
Proof.
  intros w. exists [EvLog format [LErr e]]. split; [reflexivity|].
  split; [reflexivity|]. exists [], [EvLog format [LErr e]].
  repeat split; constructor.
Qed.

Lemma off_queryCount db q : obeys olderFailFast (Older.queryCount db q).
Proof.
  intros w. rewrite older_queryCount_run. cbv zeta.
  destruct (Scan_int (w_source w (w_queries w) q) 0) as [[e|] count] eqn:E.
  - eexists [_; _]. split; [cbn; now rewrite <- app_assoc|].
    split; [reflexivity|]. eexists [], _. split; [reflexivity|].
    split; [constructor|]. econstructor. exact E.
  - exists [EvQuery db q (w_source w (w_queries w) q)].
    split; [reflexivity|]. repeat constructor. cbn [isFailure]. now rewrite E.
Qed.

Lemma off_insertToMySQL db t date count :
  obeys olderFailFast (Older.insertToMySQL db t date count).
Proof.
  intros w. rewrite older_insertToMySQL_run. cbv zeta.
  destruct (insertRow t date count (w_dest w)) as [e|d].
  - eexists [_; _]. split; [cbn; now rewrite <- app_assoc|].
    split; [reflexivity|]. eexists [], _. split; [reflexivity|].
    split; constructor.
  - eexists [_]. split; [reflexivity|]. repeat constructor.
Qed.

Lemma off_transferData pgDsn mysqlDsn :
  obeys olderFailFast (Older.transferData pgDsn mysqlDsn).
Proof.
  unfold Older.transferData.
  apply off_seq; [apply off_Open|]. intros [err|pgDb]; [apply off_Fatalf|].
  apply off_defer; [apply off_Close|].
  apply off_seq; [apply off_Open|]. intros [err|sqlDb]; [apply off_Fatalf|].
  apply off_defer; [apply off_Close|].
  unfold Older.transferBody.
  repeat first
    [ apply off_queryCount | apply off_insertToMySQL | apply off_Now
    | apply off_seq; [|intros ?; cbv zeta] ].
Qed.

Lemma off_loopBody fl : obeys olderFailFast (Older.loopBody fl).
Proof.
  unfold Older.loopBody.
  apply off_seq; [apply off_Now|]. intros now. cbv zeta.
  apply off_seq.
  { unfold time_Until. apply off_seq; [apply off_Now|]. intros t.
    apply sat_ret, traced_refl, olderFailFast_nil. }
  intros d. apply off_seq; [apply off_Sleep|]. intros _.
  apply off_transferData.
Qed.

Lemma off_main fl n : obeys olderFailFast (Older.main fl n).
Proof.
  exact (sat_turns (traced olderFailFast) (traced_refl _ olderFailFast_nil)
                   (traced_trans _ olderFailFast_app) n (Older.loopBody fl)
                   (off_loopBody fl)).
Qed.

(** X18. The older variant is fail-fast as well, over any number of turns:
    while it returns it has recorded no failure, and when it ends it does so
    with status 1 right after its first failure, a refused name, a failed
    query or a refused insert, whose log line carries the error alone. *)
Theorem older_fail_fast fl n w :
  match (Older.main fl n w).1 with
  | Returned _ =>
    Forall (fun e => isFailure e = false) (newEvents (Older.main fl n) w)
  | Exited code =>
    code = 1 /\
    exists before tail,
      newEvents (Older.main fl n) w = before ++ tail /\
      Forall (fun e => isFailure e = false) before /\
      olderFailureTail tail
  end.
Proof.
  destruct (off_main fl n w) as (new & Etr & Hq).
  rewrite (newEvents_traced _ w new Etr).
  destruct ((Older.main fl n w).1) as [a|code]; exact Hq.
Qed.

(** X19. The older variant checks no flag: whatever the flags, missing names
    included, the first thing its loop does is sleep until the due time; the
    names are looked at only after that. *)
Theorem older_main_sleeps_first fl n w :
  exists rest,
    newEvents (Older.main fl (S n)) w
    = EvSleep (Time_Sub (dueTime (w_clock w (w_ticks w)) (executionTime fl))
                        (w_clock w (S (w_ticks w))))
      :: rest.
Proof.
  unfold newEvents, Older.main. rewrite turns_succ.
  change (Older.loopBody fl w)
    with (Older.transferData (pgDsn fl) (mysqlDsn fl) (waited fl w)).
  destruct (off_transferData (pgDsn fl) (mysqlDsn fl) (waited fl w))
    as (new1 & E1 & _).
  destruct (Older.transferData (pgDsn fl) (mysqlDsn fl) (waited fl w))
    as [[[]|code] w1]; cbn [snd] in E1.
  - destruct (off_main fl n w1) as (new2 & E2 & _).
    unfold Older.main in E2. rewrite E2, E1. unfold waited.
    cbn [w_trace emit tick]. rewrite <- !app_assoc, drop_app_length.
    eexists. reflexivity.
  - cbn [snd]. rewrite E1. unfold waited.
    cbn [w_trace emit tick]. rewrite <- !app_assoc, drop_app_length.
    eexists. reflexivity.
Qed.


(** ** The tables of the documented schema *)

Lemma older_exit_status_one pgDsn mysqlDsn w code :
  (Older.transferData pgDsn mysqlDsn w).1 = Exited code -> code = 1.
Proof.
  intros Hr. destruct (off_transferData pgDsn mysqlDsn w) as (new & _ & Hq).
  rewrite Hr in Hq. destruct Hq as (-> & _). reflexivity.
Qed.

Lemma missing_first_table pgDsn mysqlDsn w :
  w_dest w !! "active_machines_count_aleo"%string = None ->
  (transferData pgDsn mysqlDsn w).1 = Exited 1 /\
  w_dest (transferData pgDsn mysqlDsn w).2 = w_dest w.
Proof.
  intros Hd. apply refused_first_insert. intros n d Ei.
  apply insertRow_inr in Ei as (rows & Hl & _). congruence.
Qed.

Lemma older_missing_first_table pgDsn mysqlDsn w :
  w_dest w !! "machines_count"%string = None ->
  (Older.transferData pgDsn mysqlDsn w).1 = Exited 1 /\
  w_dest (Older.transferData pgDsn mysqlDsn w).2 = w_dest w.
Proof.
  intros Hd.
  assert (Hex : exists code,
             (Older.transferData pgDsn mysqlDsn w).1 = Exited code /\
             w_dest (Older.transferData pgDsn mysqlDsn w).2 = w_dest w).
  { destruct (w_accepts w "postgres" pgDsn) eqn:Hp;
      [destruct (w_accepts w "mysql" mysqlDsn) eqn:Hm|].
    - destruct (older_via_catalog pgDsn mysqlDsn w Hp Hm)
        as (w3 & pgDb & sqlDb & _ & _ & Ed & Er & Edr).
      cbv zeta in Er, Edr. rewrite Er, Edr, <- Ed. rewrite <- Ed in Hd.
      apply (all_missing Older.queryCount Older.insertToMySQL
               older_queryCount_reads older_queryCount_fails
               older_insertToMySQL_writes older_insertToMySQL_fails
               pgDb sqlDb _ _ _ _ w3 Hd).
    - destruct (older_unaccepted pgDsn mysqlDsn w (or_intror Hm))
        as (Hr & Hd'). eauto.
    - destruct (older_unaccepted pgDsn mysqlDsn w (or_introl Hp))
        as (Hr & Hd'). eauto. }
  destruct Hex as (code & Hr & Hd'). split; [|exact Hd'].
  rewrite Hr. f_equal. exact (older_exit_status_one _ _ _ _ Hr).
Qed.

Lemma undocumented_table d t :
  asDocumented d -> t ∉ documentedTables -> d !! t = None.
Proof.
  intros Hdoc Hn. destruct (d !! t) as [rows|] eqn:E; [|reflexivity].
  exfalso. apply Hn, Hdoc. rewrite E. eauto.
Qed.

(** X20. The table creation statements that close main.go name three tables;
    the first table either variant writes to is none of them. Over a store set
    up from those statements alone, no run of either variant writes a row: it
    ends the process with status 1 at its first insert, or before. *)
Theorem documented_schema_stops_run pgDsn mysqlDsn w :
  asDocumented (w_dest w) ->
  (transferData pgDsn mysqlDsn w).1 = Exited 1 /\
  w_dest (transferData pgDsn mysqlDsn w).2 = w_dest w /\
  (Older.transferData pgDsn mysqlDsn w).1 = Exited 1 /\
  w_dest (Older.transferData pgDsn mysqlDsn w).2 = w_dest w.
Proof.
  intros Hdoc.
  assert (H1 : w_dest w !! "active_machines_count_aleo"%string = None).
  { apply (undocumented_table _ _ Hdoc).
    apply (bool_decide_unpack _). vm_compute. exact I. }
  assert (H2 : w_dest w !! "machines_count"%string = None).
  { apply (undocumented_table _ _ Hdoc).
    apply (bool_decide_unpack _). vm_compute. exact I. }
  destruct (missing_first_table pgDsn mysqlDsn w H1) as [Ha Hb].
  destruct (older_missing_first_table pgDsn mysqlDsn w H2) as [Hc Hd].
  repeat split; assumption.
Qed.

Lemma documentedWorld_asDocumented source :
  asDocumented (w_dest (documentedWorld source)).
Proof.
  intros t [rows H]. unfold documentedWorld, documentedTables in *.
  cbn in H.
  repeat (apply lookup_insert_Some in H as [[<- _]|[_ H]];
          [apply list_elem_of_In; cbn; tauto|]).
  rewrite lookup_empty in H. discriminate H.
Qed.

Lemma documented_schema_stops_run_witness :
  (transferData "pg" "my" (documentedWorld healthySource)).1 = Exited 1 /\
  w_dest (transferData "pg" "my" (documentedWorld healthySource)).2
  = w_dest (documentedWorld healthySource) /\
  (Older.transferData "pg" "my" (documentedWorld healthySource)).1
  = Exited 1 /\
  w_dest (Older.transferData "pg" "my" (documentedWorld healthySource)).2
  = w_dest (documentedWorld healthySource).
Proof.
  exact (documented_schema_stops_run "pg" "my" (documentedWorld healthySource)
           (documentedWorld_asDocumented healthySource)).
Defined.

(** ** A quotation left open in the text of a query *)

Lemma returned_run_fed pgDsn mysqlDsn w i metric :
  (transferData pgDsn mysqlDsn w).1 = Returned tt ->
  catalog !! i = Some metric ->
  exists n, w_source w (w_queries w + i)%nat metric.2 = IntValue n /\
            minInt64 <= n <= maxInt64.
Proof.
  intros Hret Hi.
  destruct (transferData_accepted pgDsn mysqlDsn w Hret) as [Hp Hm].
  destruct (transferData_via_catalog pgDsn mysqlDsn w Hp Hm)
    as (w2 & pgDb & sqlDb & Es & Eq & _ & Er & _).
  cbv zeta in Er. rewrite Er in Hret.
  destruct (proj1 (proj1 (all_run queryCount insertToMySQL queryCount_reads
                            queryCount_fails insertToMySQL_writes
                            insertToMySQL_fails pgDb sqlDb _ catalog w2
                            catalog_tables_distinct)) Hret i metric Hi)
    as (n & rows & Hs & Hn & _).
  exists n. rewrite <- Es, <- Eq. split; assumption.
Qed.

Lemma fifth_query_left_open : leftOpen QuaiActiveMachinesChannelQuery = true.
Proof. vm_compute. reflexivity. Qed.

Lemma open_text_exits pgDsn mysqlDsn w :
  refusesOpenText w -> (transferData pgDsn mysqlDsn w).1 = Exited 1.
Proof.
  intros Href.
  destruct (transferData pgDsn mysqlDsn w).1 as [[]|code] eqn:Hr.
  - exfalso.
    destruct (returned_run_fed pgDsn mysqlDsn w 4%nat
                ("active_channel_machines_count_quai_garden"%string,
                 QuaiActiveMachinesChannelQuery) Hr eq_refl)
      as (n & Hs & Hn).
    cbn [snd] in Hs.
    pose proof (Href (w_queries w + 4)%nat QuaiActiveMachinesChannelQuery
                  fifth_query_left_open) as Hf.
    rewrite Hs in Hf. apply Hf.
    rewrite (proj2 (Scan_int_integer (IntValue n) 0 n) (conj eq_refl Hn)).
    reflexivity.
  - f_equal. exact (exit_status_one _ _ _ _ Hr).
Qed.

(** X21. The text of the fifth query of main.go opens a string literal that it
    never closes, and no other query of either variant does. Against a source
    that fails such a statement, no run of main.go returns, and the program
    ends with status 1 in its first turn, whatever its flags. *)
Theorem open_literal_stops_every_run w :
  refusesOpenText w ->
  map (fun metric => leftOpen metric.2) catalog
  = [false; false; false; false; true] /\
  Forall (fun metric => leftOpen metric.2 = false) olderCatalog /\
  (forall pgDsn mysqlDsn, (transferData pgDsn mysqlDsn w).1 = Exited 1) /\
  (forall fl n, (main fl (S n) w).1 = Exited 1).
Proof.
  intros Href. split; [vm_compute; reflexivity|].
  split; [repeat constructor|].
  split; [intros pgDsn mysqlDsn; apply open_text_exits, Href|].
  intros fl n. destruct (main_cases fl (S n) w) as [-> | ->]; [reflexivity|].
  rewrite turns_succ, loopBody_run.
  pose proof (open_text_exits (pgDsn fl) (mysqlDsn fl) (waited fl w) Href)
    as Hr.
  destruct (transferData (pgDsn fl) (mysqlDsn fl) (waited fl w))
    as [[[]|code] w1]; [discriminate Hr|exact Hr].
Qed.

Lemma parsingSource_refuses : refusesOpenText (sampleWorld parsingSource).
Proof.
  intros k q Hq. unfold sampleWorld, parsingSource. cbn [w_source].
  rewrite Hq. unfold queryFailed. discriminate.
Qed.

Lemma open_literal_stops_every_run_witness :
  map (fun metric => leftOpen metric.2) catalog
  = [false; false; false; false; true] /\
  Forall (fun metric => leftOpen metric.2 = false) olderCatalog /\
  (forall pgDsn mysqlDsn,
     (transferData pgDsn mysqlDsn (sampleWorld parsingSource)).1
     = Exited 1) /\
  (forall fl n, (main fl (S n) (sampleWorld parsingSource)).1 = Exited 1).
Proof.
  exact (open_literal_stops_every_run (sampleWorld parsingSource)
           parsingSource_refuses).
Defined.


(** ** The date key of a run and the day it stands for *)

Lemma readFrom_cons acc a s :
  readFrom acc (String a s)
  = readFrom (acc * 10 + (Z.of_N (N_of_ascii a) - 48)) s.
Proof. reflexivity. Qed.

Lemma pretty_N_char_code d :
  (d < 10)%N -> Z.of_N (N_of_ascii (pretty_N_char d)) = 48 + Z.of_N d.
Proof.
  intros Hd.
  assert (H : (d = 0 \/ d = 1 \/ d = 2 \/ d = 3 \/ d = 4 \/ d = 5 \/ d = 6
               \/ d = 7 \/ d = 8 \/ d = 9)%N) by lia.
  repeat (destruct H as [->|H]; [reflexivity|]). subst d. reflexivity.
Qed.

(** The digits that [pretty] writes read back as the number written. *)
Lemma readFrom_pretty_N_go x : forall s,
  readFrom 0 (pretty_N_go x s) = readFrom (Z.of_N x) s.
Proof.
  induction (N.lt_wf_0 x) as [x _ IH]. intros s.
  destruct (N.eq_0_gt_0_cases x) as [->|Hx]; [reflexivity|].
  rewrite pretty_N_go_step by exact Hx.
  rewrite IH by (apply N.div_lt; [exact Hx|reflexivity]).
  rewrite readFrom_cons, pretty_N_char_code
    by (apply N.mod_lt; discriminate).
  f_equal. rewrite (N.div_mod x 10) at 3 by discriminate. lia.
Qed.

Lemma readInt_pretty_N (n : N) : readInt (pretty n) = Z.of_N n.
Proof.
  unfold pretty, pretty_N, readInt. destruct (decide (n = 0%N)) as [->|_].
  - reflexivity.
  - apply readFrom_pretty_N_go.
Qed.

Lemma length_pretty_N_go k : forall x s,
  (x < 10 ^ N.of_nat k)%N ->
  (String.length (pretty_N_go x s) <= k + String.length s)%nat.
Proof.
  induction k as [|k IH]; intros x s Hx.
  - change (N.of_nat 0) with 0%N in Hx. rewrite N.pow_0_r in Hx.
    assert (x = 0%N) as -> by lia. rewrite pretty_N_go_0. lia.
  - destruct (N.eq_0_gt_0_cases x) as [->|Hpos];
      [rewrite pretty_N_go_0; lia|].
    rewrite pretty_N_go_step by exact Hpos.
    etransitivity; [apply IH|cbn [String.length]; lia].
    rewrite Nat2N.inj_succ, N.pow_succ_r' in Hx.
    apply N.Div0.div_lt_upper_bound. exact Hx.
Qed.

Lemma length_pretty_N k (n : N) :
  (0 < k)%nat -> (n < 10 ^ N.of_nat k)%N ->
  (String.length (pretty n) <= k)%nat.
Proof.
  intros Hk Hn. unfold pretty, pretty_N.
  destruct (decide (n = 0%N)) as [->|_]; [cbn; lia|].
  pose proof (length_pretty_N_go k n EmptyString Hn) as H.
  cbn [String.length] in H. lia.
Qed.

Lemma zeros_succ n : zeros (S n) = String "0"%char (zeros n).
Proof.
  unfold zeros. cbn [seq fold_right]. f_equal.
  generalize 0%nat at 2. generalize 1%nat.
  induction n as [|n IH]; intros a b; [reflexivity|].
  cbn [seq fold_right]. f_equal. apply IH.
Qed.

Lemma zeros_length n : String.length (zeros n) = n.
Proof.
  induction n as [|n IH]; [reflexivity|].
  rewrite zeros_succ. cbn [String.length]. now rewrite IH.
Qed.

Lemma readFrom_zeros n s : readFrom 0 (zeros n ++ s) = readFrom 0 s.
Proof.
  induction n as [|n IH]; [reflexivity|].
  rewrite zeros_succ.
  change (String "0" (zeros n) ++ s)%string
    with (String "0"%char (zeros n ++ s)).
  rewrite readFrom_cons. exact IH.
Qed.

(** A number that is not negative is written in [width] characters when it
    has no more digits than that, and reads back as it was. *)
Lemma appendInt_reads k x :
  (0 < k)%nat -> 0 <= x < 10 ^ Z.of_nat k ->
  String.length (appendInt x k) = k /\ readInt (appendInt x k) = x.
Proof.
  intros Hk Hx. unfold appendInt. cbv zeta.
  destruct (Z.ltb_spec x 0) as [|_]; [lia|].
  assert (Hn : (Z.abs_N x < 10 ^ N.of_nat k)%N).
  { apply N2Z.inj_lt. rewrite N2Z.inj_abs_N, N2Z.inj_pow, nat_N_Z.
    rewrite Z.abs_eq by lia. exact (proj2 Hx). }
  pose proof (length_pretty_N k (Z.abs_N x) Hk Hn) as Hl. split.
  - rewrite string_length_app, zeros_length. lia.
  - unfold readInt. rewrite readFrom_zeros.
    fold (readInt (pretty (Z.abs_N x))).
    rewrite readInt_pretty_N, N2Z.inj_abs_N. lia.
Qed.

Lemma appendInt_year y :
  0 <= y <= 9999 ->
  String.length (appendInt y 4) = 4%nat /\ readInt (appendInt y 4) = y.
Proof.
  intros Hy. apply (appendInt_reads 4 y); [lia|].
  change (10 ^ Z.of_nat 4) with 10000. lia.
Qed.

Lemma appendInt_two x :
  1 <= x <= 31 ->
  String.length (appendInt x 2) = 2%nat /\ readInt (appendInt x 2) = x.
Proof.
  intros Hx. apply (appendInt_reads 2 x); [lia|].
  change (10 ^ Z.of_nat 2) with 100. lia.
Qed.

Lemma app_inj_length (s s' r r' : string) :
  String.length s = String.length s' ->
  (s ++ r)%string = (s' ++ r')%string -> s = s' /\ r = r'.
Proof.
  revert s'. induction s as [|a s IH]; intros [|a' s'] Hl; try discriminate.
  - intros H. split; [reflexivity|exact H].
  - cbn [String.length] in Hl. injection Hl as Hl.
    change (String a (s ++ r) = String a' (s' ++ r') ->
            String a s = String a' s' /\ r = r').
    intros [= -> H]. destruct (IH s' Hl H) as [-> ->]. split; reflexivity.
Qed.

Lemma civil_of_date t u :
  0 <= Time_Year t <= 9999 -> 0 <= Time_Year u <= 9999 ->
  Time_Format_date t = Time_Format_date u -> Time_civil t = Time_civil u.
Proof.
  intros Ht Hu. unfold Time_Format_date.
  destruct (CalendarFacts.civil_from_days_range (localDay t)) as [Hm Hd].
  destruct (CalendarFacts.civil_from_days_range (localDay u)) as [Hm' Hd'].
  fold (Time_civil t) in Hm, Hd. fold (Time_civil u) in Hm', Hd'.
  fold (Time_Month t) in Hm. fold (Time_Day t) in Hd.
  fold (Time_Month u) in Hm'. fold (Time_Day u) in Hd'.
  destruct (appendInt_year _ Ht) as [Ly Ry].
  destruct (appendInt_year _ Hu) as [Ly' Ry'].
  destruct (appendInt_two (Time_Month t) ltac:(lia)) as [Lm Rm].
  destruct (appendInt_two (Time_Month u) ltac:(lia)) as [Lm' Rm'].
  destruct (appendInt_two (Time_Day t) ltac:(lia)) as [Ld Rd].
  destruct (appendInt_two (Time_Day u) ltac:(lia)) as [Ld' Rd'].
  intros H.
  apply app_inj_length in H as [Hy H]; [|congruence].
  change ("-" ++ ?x)%string with (String "-"%char x) in H.
  injection H as H.
  apply app_inj_length in H as [Hmo H]; [|congruence].
  change ("-" ++ ?x)%string with (String "-"%char x) in H.
  injection H as H.
  assert (Ey : Time_Year t = Time_Year u) by congruence.
  assert (Em : Time_Month t = Time_Month u) by congruence.
  assert (Ed : Time_Day t = Time_Day u) by congruence.
  unfold Time_Year, Time_Month, Time_Day in Ey, Em, Ed.
  destruct (Time_civil t), (Time_civil u). cbn in Ey, Em, Ed.
  congruence.
Qed.

(** X22. The date key stands for one calendar day: in the years 0 to 9999, two
    instants are formatted to the same date exactly when they fall on the same
    day of their clocks. *)
Theorem date_key_identifies_day t u :
  0 <= Time_Year t <= 9999 -> 0 <= Time_Year u <= 9999 ->
  (Time_Format_date t = Time_Format_date u <-> localDay t = localDay u).
Proof.
  intros Ht Hu. split.
  - intros H. apply (civil_of_date t u Ht Hu) in H.
    unfold Time_civil in H.
    rewrite <- (CalendarFacts.days_of_civil_from_days (localDay t)), H.
    apply CalendarFacts.days_of_civil_from_days.
  - intros H. unfold Time_Format_date, Time_Year, Time_Month, Time_Day,
      Time_civil.
    now rewrite H.
Qed.

Lemma date_key_identifies_day_witness :
  Time_Format_date noon = Time_Format_date (time_Date 2024 3 1 23 0 0 0 UTC)
  <-> localDay noon = localDay (time_Date 2024 3 1 23 0 0 0 UTC).
Proof.
  apply (date_key_identifies_day noon (time_Date 2024 3 1 23 0 0 0 UTC));
    vm_compute; split; discriminate.
Defined.
